(** * The response-aggregation engine of the OSCE examiner dashboard

    A shallow embedding of the non-presentational code of [src/index..jsx]
    (the [parseScore] helper and the [useEffect]/[useMemo] bodies of
    [ExaminerDashboard]) together with the fragment of JavaScript those
    bodies run on.

    Conventions of the embedding.
    - A JavaScript number is [NaN], a signed infinity or a finite binary64
      value, carried as the rational it denotes.  Every operation that yields
      a number ([+], [*], [/], reading a numeric text) rounds its exact
      result to binary64: to the nearest value, to the even significand on a
      tie, to an infinity past the largest value.  The sign of zero is not
      represented: [-0] is [0].
    - A length or a counter is a natural number: an array holds fewer than
      [2^32] elements, and binary64 holds every integer up to [2^53].
    - A JavaScript string is a [string] holding its UTF-8 encoding.  Every
      character test the engine performs (decimal digit, dot, sign, white
      space) reads the same on the encoding as on the UTF-16 code units.
    - Values are the ones [JSON.parse] can produce, plus [undefined]; there
      are no functions, so an own property never is callable.
    - A thrown exception is the [Throw] branch of [result]. *)

From stdpp Require Import gmap strings list pretty.
From Stdlib Require Import Ascii QArith Qround Qabs Qpower Lqa.

Set Warnings "-register-all".

(** ** Numbers *)

Inductive number : Type :=
| NaN
| Inf (neg : bool)
| Fin (q : Q).

(** The Number of an integer that binary64 holds exactly: a length, a
    counter, a bucket key, a rounded score. *)
Definition num_of_Z (z : Z) : number := Fin (inject_Z z).
Definition num_of_nat (n : nat) : number := num_of_Z (Z.of_nat n).

Definition isNaN (x : number) : bool :=
  match x with NaN => true | _ => false end.

Definition Qzero_bool (q : Q) : bool := Qeq_bool q 0%Q.
Definition Qneg_bool (q : Q) : bool := negb (Qle_bool 0%Q q).

(** *** Rounding to binary64 *)

(** The binade of a positive rational: the [E] with [2^E <= q < 2^(E+1)]. *)
Definition Qlog2 (q : Q) : Z :=
  let l := (Z.log2 (Qnum q) - Z.log2 (Z.pos (Qden q)))%Z in
  if Qle_bool (2 ^ l) q then l else (l - 1)%Z.

(** The nearest integer, the even one on a tie. *)
Definition round_half_even (q : Q) : Z :=
  let f := Qfloor q in
  match (q - inject_Z f ?= 1 # 2)%Q with
  | Lt => f
  | Gt => (f + 1)%Z
  | Eq => if Z.even f then f else (f + 1)%Z
  end.

(** The exponent of the unit in the last place at a positive rational: 53
    significant bits, and no unit below the subnormal [2^-1074]. *)
Definition ulp_exp (q : Q) : Z := Z.max (Qlog2 q - 52) (-1074).

(** A positive rational rounded to a multiple of its unit. *)
Definition rounded (q : Q) : Q :=
  (inject_Z (round_half_even (q / 2 ^ ulp_exp q)) * 2 ^ ulp_exp q)%Q.

(** The Number value for a rational: the binary64 value nearest to it, an
    infinity from [2^1024 - 2^970] on; written in lowest terms. *)
Definition to_binary64 (q : Q) : number :=
  if Qzero_bool q then Fin 0
  else
    let v := rounded (Qabs q) in
    if Qle_bool (2 ^ 1024) v then Inf (Qneg_bool q)
    else Fin (Qred (if Qneg_bool q then - v else v)).

(** The rationals that are binary64 values. *)
Definition is_binary64 (q : Q) : bool :=
  match to_binary64 q with
  | Fin v => Qeq_bool v q
  | _ => false
  end.

(** [x + y] on numbers. *)
Definition num_add (x y : number) : number :=
  match x, y with
  | NaN, _ | _, NaN => NaN
  | Inf a, Inf b => if Bool.eqb a b then Inf a else NaN
  | Inf a, Fin _ | Fin _, Inf a => Inf a
  | Fin a, Fin b => to_binary64 (a + b)
  end.

(** [x * y] on numbers. *)
Definition num_mul (x y : number) : number :=
  match x, y with
  | NaN, _ | _, NaN => NaN
  | Inf a, Inf b => Inf (xorb a b)
  | Inf a, Fin q | Fin q, Inf a =>
      if Qzero_bool q then NaN else Inf (xorb a (Qneg_bool q))
  | Fin a, Fin b => to_binary64 (a * b)
  end.

(** [x / y] on numbers. *)
Definition num_div (x y : number) : number :=
  match x, y with
  | NaN, _ | _, NaN => NaN
  | Inf _, Inf _ => NaN
  | Inf a, Fin b => Inf (xorb a (Qneg_bool b))
  | Fin _, Inf _ => Fin 0%Q
  | Fin a, Fin b =>
      if Qzero_bool b then
        if Qzero_bool a then NaN else Inf (Qneg_bool a)
      else to_binary64 (a / b)
  end.

(** [x < y] on numbers. *)
Definition num_ltb (x y : number) : bool :=
  match x, y with
  | NaN, _ | _, NaN => false
  | Inf true, Inf true => false
  | Inf true, _ => true
  | _, Inf true => false
  | Inf false, _ => false
  | Fin _, Inf false => true
  | Fin a, Fin b => negb (Qle_bool b a)
  end.

(** [x === y] on numbers. *)
Definition num_eqb (x y : number) : bool :=
  match x, y with
  | Inf a, Inf b => Bool.eqb a b
  | Fin a, Fin b => Qeq_bool a b
  | _, _ => false
  end.

(** ToBoolean on a number: [0] and [NaN] are falsy. *)
Definition num_truthy (x : number) : bool :=
  match x with
  | NaN => false
  | Inf _ => true
  | Fin q => negb (Qzero_bool q)
  end.

(** [Math.round]: the nearest integer, a tie going toward positive infinity.
    The result needs no rounding: a binary64 value of magnitude [2^52] or
    more is an integer already, and below that every integer is a binary64
    value. *)
Definition Math_round (x : number) : number :=
  match x with
  | Fin q => num_of_Z (Qfloor (q + (1 # 2))%Q)
  | _ => x
  end.

(** ** Characters and decimal text *)

Definition digit_of (c : ascii) : option Z :=
  let n := Z.of_N (Ascii.N_of_ascii c) in
  if (48 <=? n)%Z && (n <=? 57)%Z then Some (n - 48)%Z else None.

Definition hex_digit_of (c : ascii) : option Z :=
  let n := Z.of_N (Ascii.N_of_ascii c) in
  if (48 <=? n)%Z && (n <=? 57)%Z then Some (n - 48)%Z
  else if (97 <=? n)%Z && (n <=? 102)%Z then Some (n - 87)%Z
  else if (65 <=? n)%Z && (n <=? 70)%Z then Some (n - 55)%Z
  else None.

Definition is_digit (c : ascii) : bool :=
  match digit_of c with Some _ => true | None => false end.

(** [scan digit acc s]: reads the longest prefix of [s] made of digits in the
    given radix; returns the value read on top of [acc], the number of digits
    and the rest. *)
Fixpoint scan (radix : Z) (digit : ascii -> option Z) (acc : Z) (len : nat)
    (s : string) : Z * nat * string :=
  match s with
  | String c s' =>
      match digit c with
      | Some d => scan radix digit (acc * radix + d)%Z (S len) s'
      | None => (acc, len, s)
      end
  | EmptyString => (acc, len, s)
  end.

Definition scan_dec (s : string) : Z * nat * string := scan 10 digit_of 0 0 s.
Definition scan_hex (s : string) : Z * nat * string := scan 16 hex_digit_of 0 0 s.

(** The StrWhiteSpaceChar prefix of a string: the ASCII blanks and line
    terminators, and the encodings of U+00A0, U+1680, U+2000..U+200A, U+2028,
    U+2029, U+202F, U+205F, U+3000 and U+FEFF. *)
Definition ws_len (s : string) : nat :=
  match s with
  | String c1 s1 =>
      let n1 := Ascii.N_of_ascii c1 in
      if (n1 =? 9)%N || (n1 =? 10)%N || (n1 =? 11)%N || (n1 =? 12)%N
         || (n1 =? 13)%N || (n1 =? 32)%N then 1%nat
      else match s1 with
      | String c2 s2 =>
          let n2 := Ascii.N_of_ascii c2 in
          if (n1 =? 194)%N && (n2 =? 160)%N then 2%nat
          else match s2 with
          | String c3 _ =>
              let n3 := Ascii.N_of_ascii c3 in
              if (n1 =? 225)%N && (n2 =? 154)%N && (n3 =? 128)%N then 3%nat
              else if (n1 =? 226)%N && (n2 =? 128)%N
                      && (((128 <=? n3)%N && (n3 <=? 138)%N) || (n3 =? 168)%N
                          || (n3 =? 169)%N || (n3 =? 175)%N) then 3%nat
              else if (n1 =? 226)%N && (n2 =? 129)%N && (n3 =? 159)%N then 3%nat
              else if (n1 =? 227)%N && (n2 =? 128)%N && (n3 =? 128)%N then 3%nat
              else if (n1 =? 239)%N && (n2 =? 187)%N && (n3 =? 191)%N then 3%nat
              else 0%nat
          | EmptyString => 0%nat
          end
      | EmptyString => 0%nat
      end
  | EmptyString => 0%nat
  end.

Fixpoint drop_str (n : nat) (s : string) : string :=
  match n, s with
  | S n', String _ s' => drop_str n' s'
  | _, _ => s
  end.

Fixpoint take_str (n : nat) (s : string) : string :=
  match n, s with
  | S n', String c s' => String c (take_str n' s')
  | _, _ => EmptyString
  end.

Fixpoint trim_start_fuel (fuel : nat) (s : string) : string :=
  match fuel with
  | O => s
  | S fuel' =>
      match ws_len s with
      | O => s
      | n => trim_start_fuel fuel' (drop_str n s)
      end
  end.

Definition trim_start (s : string) : string :=
  trim_start_fuel (String.length s) s.

Fixpoint zeros (n : nat) : string :=
  match n with
  | O => EmptyString
  | S n' => String "0" (zeros n')
  end.

Fixpoint filter_str (keep : ascii -> bool) (s : string) : string :=
  match s with
  | EmptyString => EmptyString
  | String c s' =>
      if keep c then String c (filter_str keep s') else filter_str keep s'
  end.

Fixpoint str_forall (p : ascii -> bool) (s : string) : bool :=
  match s with
  | EmptyString => true
  | String c s' => p c && str_forall p s'
  end.

(** The characters the pattern [[^0-9.]] leaves in place. *)
Definition digit_or_dot (c : ascii) : bool := is_digit c || Ascii.eqb c ".".

(** The value of a text of decimal digits. *)
Definition digits_val (s : string) : Z := fst (fst (scan_dec s)).

Definition pretty_abs (z : Z) : string := pretty (Z.to_N (Z.abs z)).

(** ** Number to text and back *)

(** The decimal exponent of a positive rational: the [n] with
    [10^(n-1) <= q < 10^n]. *)
Fixpoint exp10_up (fuel : nat) (q : Q) (n : Z) : Z :=
  match fuel with
  | O => n
  | S fuel' =>
      if Qle_bool (10 ^ n)%Q q then exp10_up fuel' q (n + 1)%Z else n
  end.

Fixpoint exp10_down (fuel : nat) (q : Q) (n : Z) : Z :=
  match fuel with
  | O => n
  | S fuel' =>
      if Qle_bool (10 ^ (n - 1))%Q q then n else exp10_down fuel' q (n - 1)%Z
  end.

Definition exp10 (q : Q) : Z :=
  if Qle_bool 1%Q q
  then exp10_up (S (Z.to_nat (Z.log2 (Qfloor q)))) q 1
  else exp10_down (S (Pos.to_nat (Pos.size (Qden q)))) q 0.

Fixpoint strip_zeros (fuel : nat) (s : Z) : Z :=
  match fuel with
  | O => s
  | S fuel' =>
      if (s mod 10 =? 0)%Z then strip_zeros fuel' (s / 10)%Z else s
  end.

(** The [k]-digit integer [s] for which [s * 10^(n-k)] is read back as [x],
    the one nearest to [x] (the even one on a tie) when two are; [None] when
    [k] digits cannot tell [x] from its neighbours. *)
Definition digits_at (x : Q) (n k : Z) : option Z :=
  let scale := (10 ^ (n - k))%Q in
  let t := (x / scale)%Q in
  let lo := Qfloor t in
  let hi := (lo + 1)%Z in
  let reads s := num_eqb (to_binary64 (inject_Z s * scale)) (Fin x) in
  match reads lo, reads hi with
  | true, true =>
      match (t - inject_Z lo ?= 1 # 2)%Q with
      | Lt => Some lo
      | Gt => Some hi
      | Eq => Some (if Z.even lo then lo else hi)
      end
  | true, false => Some lo
  | false, true => Some hi
  | false, false => None
  end.

(** The fewest digits that read back as [x], tried from [k] on; seventeen
    digits tell any two binary64 values apart. *)
Fixpoint shortest_digits (fuel : nat) (x : Q) (n k : Z) : Z * Z :=
  match fuel with
  | O => (Qfloor (x / 10 ^ (n - k) + (1 # 2)), k)
  | S fuel' =>
      match digits_at x n k with
      | Some s => (s, k)
      | None => shortest_digits fuel' x n (k + 1)
      end
  end.

(** The significant digits Number::toString prints for a positive value,
    the fewest that read back as it, and its decimal exponent: the value
    printed is [0.d1d2...dk * 10^n]. *)
Definition sig_digits (q : Q) : string * Z :=
  let n := exp10 q in
  let '(s, k) := shortest_digits 16 q n 1 in
  (pretty_abs (strip_zeros 17 s), if (10 ^ k <=? s)%Z then (n + 1)%Z else n).

(** Number::toString of a positive finite value given by its digits [ds] and
    decimal exponent [n]. *)
Definition format_digits (ds : string) (n : Z) : string :=
  let k := Z.of_nat (String.length ds) in
  if (k <=? n)%Z && (n <=? 21)%Z then
    ds +:+ zeros (Z.to_nat (n - k))
  else if (0 <? n)%Z && (n <=? 21)%Z then
    take_str (Z.to_nat n) ds +:+ "." +:+ drop_str (Z.to_nat n) ds
  else if (-6 <? n)%Z && (n <=? 0)%Z then
    "0." +:+ zeros (Z.to_nat (- n)) +:+ ds
  else
    let e := (n - 1)%Z in
    let es := (if (e <? 0)%Z then "-" else "+") +:+ pretty_abs e in
    if (k =? 1)%Z then ds +:+ "e" +:+ es
    else take_str 1 ds +:+ "." +:+ drop_str 1 ds +:+ "e" +:+ es.

(** ToString applied to a number. *)
Definition number_to_string (x : number) : string :=
  match x with
  | NaN => "NaN"
  | Inf false => "Infinity"
  | Inf true => "-Infinity"
  | Fin q =>
      if Qzero_bool q then "0"
      else
        let '(ds, n) := sig_digits (Qabs q) in
        (if Qneg_bool q then "-" else "") +:+ format_digits ds n
  end.

(** [x.toFixed(f)] for [0 <= f <= 100]: [n / 10^f] is the decimal with [f]
    fraction digits nearest to the exact value of [x], the larger [n] on a
    tie. *)
Definition toFixed (x : number) (f : nat) : string :=
  match x with
  | Fin q =>
      let a := Qabs q in
      let sign := if Qneg_bool q then "-" else "" in
      if Qle_bool (10 ^ 21)%Q a then number_to_string x
      else
        let n := Qfloor (a * 10 ^ Z.of_nat f + (1 # 2))%Q in
        let m := pretty_abs n in
        let m :=
          match f with
          | O => m
          | _ =>
              let k := String.length m in
              let m := if (k <=? f)%nat then zeros (f + 1 - k) +:+ m else m in
              let k := String.length m in
              take_str (k - f) m +:+ "." +:+ drop_str (k - f) m
          end in
        sign +:+ m
  | _ => number_to_string x
  end.

Definition starts_with (p s : string) : bool := String.prefix p s.

(** The exponent part of a decimal literal: [e] or [E], an optional sign and
    at least one digit; [(0, s)] when [s] does not start with one. *)
Definition scan_exponent (s : string) : Z * string :=
  match s with
  | String c s1 =>
      if Ascii.eqb c "e" || Ascii.eqb c "E" then
        let '(neg, s2) :=
          match s1 with
          | String "-" s2 => (true, s2)
          | String "+" s2 => (false, s2)
          | _ => (false, s1)
          end in
        let '(e, len, rest) := scan_dec s2 in
        match len with
        | O => (0%Z, s)
        | _ => ((if neg then - e else e)%Z, rest)
        end
      else (0%Z, s)
  | EmptyString => (0%Z, s)
  end.

(** An optional sign in front of a numeric text. *)
Definition split_sign (s : string) : bool * string :=
  match s with
  | String "-" s' => (true, s')
  | String "+" s' => (false, s')
  | _ => (false, s)
  end.

(** The unsigned part of a StrDecimalLiteral at the front of [s]:
    [Infinity], or digits with an optional fraction and exponent, or a
    fraction alone; [NaN] when [s] starts with none of them.  The decimal
    read is rounded to binary64, whatever the number of its digits, as
    engines do. *)
Definition read_decimal (neg : bool) (s : string) : number :=
  if starts_with "Infinity" s then Inf neg
  else
    let '(ip, ilen, s1) := scan_dec s in
    let '(fp, flen, s2) :=
      match s1 with
      | String "." s' => scan_dec s'
      | _ => (0%Z, O, s1)
      end in
    match ilen, flen with
    | O, O => NaN
    | _, _ =>
        let '(e, _) := scan_exponent s2 in
        let mant := (inject_Z ip + inject_Z fp / 10 ^ Z.of_nat flen)%Q in
        let v := (mant * 10 ^ e)%Q in
        to_binary64 (if neg then - v else v)
    end.

(** [parseFloat] on a string: the longest prefix of the trimmed text that is
    a StrDecimalLiteral, [NaN] when there is none. *)
Definition parseFloat (input : string) : number :=
  let '(neg, s) := split_sign (trim_start input) in
  read_decimal neg s.

(** [parseInt] on a string with no radix argument: white space is trimmed, a
    sign and a [0x] prefix are recognised, and the longest digit prefix is
    read and rounded to binary64; [NaN] when that prefix is empty. *)
Definition parseInt_string (input : string) : number :=
  let '(neg, s) := split_sign (trim_start input) in
  let '(v, len, _) :=
    if starts_with "0x" s || starts_with "0X" s
    then scan_hex (drop_str 2 s)
    else scan_dec s in
  match len with
  | O => NaN
  | _ => to_binary64 (inject_Z (if neg then - v else v))
  end.

(** ** Values and exceptions *)

Inductive JsVal : Type :=
| JUndefined
| JNull
| JBool (b : bool)
| JNum (x : number)
| JStr (s : string)
| JArr (items : list JsVal)
| JObj (fields : gmap string JsVal).

Inductive exn : Type := TypeError.

Inductive result (A : Type) : Type :=
| Ok (a : A)
| Throw (e : exn).
Arguments Ok {A} a.
Arguments Throw {A} e.

#[global] Instance result_ret : MRet result := fun A a => Ok a.
#[global] Instance result_bind : MBind result := fun A B f m =>
  match m with
  | Ok a => f a
  | Throw e => Throw e
  end.

(** [typeof v === 'number'] and [Array.isArray(v)]. *)
Definition is_number (v : JsVal) : bool :=
  match v with JNum _ => true | _ => false end.
Definition is_array (v : JsVal) : bool :=
  match v with JArr _ => true | _ => false end.

(** ToBoolean: what [!v], [v ? a : b], [v || w] and [filter] test. *)
Definition to_boolean (v : JsVal) : bool :=
  match v with
  | JUndefined | JNull => false
  | JBool b => b
  | JNum x => num_truthy x
  | JStr s => negb (String.eqb s "")
  | JArr _ | JObj _ => true
  end.

(** ToString, as [String(v)] and [parseInt(v)] apply it.  An array is joined
    with commas, [null] and [undefined] elements giving the empty text.  An
    object goes through OrdinaryToPrimitive: an own [toString] shadows
    [Object.prototype.toString] and, not being callable, leaves only
    [valueOf], which yields no primitive, so the conversion throws a
    TypeError; without one the text is [[object Object]]. *)
Fixpoint to_string (v : JsVal) : result string :=
  match v with
  | JUndefined => Ok "undefined"
  | JNull => Ok "null"
  | JBool true => Ok "true"
  | JBool false => Ok "false"
  | JNum x => Ok (number_to_string x)
  | JStr s => Ok s
  | JArr items =>
      (fix join (l : list JsVal) : result string :=
         match l with
         | [] => Ok ""
         | x :: rest =>
             a ← match x with
                 | JUndefined | JNull => Ok ""
                 | _ => to_string x
                 end;
             match rest with
             | [] => Ok a
             | _ => b ← join rest; Ok (a +:+ "," +:+ b)
             end
         end) items
  | JObj fields =>
      match fields !! "toString" with
      | Some _ => Throw TypeError
      | None => Ok "[object Object]"
      end
  end.

(** [parseInt(v)]: ToString, then the string is read. *)
Definition parseInt (v : JsVal) : result number :=
  s ← to_string v; Ok (parseInt_string s).

(** The property read [v.k] for the names the engine reads ([examiner],
    [station], [date], [q1] .. [q10]): none of them is an index, [length] or
    a name of a built-in prototype, so only an object can hold one.  Reading
    a property of [null] or [undefined] throws a TypeError. *)
Definition get (v : JsVal) (k : string) : result JsVal :=
  match v with
  | JUndefined | JNull => Throw TypeError
  | JObj fields => Ok (default JUndefined (fields !! k))
  | _ => Ok JUndefined
  end.

(** The own enumerable properties the spread [{...v}] copies: none for
    [null], [undefined], a number or a boolean, the elements of an array
    under their indices, the characters of a string under theirs (here the
    bytes of the encoding; the engine never reads these entries). *)
Definition own_props (v : JsVal) : gmap string JsVal :=
  match v with
  | JObj fields => fields
  | JArr items => list_to_map (imap (fun i x => (pretty i, x)) items)
  | JStr s =>
      list_to_map
        (imap (fun i c => (pretty i, JStr (String c EmptyString)))
              (String.list_ascii_of_string s))
  | _ => ∅
  end.

(** [a === b].  Two arrays or objects are equal when they are one reference,
    which a value does not tell: the engine compares against a string or a
    number wherever the outcome is used, and there the answer is exact. *)
Definition strict_equals (a b : JsVal) : bool :=
  match a, b with
  | JUndefined, JUndefined => true
  | JNull, JNull => true
  | JBool x, JBool y => Bool.eqb x y
  | JNum x, JNum y => num_eqb x y
  | JStr x, JStr y => String.eqb x y
  | _, _ => false
  end.

(** * The engine *)

(** ** Configuration: [QUESTION_MAPPING] *)

(** The eight scored questions: the keys [Q1] .. [Q8] of [QUESTION_MAPPING]
    in insertion order, which [Object.keys] returns, and the [i = 1 .. 8] of
    the counting loops. *)
Inductive question : Type := Q1 | Q2 | Q3 | Q4 | Q5 | Q6 | Q7 | Q8.

Definition questions : list question := [Q1; Q2; Q3; Q4; Q5; Q6; Q7; Q8].

Definition question_index (k : question) : nat :=
  match k with
  | Q1 => 1 | Q2 => 2 | Q3 => 3 | Q4 => 4 | Q5 => 5 | Q6 => 6 | Q7 => 7 | Q8 => 8
  end.

(** The key [Q<i>], which is also the [`Q${i}`] of the profile, and the field
    name [q<i>]: [key.toLowerCase()], and the [`q${i}`] of the loops. *)
Definition question_key (k : question) : string :=
  match k with
  | Q1 => "Q1" | Q2 => "Q2" | Q3 => "Q3" | Q4 => "Q4"
  | Q5 => "Q5" | Q6 => "Q6" | Q7 => "Q7" | Q8 => "Q8"
  end.

Definition to_lower_char (c : ascii) : ascii :=
  let n := Ascii.N_of_ascii c in
  if (65 <=? n)%N && (n <=? 90)%N then Ascii.ascii_of_N (n + 32) else c.

Fixpoint toLowerCase (s : string) : string :=
  match s with
  | EmptyString => EmptyString
  | String c s' => String (to_lower_char c) (toLowerCase s')
  end.

Definition qId (k : question) : string := toLowerCase (question_key k).

Definition QUESTION_MAPPING (k : question) : string :=
  match k with
  | Q1 => "1. 測驗內容及其難度合宜"
  | Q2 => "2. 評核表評分項目合宜"
  | Q3 => "3. 評分說明內容清楚、合宜"
  | Q4 => "4. 試題指引內容足夠"
  | Q5 => "5. 測驗時間(8 mins)長短合宜"
  | Q6 => "6. 試場各項標示、移動路線規劃清楚、合宜"
  | Q7 => "7. 試場各項鈴聲、廣播清楚、合宜"
  | Q8 => "8. 試務運作流程順暢、試務人員紀律良好"
  end.

(** ** [parseScore] *)

Definition parseScore (val : JsVal) : result number :=
  match val with
  | JNum x => Ok x
  | _ =>
      if negb (to_boolean val) then Ok (Fin 0)
      else
        s ← to_string val;
        let parsed :=
          parseFloat (filter_str digit_or_dot s) in
        Ok (if isNaN parsed then Fin 0 else parsed)
  end.

(** ** Normalized records: the elements of [formattedData] *)

(** The object literal [{...item, station: .., q1: .., .., q8: ..}]: the
    properties spread from [item], then the nine it sets, which shadow a
    spread property of the same name. *)
Record NormalizedResponse : Type := {
  spread : gmap string JsVal;
  station : JsVal;
  q1 : number; q2 : number; q3 : number; q4 : number;
  q5 : number; q6 : number; q7 : number; q8 : number
}.

(** [item[`q${i}`]] and [item[qId]]. *)
Definition score (k : question) (item : NormalizedResponse) : number :=
  match k with
  | Q1 => q1 item | Q2 => q2 item | Q3 => q3 item | Q4 => q4 item
  | Q5 => q5 item | Q6 => q6 item | Q7 => q7 item | Q8 => q8 item
  end.

(** The property read [item.k] on a normalized record. *)
Definition prop (item : NormalizedResponse) (k : string) : JsVal :=
  if String.eqb k "station" then station item
  else
    match List.find (fun q => String.eqb k (qId q)) questions with
    | Some q => JNum (score q item)
    | None => default JUndefined (spread item !! k)
    end.

(** [parseInt(item.station) || item.station], on the value read. *)
Definition normalize_station (raw : JsVal) : result JsVal :=
  parsed ← parseInt raw;
  Ok (if num_truthy parsed then JNum parsed else raw).

Definition normalize (item : JsVal) : result NormalizedResponse :=
  raw ← get item "station";
  station ← normalize_station raw;
  q1 ← get item "q1" ≫= parseScore;
  q2 ← get item "q2" ≫= parseScore;
  q3 ← get item "q3" ≫= parseScore;
  q4 ← get item "q4" ≫= parseScore;
  q5 ← get item "q5" ≫= parseScore;
  q6 ← get item "q6" ≫= parseScore;
  q7 ← get item "q7" ≫= parseScore;
  q8 ← get item "q8" ≫= parseScore;
  Ok {| spread := own_props item; station := station;
        q1 := q1; q2 := q2; q3 := q3; q4 := q4;
        q5 := q5; q6 := q6; q7 := q7; q8 := q8 |}.

(** ** Ingestion: the [then] callback of the fetch *)

Definition rawList (jsonData : JsVal) : result JsVal :=
  examiner ← get jsonData "examiner";
  if to_boolean examiner then Ok examiner
  else Ok (if is_array jsonData then jsonData else JArr []).

(** [rawList.map(..)]: only an array has a [map] to call. *)
Definition formattedData (jsonData : JsVal) : result (list NormalizedResponse) :=
  raw ← rawList jsonData;
  match raw with
  | JArr items => mapM normalize items
  | _ => Throw TypeError
  end.

(** The component state the callbacks write. *)
Record State : Type := {
  data : list NormalizedResponse;
  loading : bool;
  error : option string;
  filterDate : string;
  filterStation : string
}.

Definition initial_state : State :=
  {| data := []; loading := true; error := None;
     filterDate := "All"; filterStation := "All" |}.

(** A response body parsed to [jsonData]: [setData]/[setLoading] when the
    callback returns, [setError]/[setLoading] from [catch] when it throws. *)
Definition on_response (jsonData : JsVal) (st : State) : State :=
  match formattedData jsonData with
  | Ok formatted =>
      {| data := formatted; loading := false; error := error st;
         filterDate := filterDate st; filterStation := filterStation st |}
  | Throw _ =>
      {| data := data st; loading := false;
         error := Some "無法讀取資料，請確認權限設定。";
         filterDate := filterDate st; filterStation := filterStation st |}
  end.

(** ** [filteredData] *)

Definition filter_pred (filterDate filterStation : string)
    (item : NormalizedResponse) : bool :=
  let dateMatch :=
    String.eqb filterDate "All"
    || strict_equals (prop item "date") (JStr filterDate) in
  let stationMatch :=
    String.eqb filterStation "All"
    || strict_equals (prop item "station")
         (if String.eqb filterStation "All" then prop item "station"
          else JNum (parseInt_string filterStation)) in
  dateMatch && stationMatch.

Definition filteredData (data : list NormalizedResponse)
    (filterDate filterStation : string) : list NormalizedResponse :=
  filter (fun item => filter_pred filterDate filterStation item) data.

(** ** [stats] *)

Record Stats : Type := {
  totalCount : nat;
  avgSatisfaction : JsVal;
  itemsToImprove : nat
}.

(** [x || 0] on a number. *)
Definition or_zero (x : number) : number :=
  if num_truthy x then x else Fin 0.

Definition stats (filteredData : list NormalizedResponse) : Stats :=
  let totalCount := length filteredData in
  if (totalCount =? 0)%nat then
    {| totalCount := 0; avgSatisfaction := JNum (Fin 0); itemsToImprove := 0 |}
  else
    let '(totalScoreSum, totalItems) :=
      fold_left
        (fun acc item =>
           fold_left
             (fun '(totalScoreSum, totalItems) i =>
                (num_add totalScoreSum (or_zero (score i item)), S totalItems))
             questions acc)
        filteredData (Fin 0, O) in
    let avgSatisfaction :=
      if (totalItems =? 0)%nat then JNum (Fin 0)
      else JStr (toFixed (num_div totalScoreSum (num_of_nat totalItems)) 1) in
    let itemsToImprove :=
      fold_left
        (fun itemsToImprove i =>
           let qSum :=
             fold_left (fun acc cur => num_add acc (or_zero (score i cur)))
                       filteredData (Fin 0) in
           let qAvg :=
             if (totalCount =? 0)%nat then Fin 0
             else num_div qSum (num_of_nat totalCount) in
           if num_ltb qAvg (Fin (7 # 2)) then S itemsToImprove
           else itemsToImprove)
        questions O in
    {| totalCount := totalCount; avgSatisfaction := avgSatisfaction;
       itemsToImprove := itemsToImprove |}.

(** ** [distributionData] *)

(** One row per question: [{name, shortName, ...counts, total}], the spread
    [counts] kept as the map from the bucket keys to their counts. *)
Record Distribution : Type := {
  name : string;
  shortName : string;
  counts : gmap string nat;
  total : nat
}.

Definition empty_counts : gmap string nat :=
  <["1" := O]> (<["2" := O]> (<["3" := O]> (<["4" := O]> (<["5" := O]> ∅)))).

(** [if (counts[score] !== undefined) counts[score]++], the property key
    being the text of the rounded score. *)
Definition count_score (counts : gmap string nat) (x : number) : gmap string nat :=
  let score := number_to_string (Math_round x) in
  match counts !! score with
  | Some c => <[score := S c]> counts
  | None => counts
  end.

Definition distributionData (filteredData : list NormalizedResponse)
    : list Distribution :=
  if (length filteredData =? 0)%nat then []
  else
    map (fun key =>
           let counts :=
             fold_left (fun counts item => count_score counts (score key item))
                       filteredData empty_counts in
           {| name := QUESTION_MAPPING key; shortName := question_key key;
              counts := counts; total := length filteredData |})
        questions.

(** ** [radarData] *)

Record RadarPoint : Type := {
  subject : string;
  A : number;
  fullMark : number
}.

Definition radarData (filteredData : list NormalizedResponse)
    : list RadarPoint :=
  if (length filteredData =? 0)%nat then []
  else
    fold_left
      (fun data i =>
         let sum :=
           fold_left (fun acc curr => num_add acc (or_zero (score i curr)))
                     filteredData (Fin 0) in
         let avg :=
           if (length filteredData =? 0)%nat then number_to_string (Fin 0)
           else toFixed (num_div sum (num_of_nat (length filteredData))) 2 in
         data ++ [{| subject := question_key i; A := parseFloat avg;
                     fullMark := Fin 5 |}])
      questions [].

(** ** [feedbackQ9] and [feedbackQ10] *)

(** [{...d, text: v}]. *)
Definition with_text (d : NormalizedResponse) (v : JsVal) : NormalizedResponse :=
  {| spread := <["text" := v]> (spread d); station := station d;
     q1 := q1 d; q2 := q2 d; q3 := q3 d; q4 := q4 d;
     q5 := q5 d; q6 := q6 d; q7 := q7 d; q8 := q8 d |}.

Definition feedback (field : string) (filteredData : list NormalizedResponse)
    : list NormalizedResponse :=
  map (fun d => with_text d (prop d field))
      (filter (fun d => to_boolean (prop d field)) filteredData).

Definition feedbackQ9 := feedback "q9".
Definition feedbackQ10 := feedback "q10".

(** * The selection lists and the rendering decisions *)

(** SameValueZero, the equality of [Set]: a primitive equals the primitives
    of the same value, [NaN] included.  An array or an object equals only
    itself; the values compared here are properties of distinct parsed
    records, hence distinct references. *)
Definition same_value_zero (a b : JsVal) : bool :=
  match a, b with
  | JUndefined, JUndefined => true
  | JNull, JNull => true
  | JBool x, JBool y => Bool.eqb x y
  | JNum NaN, JNum NaN => true
  | JNum x, JNum y => num_eqb x y
  | JStr x, JStr y => String.eqb x y
  | _, _ => false
  end.

(** [[...new Set(values)]]: the values in the order of their first
    occurrence. *)
Definition Set_spread (values : list JsVal) : list JsVal :=
  fold_left
    (fun seen v => if existsb (same_value_zero v) seen then seen else seen ++ [v])
    values [].

(** [dates]: [['All', ...new Set(data.map(d => d.date))]]. *)
Definition dates (data : list NormalizedResponse) : list JsVal :=
  JStr "All" :: Set_spread (map (fun d => prop d "date") data).

(** The dates offered under the fixed first option:
    [dates.filter(d => d !== 'All')]. *)
Definition date_options (data : list NormalizedResponse) : list JsVal :=
  filter (fun d => negb (strict_equals d (JStr "All"))) (dates data).

(** What the component returns: the error banner ([error && ..]) and one of
    three bodies ([loading ? .. : data.length === 0 && !error ? .. : ..]). *)
Inductive Screen : Type := LoadingScreen | NoDataScreen | DashboardScreen.

Definition error_truthy (st : State) : bool :=
  match error st with
  | Some msg => negb (String.eqb msg "")
  | None => false
  end.

Definition error_banner (st : State) : option string :=
  if error_truthy st then error st else None.

Definition screen (st : State) : Screen :=
  if loading st then LoadingScreen
  else if (length (data st) =? 0)%nat && negb (error_truthy st) then NoDataScreen
  else DashboardScreen.

(** ** [StackedBarRow] *)

Definition SCORE_COLOR_MAP (score : Z) : option string :=
  match score with
  | 5%Z => Some "#3b82f6"
  | 4%Z => Some "#93c5fd"
  | 3%Z => Some "#9ca3af"
  | 2%Z => Some "#fdba74"
  | 1%Z => Some "#ef4444"
  | _ => None
  end.

(** One coloured segment of the bar: its [key], the [width] and
    [backgroundColor] of its style, and its [title]. *)
Record Segment : Type := {
  key : Z;
  width : string;
  backgroundColor : option string;
  title : string
}.

(** [data[score] || 0] on a row: the bucket of that key, [0] without one. *)
Definition row_count (data : Distribution) (score : Z) : nat :=
  default O (counts data !! number_to_string (num_of_Z score)).

(** [total > 0 ? (count / total) * 100 : 0]. *)
Definition percentage (count total : nat) : number :=
  if (0 <? total)%nat
  then num_mul (num_div (num_of_nat count) (num_of_nat total)) (Fin 100)
  else Fin 0.

(** The segments of a row, from score 5 down to 1; [None] is the [null]
    returned for a segment of percentage [0]. *)
Definition StackedBarRow (label : string) (data : Distribution) (total : nat)
    : list (option Segment) :=
  map (fun score =>
         let count := row_count data score in
         let percentage := percentage count total in
         if num_eqb percentage (Fin 0) then None
         else
           Some {| key := score;
                   width := number_to_string percentage +:+ "%";
                   backgroundColor := SCORE_COLOR_MAP score;
                   title := number_to_string (num_of_Z score) +:+ "分: "
                            +:+ number_to_string (num_of_nat count) +:+ "人 ("
                            +:+ toFixed percentage 1 +:+ "%)" |})
      [5; 4; 3; 2; 1]%Z.

(** The bars the dashboard draws: one [StackedBarRow] per row of
    [distributionData], with the row's own [total]. *)
Definition stacked_bars (filteredData : list NormalizedResponse)
    : list (list (option Segment)) :=
  map (fun item => StackedBarRow (name item) item (total item))
      (distributionData filteredData).

(** * Vocabulary of the statements *)

(** An object literal, for writing inputs down. *)
Definition obj (l : list (string * JsVal)) : JsVal := JObj (list_to_map l).

(** What [JSON.parse] can return: no [undefined] and no [NaN]; a number is
    a binary64 value, or an infinity (from a literal past the largest
    value, such as [1e999]). *)
Fixpoint json (v : JsVal) : bool :=
  match v with
  | JUndefined => false
  | JNull | JBool _ | JStr _ => true
  | JNum (Fin q) => is_binary64 q
  | JNum (Inf _) => true
  | JNum NaN => false
  | JArr items => forallb json items
  | JObj fields => map_fold (fun _ x acc => json x && acc) true fields
  end.

(** The values ToString converts: every one but an object with an own
    [toString], and an array holding such an object at some depth. *)
Fixpoint has_text (v : JsVal) : bool :=
  match v with
  | JArr items =>
      forallb (fun x => has_text x) items
  | JObj fields =>
      match fields !! "toString" with
      | Some _ => false
      | None => true
      end
  | _ => true
  end.

(** [0 <= x], which [NaN] fails. *)
Definition num_nonneg (x : number) : bool :=
  match x with
  | NaN => false
  | Inf neg => negb neg
  | Fin q => Qle_bool 0 q
  end.

(** [x <= y] on numbers. *)
Definition num_leb (x y : number) : bool :=
  match x, y with
  | NaN, _ | _, NaN => false
  | Inf true, _ => true
  | _, Inf false => true
  | Inf false, _ => false
  | _, Inf true => false
  | Fin a, Fin b => Qle_bool a b
  end.

(** The finite value of a number, [0] for the others. *)
Definition Qof (x : number) : Q :=
  match x with Fin q => q | _ => 0%Q end.

(** A record none of whose eight scores is [NaN], as normalization of a
    JSON body leaves them. *)
Definition scores_not_NaN (item : NormalizedResponse) : bool :=
  forallb (fun k => negb (isNaN (score k item))) questions.

(** The eight scores of a record, [q1] first. *)
Definition scores (item : NormalizedResponse) : list number :=
  map (fun k => score k item) questions.

(** The sum of a list of numbers, from [0], left to right. *)
Definition sum_numbers (l : list number) : number :=
  fold_left num_add l (Fin 0).

(** The sum of every score of every record. *)
Definition total_score (C : list NormalizedResponse) : number :=
  sum_numbers (flat_map scores C).

(** The mean of one question over the collection. *)
Definition question_mean (k : question) (C : list NormalizedResponse) : number :=
  num_div (sum_numbers (map (score k) C)) (num_of_nat (length C)).

(** The sum of the values of a list of numbers, in exact arithmetic. *)
Definition exact_sum (l : list number) : Q :=
  fold_right (fun x acc => (Qof x + acc)%Q) 0%Q l.

(** The mean of one question over the collection, in exact arithmetic. *)
Definition exact_mean (k : question) (C : list NormalizedResponse) : Q :=
  (exact_sum (map (score k) C) / inject_Z (Z.of_nat (length C)))%Q.

(** The mean of every score of every record, in exact arithmetic. *)
Definition exact_total_mean (C : list NormalizedResponse) : Q :=
  (exact_sum (flat_map scores C) / inject_Z (Z.of_nat (length C * 8)))%Q.

(** [a < b] on rationals. *)
Definition Qlt_bool (a b : Q) : bool :=
  match (a ?= b)%Q with Lt => true | _ => false end.

(** A number strictly below a rational bound, which [NaN] is not. *)
Definition num_below (bound : Q) (x : number) : bool :=
  match x with
  | NaN => false
  | Inf neg => neg
  | Fin a => Qlt_bool a bound
  end.

(** A whole score of the scale: an integer from [0] to [5]. *)
Definition whole_in_scale (x : number) : bool :=
  match x with
  | Fin q => Qeq_bool q (inject_Z (Qfloor q)) && Qle_bool 0 q && Qle_bool q 5
  | _ => false
  end.

(** [q] rounded to [f] decimal places, a tie going away from zero. *)
Definition round_decimals (f : nat) (q : Q) : Q :=
  let n := Qfloor (Qabs q * 10 ^ Z.of_nat f + (1 # 2))%Q in
  (inject_Z (if Qneg_bool q then - n else n) / 10 ^ Z.of_nat f)%Q.

(** The records of the collection whose rounded score for a question is the
    integer [b]. *)
Definition bucket (k : question) (C : list NormalizedResponse) (b : Z) : nat :=
  length (filter (fun item => num_eqb (Math_round (score k item)) (num_of_Z b)) C).

(** The count a row holds for bucket [b], [0] when the key is absent. *)
Definition bucket_count (row : Distribution) (b : Z) : nat :=
  default O (counts row !! pretty b).


(** The digits [toFixed] lays out for the scaled integer [n]: padded with
    zeros to more than [f] digits, a dot before the last [f] of them. *)
Definition fixed_digits (n : Z) (f : nat) : string :=
  let m := pretty_abs n in
  match f with
  | O => m
  | _ =>
      let k := String.length m in
      let m := if (k <=? f)%nat then zeros (f + 1 - k) +:+ m else m in
      let k := String.length m in
      take_str (k - f) m +:+ "." +:+ drop_str (k - f) m
  end.


(** A score within the scale's bounds: [0 <= x <= 5]. *)
Definition in_range (x : number) : bool :=
  num_leb (Fin 0) x && num_leb x (Fin 5).

(** A bucket map in step with a counting function: the five keys [1] .. [5]
    hold its values, and there is no other key. *)
Definition is_hist (counts : gmap string nat) (f : Z -> nat) : Prop :=
  (forall b : Z, (1 <= b <= 5)%Z -> counts !! pretty b = Some (f b))
  /\ (forall key : string, is_Some (counts !! key) ->
        exists b : Z, (1 <= b <= 5)%Z /\ key = pretty b).

(** The names [normalize] reads on an item. *)
Definition normalized_fields : list string :=
  "station" :: map qId questions.

(** The row [distributionData] builds for one question. *)
Definition distribution_row (C : list NormalizedResponse) (k : question)
    : Distribution :=
  {| name := QUESTION_MAPPING k; shortName := question_key k;
     counts := fold_left (fun counts item => count_score counts (score k item))
                         C empty_counts;
     total := length C |}.

(** A record whose rounded score for a question is one of the five
    buckets. *)
Definition in_buckets (k : question) (item : NormalizedResponse) : bool :=
  existsb (fun b => num_eqb (Math_round (score k item)) (num_of_Z b))
          [1; 2; 3; 4; 5]%Z.

(** A text with no decimal digit and no dot. *)
Definition no_digit_or_dot (s : string) : bool :=
  str_forall (fun c => negb (digit_or_dot c)) s.


(** * Sample inputs *)

Definition station_3 : JsVal := obj [("station", JStr "3"); ("date", JStr "D1")].
Definition station_ER : JsVal := obj [("station", JStr "ER"); ("date", JStr "D1")].
Definition station_zero : JsVal := obj [("station", JStr "0")].
Definition own_toString : JsVal := obj [("toString", JNull)].

(** Two responses of one day, the second with a score written as text. *)
Definition sample_body : JsVal :=
  JArr [
    obj [("date", JStr "D1"); ("station", JStr "1"); ("examiner", JStr "A");
         ("q1", JNum (Fin 5)); ("q2", JNum (Fin 1)); ("q3", JNum (Fin 4));
         ("q4", JNum (Fin 4)); ("q5", JNum (Fin 2)); ("q6", JNum (Fin 5));
         ("q7", JNum (Fin 4)); ("q8", JNum (Fin 3));
         ("q9", JStr "clear process"); ("q10", JStr "")];
    obj [("date", JStr "D1"); ("station", JNum (Fin 2)); ("examiner", JStr "B");
         ("q1", JStr "3分"); ("q2", JNum (Fin 5)); ("q3", JNum (Fin 4));
         ("q4", JNum (Fin (5 # 2))); ("q5", JNum (Fin 3)); ("q6", JNum (Fin 5));
         ("q7", JNull); ("q8", JNum (Fin 1));
         ("q10", JStr "more time")]
  ].

Definition sample_data : list NormalizedResponse :=
  match formattedData sample_body with
  | Ok formatted => formatted
  | Throw _ => []
  end.

(** A response of eight whole scores, [q1] first. *)
Definition whole_response (a b c d e f g h : Z) : JsVal :=
  obj [("q1", JNum (num_of_Z a)); ("q2", JNum (num_of_Z b));
       ("q3", JNum (num_of_Z c)); ("q4", JNum (num_of_Z d));
       ("q5", JNum (num_of_Z e)); ("q6", JNum (num_of_Z f));
       ("q7", JNum (num_of_Z g)); ("q8", JNum (num_of_Z h))].

(** Five responses whose forty scores add up to [174]: their mean is
    [4.35], half way between [4.3] and [4.4]. *)
Definition tie_body : JsVal :=
  JArr [whole_response 5 5 5 5 5 5 5 3; whole_response 5 5 5 5 5 5 5 3;
        whole_response 5 5 5 4 4 4 4 3; whole_response 4 4 4 4 4 4 4 4;
        whole_response 4 4 4 4 4 4 4 4].

Definition tie_data : list NormalizedResponse :=
  match formattedData tie_body with
  | Ok formatted => formatted
  | Throw _ => []
  end.

(** Forty responses whose first scores add up to [179]: their mean is
    [4.475], half way between [4.47] and [4.48]. *)
Definition tie40_body : JsVal :=
  JArr (replicate 19 (obj [("q1", JNum (Fin 5))])
        ++ replicate 21 (obj [("q1", JNum (Fin 4))])).

Definition tie40_data : list NormalizedResponse :=
  match formattedData tie40_body with
  | Ok formatted => formatted
  | Throw _ => []
  end.

(** A response whose first score is [Infinity], as [JSON.parse] reads the
    literal [1e999]. *)
Definition overflow_body : JsVal := JArr [obj [("q1", JNum (Inf false))]].

Definition overflow_data : list NormalizedResponse :=
  match formattedData overflow_body with
  | Ok formatted => formatted
  | Throw _ => []
  end.

(** A response whose first score is above the scale. *)
Definition above_scale_body : JsVal := JArr [obj [("q1", JNum (Fin 7))]].

Definition above_scale_data : list NormalizedResponse :=
  match formattedData above_scale_body with
  | Ok formatted => formatted
  | Throw _ => []
  end.

(** One response with a comment for the first open question only. *)
Definition comment_body : JsVal :=
  JArr [obj [("q9", JStr "clear process"); ("station", JNum (Fin 3));
             ("date", JStr "2024-05-01"); ("examiner", JStr "E1")]].

Definition comment_data : list NormalizedResponse :=
  match formattedData comment_body with
  | Ok formatted => formatted
  | Throw _ => []
  end.
(** * Evaluation checks

    The conversions of the JavaScript layer, on values binary64 holds
    exactly and on values it rounds. *)

Example to_binary64_ex :
  [to_binary64 (5 # 2); to_binary64 (2 ^ 53 + 1); to_binary64 (- (2 ^ 53) - 1);
   to_binary64 (10 ^ 309); to_binary64 (1 # 10 ^ 400); to_binary64 (174 # 40)]
  = [Fin (5 # 2); Fin (2 ^ 53); Fin (- (2 ^ 53)); Inf false; Fin 0;
     Fin (2448832297382707 # 2 ^ 49)]
  ∧ map is_binary64 [5 # 2; 1 # 10; 2 ^ 53 + 1; 2 ^ 53 + 2]
    = [true; false; false; true].
Proof. split; vm_compute; reflexivity. Qed.

Example number_to_string_ex :
  map number_to_string
    [Fin 3; to_binary64 (37 # 10); Fin (-(5 # 2)); Fin (1 # 8);
     Fin (10 ^ 21); to_binary64 (1 # 10000000); Fin 120;
     to_binary64 (1 # 1000000); to_binary64 (123456789 # 100);
     num_add (to_binary64 (1 # 10)) (to_binary64 (2 # 10));
     num_div (Fin 1) (Fin 3); num_mul (num_div (Fin 1) (Fin 3)) (Fin 100);
     num_div (Fin 100) (Fin 3); to_binary64 (10 ^ 23);
     to_binary64 (2 ^ 53 + 1)]
  = ["3"; "3.7"; "-2.5"; "0.125";
     "1e+21"; "1e-7"; "120"; "0.000001"; "1234567.89";
     "0.30000000000000004"; "0.3333333333333333"; "33.33333333333333";
     "33.333333333333336"; "1e+23"; "9007199254740992"].
Proof. vm_compute. reflexivity. Qed.

Example toFixed_ex :
  [toFixed (Fin (7 # 2)) 1; toFixed (Fin (1 # 4)) 1; toFixed (Fin 4) 1;
   toFixed (to_binary64 (-(1 # 100))) 1; toFixed (num_div (Fin 1) (Fin 3)) 2;
   toFixed (Fin (-(5 # 2))) 0; toFixed (Fin (99 # 8)) 2;
   toFixed (to_binary64 (1005 # 1000)) 2; toFixed (num_div (Fin 174) (Fin 40)) 1]
  = ["3.5"; "0.3"; "4.0"; "-0.0"; "0.33"; "-3"; "12.38"; "1.00"; "4.3"].
Proof. vm_compute. reflexivity. Qed.

Example parseFloat_ex :
  map parseFloat ["4"; "3.7"; ""; "."; ".5"; "5."; "1.2.3"; "  -2.50x";
                  "1e3"; "1e"; "12e-1"; "abc"; "-Infinity"; "0.33";
                  "9007199254740993"; "1e999"]
  = [Fin 4; to_binary64 (37 # 10); NaN; NaN; Fin (1 # 2); Fin 5;
     to_binary64 (6 # 5); Fin (-(5 # 2)); Fin 1000; Fin 1;
     to_binary64 (6 # 5); NaN; Inf true; to_binary64 (33 # 100);
     Fin (2 ^ 53); Inf false].
Proof. vm_compute. reflexivity. Qed.

Example parseInt_ex :
  map parseInt_string ["3"; "3A"; "0"; "ER"; " 12px"; "-7"; "0x1A"; "";
                       "3.9"; "1e+21"; "9007199254740993"]
  = [Fin 3; Fin 3; Fin 0; NaN; Fin 12; Fin (-7); Fin 26; NaN; Fin 3; Fin 1;
     Fin (2 ^ 53)].
Proof. vm_compute. reflexivity. Qed.

Example parseScore_ex :
  map parseScore
    [JNull; JUndefined; JStr ""; JStr "4分"; JNum (to_binary64 (37 # 10));
     JStr "abc"; JStr "-3"; JBool true; JArr [JNum (Fin (9 # 2))];
     obj [("a", JNull)]; JStr "3.7"; JArr [JNum (to_binary64 (37 # 10))]]
  = [Ok (Fin 0); Ok (Fin 0); Ok (Fin 0); Ok (Fin 4); Ok (to_binary64 (37 # 10));
     Ok (Fin 0); Ok (Fin 3); Ok (Fin 0); Ok (Fin (9 # 2)); Ok (Fin 0);
     Ok (to_binary64 (37 # 10)); Ok (to_binary64 (37 # 10))].
Proof. vm_compute. reflexivity. Qed.

Example normalize_station_ex :
  map normalize_station
    [JStr "1"; JNum (Fin 2); JStr "0"; JStr "3A"; JStr "ER"; JUndefined]
  = [Ok (JNum (Fin 1)); Ok (JNum (Fin 2)); Ok (JStr "0"); Ok (JNum (Fin 3));
     Ok (JStr "ER"); Ok JUndefined].
Proof. vm_compute. reflexivity. Qed.

(** The sample of two responses, filtered by its day. *)
Example sample_filtered :
  formattedData sample_body = Ok sample_data
  ∧ filteredData sample_data "D1" "All" = sample_data
  ∧ filteredData sample_data "D2" "All" = []
  ∧ length (filteredData sample_data "All" "2") = 1%nat.
Proof. repeat split; vm_compute; reflexivity. Qed.

Example sample_stats :
  stats sample_data
  = {| totalCount := 2; avgSatisfaction := JStr "3.2"; itemsToImprove := 5 |}.
Proof. vm_compute. reflexivity. Qed.

(** An infinite score makes the mean infinite; it is in no bucket. *)
Example overflow_stats :
  json overflow_body = true
  ∧ stats overflow_data
    = {| totalCount := 1; avgSatisfaction := JStr "Infinity";
         itemsToImprove := 7 |}
  ∧ map A (radarData overflow_data)
    = [Inf false; Fin 0; Fin 0; Fin 0; Fin 0; Fin 0; Fin 0; Fin 0]
  ∧ map (fun row => map (bucket_count row) [1; 2; 3; 4; 5]%Z)
        (take 1 (distributionData overflow_data))
    = [[0; 0; 0; 0; 0]]%nat.
Proof. repeat split; vm_compute; reflexivity. Qed.

(** The widths of a bar are rounded one by one: a third, a sixth and five
    sixths of the responses. *)
Example percentage_ex :
  map (fun '(c, n) => number_to_string (percentage c n))
      [(1, 3); (1, 6); (5, 6); (0, 6); (2, 0)]%nat
  = ["33.33333333333333"; "16.666666666666664"; "83.33333333333334"; "0"; "0"]
  ∧ (100 < Qof (percentage 1 6) + Qof (percentage 5 6))%Q.
Proof. split; vm_compute; reflexivity. Qed.

(** The seventh question has one score of [0], which is in no bucket. *)
Example sample_distribution :
  map (fun row => (shortName row, map (bucket_count row) [1; 2; 3; 4; 5]%Z,
                   total row))
      (distributionData sample_data)
  = [("Q1", [0; 0; 1; 0; 1], 2); ("Q2", [1; 0; 0; 0; 1], 2);
     ("Q3", [0; 0; 0; 2; 0], 2); ("Q4", [0; 0; 1; 1; 0], 2);
     ("Q5", [0; 1; 1; 0; 0], 2); ("Q6", [0; 0; 0; 0; 2], 2);
     ("Q7", [0; 0; 0; 1; 0], 2); ("Q8", [1; 0; 1; 0; 0], 2)]%nat.
Proof. vm_compute. reflexivity. Qed.

Example comment_feedback :
  map (fun e => (prop e "text", prop e "examiner", prop e "station",
                 prop e "date"))
      (feedbackQ9 comment_data)
  = [(JStr "clear process", JStr "E1", JNum (Fin 3), JStr "2024-05-01")]
  ∧ feedbackQ10 comment_data = [].
Proof. split; vm_compute; reflexivity. Qed.

Example qId_ex : map qId questions = ["q1"; "q2"; "q3"; "q4"; "q5"; "q6"; "q7"; "q8"].
Proof. reflexivity. Qed.
(** * Rounding to binary64 *)

Section Binary64.
Implicit Types (q x v M : Q) (z k e j p : Z).

Lemma pow2_pos z : (0 < 2 ^ z)%Q.
Proof. by apply Qpower_0_lt. Qed.

Lemma pow2_ne z : ¬ (2 ^ z == 0)%Q.
Proof. intros E. pose proof (pow2_pos z) as H. rewrite E in H. by apply Qlt_irrefl in H. Qed.

Lemma pow2_le a b : (a ≤ b)%Z → (2 ^ a <= 2 ^ b)%Q.
Proof. intros H. by apply Qpower_le_compat_l. Qed.

Lemma pow2_lt a b : (a < b)%Z → (2 ^ a < 2 ^ b)%Q.
Proof. intros H. by apply Qpower_lt_compat_l. Qed.

Lemma pow2_lt_inv a b : (2 ^ a < 2 ^ b)%Q → (a < b)%Z.
Proof. intros H. by apply (Qpower_lt_compat_l_inv 2). Qed.

Lemma pow2_plus a b : (2 ^ (a + b) == 2 ^ a * 2 ^ b)%Q.
Proof. by apply Qpower_plus. Qed.

Lemma pow2_inject (n : Z) : (0 ≤ n)%Z → (inject_Z (2 ^ n) == 2 ^ n)%Q.
Proof. intros H. by rewrite Zpower_Qpower. Qed.

Lemma pow2_div a b : (2 ^ a / 2 ^ b == 2 ^ (a - b))%Q.
Proof. by rewrite Qpower_minus. Qed.

Lemma Qlog2_spec q :
  (0 < q)%Q → (2 ^ Qlog2 q <= q)%Q ∧ (q < 2 ^ (Qlog2 q + 1))%Q.
Proof.
intros Hq. destruct q as [n d].
assert (0 < n)%Z as Hn by (unfold Qlt in Hq; simpl in Hq; lia).
unfold Qlog2. cbn [Qnum Qden].
set (ln := Z.log2 n). set (ld := Z.log2 (Z.pos d)).
pose proof (Z.log2_spec n Hn) as [Hn1 Hn2].
pose proof (Z.log2_spec (Z.pos d) ltac:(lia)) as [Hd1 Hd2].
fold ln in Hn1, Hn2. fold ld in Hd1, Hd2.
assert (0 ≤ ln)%Z as Hln by apply Z.log2_nonneg.
assert (0 ≤ ld)%Z as Hld by apply Z.log2_nonneg.
rewrite <-Z.add_1_r in Hn2, Hd2.
assert (2 ^ ln <= inject_Z n)%Q as Qn1.
{ rewrite <-pow2_inject by done. by rewrite <-Zle_Qle. }
assert (inject_Z n < 2 ^ (ln + 1))%Q as Qn2.
{ rewrite <-pow2_inject by lia. by rewrite <-Zlt_Qlt. }
assert (2 ^ ld <= inject_Z (Z.pos d))%Q as Qd1.
{ rewrite <-pow2_inject by done. by rewrite <-Zle_Qle. }
assert (inject_Z (Z.pos d) < 2 ^ (ld + 1))%Q as Qd2.
{ rewrite <-pow2_inject by lia. by rewrite <-Zlt_Qlt. }
assert (0 < inject_Z (Z.pos d))%Q as Hdpos by done.
assert (n # d == inject_Z n / inject_Z (Z.pos d))%Q as Hq' by apply Qmake_Qdiv.
destruct (Qle_bool (2 ^ (ln - ld)) (n # d)) eqn:E.
- apply Qle_bool_iff in E. split; [done|].
  rewrite Hq'. apply Qlt_shift_div_r; [done|].
  replace (ln - ld + 1)%Z with ((ln + 1) + - ld)%Z by lia.
  rewrite pow2_plus, Qpower_opp.
  apply (Qlt_le_trans _ _ _ Qn2).
  rewrite <-Qmult_assoc. rewrite <-(Qmult_1_r (2 ^ (ln + 1))) at 1.
  apply Qmult_le_l; [apply pow2_pos|].
  apply (Qmult_le_l _ _ (2 ^ ld)); [apply pow2_pos|].
  rewrite Qmult_assoc, Qmult_inv_r, Qmult_1_r, Qmult_1_l by apply pow2_ne.
  done.
- assert (n # d < 2 ^ (ln - ld))%Q as E'.
  { apply Qnot_le_lt. intros H. apply Qle_bool_iff in H. congruence. }
  replace (ln - ld - 1 + 1)%Z with (ln - ld)%Z by lia. split; [|done].
  rewrite Hq'. apply Qle_shift_div_l; [done|].
  replace (ln - ld - 1)%Z with (ln + - (ld + 1))%Z by lia.
  rewrite pow2_plus, Qpower_opp.
  apply (Qle_trans _ (2 ^ ln)); [|done].
  rewrite <-Qmult_assoc. rewrite <-(Qmult_1_r (2 ^ ln)) at 2.
  apply Qmult_le_l; [apply pow2_pos|].
  apply (Qmult_le_l _ _ (2 ^ (ld + 1))); [apply pow2_pos|].
  rewrite Qmult_assoc, Qmult_inv_r, Qmult_1_r, Qmult_1_l by apply pow2_ne.
  by apply Qlt_le_weak.
Qed.


Lemma Qlog2_le q p : (0 < q)%Q → (q < 2 ^ (p + 1))%Q → (Qlog2 q ≤ p)%Z.
Proof.
intros Hq Hp. destruct (Qlog2_spec q Hq) as [H1 _].
assert (2 ^ Qlog2 q < 2 ^ (p + 1))%Q as H by (by eapply Qle_lt_trans).
apply pow2_lt_inv in H. lia.
Qed.

Lemma Qlog2_ge q p : (2 ^ p <= q)%Q → (p ≤ Qlog2 q)%Z.
Proof.
intros Hp.
assert (0 < q)%Q as Hq by (eapply Qlt_le_trans; [apply pow2_pos|done]).
destruct (Qlog2_spec q Hq) as [_ H2].
assert (2 ^ p < 2 ^ (Qlog2 q + 1))%Q as H by (by eapply Qle_lt_trans).
apply pow2_lt_inv in H. lia.
Qed.

Lemma Qlog2_proper q q' : (0 < q)%Q → (q == q')%Q → Qlog2 q = Qlog2 q'.
Proof.
intros Hq E. assert (0 < q')%Q as Hq' by (by rewrite <-E).
destruct (Qlog2_spec q Hq) as [H1 H2]. destruct (Qlog2_spec q' Hq') as [H1' H2'].
assert (2 ^ Qlog2 q <= q')%Q as G1 by (rewrite <-E; exact H1).
assert (q' < 2 ^ (Qlog2 q + 1))%Q as G2 by (rewrite <-E; exact H2).
pose proof (Qlog2_le q' (Qlog2 q) Hq' G2).
pose proof (Qlog2_ge q' (Qlog2 q) G1).
pose proof (Qlog2_le q (Qlog2 q') Hq ltac:(rewrite E; exact H2')).
lia.
Qed.

(** Rounding to the nearest integer. *)
Lemma round_half_even_near q :
  (q - (1 # 2) <= inject_Z (round_half_even q))%Q
  ∧ (inject_Z (round_half_even q) <= q + (1 # 2))%Q.
Proof.
unfold round_half_even.
pose proof (Qfloor_le q) as Hlo. pose proof (Qlt_floor q) as Hhi.
rewrite inject_Z_plus in Hhi. change (inject_Z 1) with 1%Q in Hhi.
destruct (Qcompare_spec (q - inject_Z (Qfloor q)) (1 # 2)) as [E|E|E].
- destruct (Z.even (Qfloor q)).
  + split; lra.
  + rewrite inject_Z_plus. change (inject_Z 1) with 1%Q. split; lra.
- split; lra.
- rewrite inject_Z_plus. change (inject_Z 1) with 1%Q. split; lra.
Qed.

Lemma round_half_even_le q z :
  (q <= inject_Z z)%Q → (round_half_even q ≤ z)%Z.
Proof.
intros H. destruct (round_half_even_near q) as [_ Hn].
assert (inject_Z (round_half_even q) < inject_Z (z + 1))%Q as Hlt.
{ rewrite inject_Z_plus. change (inject_Z 1) with 1%Q. lra. }
rewrite <-Zlt_Qlt in Hlt. lia.
Qed.

Lemma round_half_even_ge q z :
  (inject_Z z <= q)%Q → (z ≤ round_half_even q)%Z.
Proof.
intros H. destruct (round_half_even_near q) as [Hn _].
assert (inject_Z z < inject_Z (round_half_even q + 1))%Q as Hlt.
{ rewrite inject_Z_plus. change (inject_Z 1) with 1%Q. lra. }
rewrite <-Zlt_Qlt in Hlt. lia.
Qed.

Lemma round_half_even_Z z : round_half_even (inject_Z z) = z.
Proof.
pose proof (round_half_even_le (inject_Z z) z ltac:(apply Qle_refl)).
pose proof (round_half_even_ge (inject_Z z) z ltac:(apply Qle_refl)). lia.
Qed.

Lemma round_half_even_proper q q' :
  (q == q')%Q → round_half_even q = round_half_even q'.
Proof.
intros E. unfold round_half_even.
assert (Qfloor q = Qfloor q') as -> by (by rewrite E).
assert ((q - inject_Z (Qfloor q') ?= 1 # 2)%Q
        = (q' - inject_Z (Qfloor q') ?= 1 # 2)%Q) as ->; [|done].
by rewrite E.
Qed.

Lemma ulp_exp_proper q q' : (0 < q)%Q → (q == q')%Q → ulp_exp q = ulp_exp q'.
Proof. intros Hq E. unfold ulp_exp. by rewrite (Qlog2_proper q q'). Qed.

Lemma ulp_exp_le q p :
  (0 < q)%Q → (q < 2 ^ (p + 1))%Q → (ulp_exp q ≤ Z.max (p - 52) (-1074))%Z.
Proof. intros Hq Hp. unfold ulp_exp. pose proof (Qlog2_le q p Hq Hp). lia. Qed.

Lemma Qzero_bool_false q : ¬ (q == 0)%Q → Qzero_bool q = false.
Proof.
intros H. unfold Qzero_bool. destruct (Qeq_bool q 0) eqn:E; [|done].
by apply Qeq_bool_iff in E.
Qed.

Lemma Qneg_bool_pos q : (0 <= q)%Q → Qneg_bool q = false.
Proof. intros H. unfold Qneg_bool. apply negb_false_iff. by apply Qle_bool_iff. Qed.

Lemma Qle_bool_false x y : Qle_bool x y = false ↔ (y < x)%Q.
Proof.
split.
- intros H. apply Qnot_le_lt. intros Hle. apply Qle_bool_iff in Hle. congruence.
- intros H. destruct (Qle_bool x y) eqn:E; [|done].
  apply Qle_bool_iff in E. by apply Qlt_not_le in H.
Qed.

Lemma Qneg_bool_true q : Qneg_bool q = true ↔ (q < 0)%Q.
Proof. unfold Qneg_bool. rewrite negb_true_iff. apply Qle_bool_false. Qed.

Lemma Qneg_bool_false q : Qneg_bool q = false ↔ (0 <= q)%Q.
Proof. unfold Qneg_bool. rewrite negb_false_iff. apply Qle_bool_iff. Qed.

Lemma Qle_bool_proper a b c d :
  (a == c)%Q → (b == d)%Q → Qle_bool a b = Qle_bool c d.
Proof.
intros E1 E2. destruct (Qle_bool c d) eqn:E.
- apply Qle_bool_iff. apply Qle_bool_iff in E. by rewrite E1, E2.
- apply Qle_bool_false. apply Qle_bool_false in E. by rewrite E1, E2.
Qed.

Lemma rounded_proper q q' : (0 < q)%Q → (q == q')%Q → (rounded q == rounded q')%Q.
Proof.
intros Hq E. unfold rounded. rewrite (ulp_exp_proper q q' Hq E).
rewrite (round_half_even_proper (q / 2 ^ ulp_exp q') (q' / 2 ^ ulp_exp q'));
  [done|by rewrite E].
Qed.

Lemma to_binary64_pos q :
  (0 < q)%Q →
  to_binary64 q
  = if Qle_bool (2 ^ 1024) (rounded q) then Inf false else Fin (Qred (rounded q)).
Proof.
intros Hq. unfold to_binary64.
rewrite Qzero_bool_false by (intros E; rewrite E in Hq; by apply Qlt_irrefl in Hq).
rewrite Qneg_bool_pos by (by apply Qlt_le_weak).
assert (Qabs q == q)%Q as Ha by (apply Qabs_pos; by apply Qlt_le_weak).
assert (0 < Qabs q)%Q as Hpos by (by rewrite Ha).
pose proof (rounded_proper (Qabs q) q Hpos Ha) as Er.
cbv zeta.
rewrite (Qle_bool_proper _ (rounded (Qabs q)) _ (rounded q) (Qeq_refl _) Er).
by rewrite (Qred_complete _ _ Er).
Qed.

Lemma rounded_near q :
  (q - 2 ^ (ulp_exp q - 1) <= rounded q)%Q ∧ (rounded q <= q + 2 ^ (ulp_exp q - 1))%Q.
Proof.
unfold rounded. set (e := ulp_exp q).
pose proof (pow2_pos e) as He.
destruct (round_half_even_near (q / 2 ^ e)) as [H1 H2].
assert (2 ^ (e - 1) == (1 # 2) * 2 ^ e)%Q as ->.
{ unfold Z.sub. rewrite pow2_plus. change (2 ^ (-1))%Q with (1 # 2).
  apply Qmult_comm. }
pose proof (pow2_ne e) as Hne.
set (t := (2 ^ e)%Q) in *.
assert (q == q / t * t)%Q as Hq by (by field).
split.
- apply (Qmult_le_compat_r _ _ t) in H1; [|lra]. lra.
- apply (Qmult_le_compat_r _ _ t) in H2; [|lra]. lra.
Qed.

(** A bound that is a multiple of the unit in the last place is kept. *)
Lemma rounded_le q z :
  (q <= inject_Z z * 2 ^ ulp_exp q)%Q → (rounded q <= inject_Z z * 2 ^ ulp_exp q)%Q.
Proof.
intros H. unfold rounded. set (e := ulp_exp q) in *.
pose proof (pow2_pos e) as He.
apply Qmult_le_compat_r; [|lra].
rewrite <-Zle_Qle. apply round_half_even_le.
apply Qle_shift_div_r; [done|]. done.
Qed.

Lemma rounded_ge q z :
  (inject_Z z * 2 ^ ulp_exp q <= q)%Q → (inject_Z z * 2 ^ ulp_exp q <= rounded q)%Q.
Proof.
intros H. unfold rounded. set (e := ulp_exp q) in *.
pose proof (pow2_pos e) as He.
apply Qmult_le_compat_r; [|lra].
rewrite <-Zle_Qle. apply round_half_even_ge.
apply Qle_shift_div_l; [done|]. done.
Qed.

(** At least a full significand: the rounded value stays in its binade. *)
Lemma rounded_binade q :
  (0 < q)%Q → (-1074 < ulp_exp q)%Z → (2 ^ (ulp_exp q + 52) <= rounded q)%Q.
Proof.
intros Hq He.
assert (ulp_exp q = Qlog2 q - 52)%Z as Hu by (unfold ulp_exp in *; lia).
destruct (Qlog2_spec q Hq) as [H1 _].
replace (ulp_exp q + 52)%Z with (52 + ulp_exp q)%Z by lia.
rewrite pow2_plus, <-(pow2_inject 52) by lia.
apply rounded_ge. rewrite pow2_inject, <-pow2_plus by lia.
by replace (52 + ulp_exp q)%Z with (Qlog2 q) by lia.
Qed.

(** A dyadic number [k * 2^j] as a multiple of a finer unit. *)
Lemma dyadic_multiple k j e :
  (e ≤ j)%Z →
  (inject_Z k * 2 ^ j == inject_Z (k * 2 ^ (j - e)) * 2 ^ e)%Q.
Proof.
intros H. rewrite inject_Z_mult, pow2_inject by lia.
replace j with ((j - e) + e)%Z at 1 by lia. rewrite pow2_plus.
apply Qmult_assoc.
Qed.

Lemma rounded_le_dyadic q k j :
  (0 < q)%Q → (k ≤ 2 ^ 53)%Z → (-1074 ≤ j)%Z → (q <= inject_Z k * 2 ^ j)%Q →
  (rounded q <= inject_Z k * 2 ^ j)%Q.
Proof.
intros Hq Hk Hj Hle.
destruct (Z_le_gt_dec (ulp_exp q) j) as [He|He].
- rewrite (dyadic_multiple k j (ulp_exp q) He) in *. by apply rounded_le.
- assert (ulp_exp q = Qlog2 q - 52)%Z as Hu by (unfold ulp_exp in *; lia).
  destruct (Qlog2_spec q Hq) as [H1 _].
  assert (inject_Z k * 2 ^ j <= 2 ^ (53 + j))%Q as Hk'.
  { rewrite pow2_plus. apply Qmult_le_compat_r; [|apply Qlt_le_weak, pow2_pos].
    rewrite <-pow2_inject by lia. by rewrite <-Zle_Qle. }
  assert (2 ^ (53 + j) <= 2 ^ Qlog2 q)%Q as Hp by (apply pow2_le; lia).
  assert (q == 2 ^ Qlog2 q)%Q as Eq by (apply Qle_antisym; lra).
  assert (inject_Z k * 2 ^ j == q)%Q as EM by (apply Qle_antisym; lra).
  assert (inject_Z (2 ^ 52) * 2 ^ ulp_exp q == 2 ^ Qlog2 q)%Q as E52.
  { rewrite pow2_inject, <-pow2_plus by lia.
    by replace (52 + ulp_exp q)%Z with (Qlog2 q) by lia. }
  apply (Qle_trans _ (inject_Z (2 ^ 52) * 2 ^ ulp_exp q)).
  + apply rounded_le. rewrite E52. lra.
  + rewrite E52. lra.
Qed.

Lemma rounded_ge_dyadic q k j :
  (0 < q)%Q → (k ≤ 2 ^ 53)%Z → (-1074 ≤ j)%Z → (inject_Z k * 2 ^ j <= q)%Q →
  (inject_Z k * 2 ^ j <= rounded q)%Q.
Proof.
intros Hq Hk Hj Hle.
destruct (Z_le_gt_dec (ulp_exp q) j) as [He|He].
- rewrite (dyadic_multiple k j (ulp_exp q) He) in *. by apply rounded_ge.
- pose proof (rounded_binade q Hq ltac:(lia)) as Hb.
  assert (inject_Z k * 2 ^ j <= 2 ^ (53 + j))%Q as Hk'.
  { rewrite pow2_plus. apply Qmult_le_compat_r; [|apply Qlt_le_weak, pow2_pos].
    rewrite <-pow2_inject by lia. by rewrite <-Zle_Qle. }
  assert (2 ^ (53 + j) <= 2 ^ (ulp_exp q + 52))%Q as Hp by (apply pow2_le; lia).
  lra.
Qed.


Lemma rounded_nonneg q : (0 < q)%Q → (0 <= rounded q)%Q.
Proof.
intros Hq. pose proof (rounded_ge q 0) as H.
change (inject_Z 0) with 0%Q in H. rewrite Qmult_0_l in H.
apply H. by apply Qlt_le_weak.
Qed.

Lemma to_binary64_zero q : (q == 0)%Q → to_binary64 q = Fin 0.
Proof.
intros E. unfold to_binary64, Qzero_bool.
by replace (Qeq_bool q 0) with true by (symmetry; by apply Qeq_bool_iff).
Qed.

Lemma to_binary64_neg q :
  (q < 0)%Q →
  to_binary64 q
  = if Qle_bool (2 ^ 1024) (rounded (- q)) then Inf true
    else Fin (Qred (- rounded (- q))).
Proof.
intros Hq. unfold to_binary64.
rewrite Qzero_bool_false by (intros E; rewrite E in Hq; by apply Qlt_irrefl in Hq).
replace (Qneg_bool q) with true by (symmetry; by apply Qneg_bool_true).
assert (Qabs q == - q)%Q as Ha by (apply Qabs_neg; by apply Qlt_le_weak).
assert (0 < Qabs q)%Q as Hpos by (rewrite Ha; lra).
pose proof (rounded_proper (Qabs q) (- q) Hpos Ha) as Er.
cbv zeta.
rewrite (Qle_bool_proper _ (rounded (Qabs q)) _ (rounded (- q)) (Qeq_refl _) Er).
assert (- rounded (Qabs q) == - rounded (- q))%Q as Er' by (by rewrite Er).
by rewrite (Qred_complete _ _ Er').
Qed.

(** The rounding reads its argument as a rational: equal rationals give
    the same number, written in lowest terms. *)
Lemma to_binary64_proper q q' : (q == q')%Q → to_binary64 q = to_binary64 q'.
Proof.
intros E.
destruct (Qlt_le_dec 0 q) as [Hpos|Hle].
- assert (0 < q')%Q as Hpos' by (by rewrite <-E).
  rewrite !to_binary64_pos by done.
  pose proof (rounded_proper q q' Hpos E) as Er.
  rewrite (Qle_bool_proper _ (rounded q) _ (rounded q') (Qeq_refl _) Er).
  by rewrite (Qred_complete _ _ Er).
- destruct (Qlt_le_dec q 0) as [Hneg|Hge].
  + assert (q' < 0)%Q as Hneg' by (by rewrite <-E).
    rewrite !to_binary64_neg by done.
    assert (- q == - q')%Q as E' by (by rewrite E).
    pose proof (rounded_proper (- q) (- q') ltac:(lra) E') as Er.
    rewrite (Qle_bool_proper _ (rounded (- q)) _ (rounded (- q')) (Qeq_refl _) Er).
    assert (- rounded (- q) == - rounded (- q'))%Q as Er' by (by rewrite Er).
    by rewrite (Qred_complete _ _ Er').
  + assert (q == 0)%Q as E0 by (by apply Qle_antisym).
    rewrite (to_binary64_zero q E0), (to_binary64_zero q'); [done|by rewrite <-E].
Qed.

(** What is rounded stays below a binary64 value above it. *)
Lemma to_binary64_le q k j :
  (0 <= q)%Q → (k ≤ 2 ^ 53)%Z → (-1074 ≤ j)%Z →
  (q <= inject_Z k * 2 ^ j)%Q → (inject_Z k * 2 ^ j < 2 ^ 1024)%Q →
  ∃ v, to_binary64 q = Fin v ∧ (0 <= v)%Q ∧ (v <= inject_Z k * 2 ^ j)%Q.
Proof.
intros Hq Hk Hj Hle Hfin.
destruct (Qlt_le_dec 0 q) as [Hpos|Hz].
- rewrite to_binary64_pos by done.
  pose proof (rounded_le_dyadic q k j Hpos Hk Hj Hle) as Hr.
  replace (Qle_bool (2 ^ 1024) (rounded q)) with false
    by (symmetry; apply Qle_bool_false; lra).
  eexists. split; [done|]. rewrite Qred_correct. split; [|done].
  by apply rounded_nonneg.
- rewrite to_binary64_zero by (by apply Qle_antisym).
  exists 0%Q. split; [done|]. split; [done|]. lra.
Qed.

(** ... and above a binary64 value below it. *)
Lemma to_binary64_ge q k j :
  (0 < k)%Z → (k ≤ 2 ^ 53)%Z → (-1074 ≤ j)%Z →
  (inject_Z k * 2 ^ j <= q)%Q →
  to_binary64 q = Inf false
  ∨ ∃ v, to_binary64 q = Fin v ∧ (inject_Z k * 2 ^ j <= v)%Q.
Proof.
intros Hk0 Hk Hj Hle.
assert (0 < inject_Z k * 2 ^ j)%Q as HM.
{ apply Qmult_lt_0_compat; [|apply pow2_pos].
  change 0%Q with (inject_Z 0). by rewrite <-Zlt_Qlt. }
assert (0 < q)%Q as Hpos by lra.
rewrite to_binary64_pos by done.
pose proof (rounded_ge_dyadic q k j Hpos Hk Hj Hle) as Hr.
destruct (Qle_bool (2 ^ 1024) (rounded q)); [by left|right].
eexists. split; [done|]. by rewrite Qred_correct.
Qed.

(** Below [2^(e+53)] the rounding is off by half a unit [2^e] at most. *)
Lemma to_binary64_near q e :
  (0 <= q)%Q → (q < 2 ^ (e + 53))%Q → (-1074 ≤ e ≤ 970)%Z →
  ∃ v, to_binary64 q = Fin v
    ∧ (q - 2 ^ (e - 1) <= v)%Q ∧ (v <= q + 2 ^ (e - 1))%Q.
Proof.
intros Hq Hlt He.
destruct (to_binary64_le q 1 (e + 53) Hq) as (v & Hv & H0 & Hb); try lia.
{ change (inject_Z 1) with 1%Q. rewrite Qmult_1_l. by apply Qlt_le_weak. }
{ change (inject_Z 1) with 1%Q. rewrite Qmult_1_l. apply pow2_lt. lia. }
exists v. split; [done|].
destruct (Qlt_le_dec 0 q) as [Hpos|Hz].
- rewrite to_binary64_pos in Hv by done.
  destruct (Qle_bool (2 ^ 1024) (rounded q)); [done|]. inversion Hv as [Ev].
  rewrite Qred_correct.
  destruct (rounded_near q) as [H1 H2].
  pose proof (ulp_exp_le q (e + 52) Hpos
                ltac:(by replace (e + 52 + 1)%Z with (e + 53)%Z by lia)) as Hu.
  assert (2 ^ (ulp_exp q - 1) <= 2 ^ (e - 1))%Q as Hp by (apply pow2_le; lia).
  split; lra.
- assert (q == 0)%Q as E0 by (by apply Qle_antisym).
  rewrite (to_binary64_zero q E0) in Hv. inversion Hv as [Ev].
  pose proof (pow2_pos (e - 1)). rewrite E0. split; lra.
Qed.

(** A number of the format is kept as it is. *)
Lemma to_binary64_exact k j :
  (0 ≤ k ≤ 2 ^ 53)%Z → (-1074 ≤ j)%Z → (inject_Z k * 2 ^ j < 2 ^ 1024)%Q →
  to_binary64 (inject_Z k * 2 ^ j) = Fin (Qred (inject_Z k * 2 ^ j)).
Proof.
intros Hk Hj Hfin.
destruct (Z.eq_dec k 0) as [->|Hne].
{ rewrite to_binary64_zero by (change (inject_Z 0) with 0%Q; apply Qmult_0_l).
  reflexivity. }
set (M := (inject_Z k * 2 ^ j)%Q) in *.
assert (0 < M)%Q as HM.
{ apply Qmult_lt_0_compat; [|apply pow2_pos].
  change 0%Q with (inject_Z 0). rewrite <-Zlt_Qlt. lia. }
rewrite to_binary64_pos by done.
pose proof (rounded_le_dyadic M k j HM ltac:(lia) Hj ltac:(apply Qle_refl)) as H1.
pose proof (rounded_ge_dyadic M k j HM ltac:(lia) Hj ltac:(apply Qle_refl)) as H2.
fold M in H1, H2.
assert (rounded M == M)%Q as E by (by apply Qle_antisym).
replace (Qle_bool (2 ^ 1024) (rounded M)) with false
  by (symmetry; apply Qle_bool_false; lra).
by rewrite (Qred_complete _ _ E).
Qed.

Lemma to_binary64_Z z :
  (0 ≤ z ≤ 2 ^ 53)%Z → to_binary64 (inject_Z z) = Fin (inject_Z z).
Proof.
intros Hz.
assert (inject_Z z == inject_Z z * 2 ^ 0)%Q as E.
{ change (2 ^ 0)%Q with 1%Q. by rewrite Qmult_1_r. }
rewrite (to_binary64_proper _ _ E), to_binary64_exact; try lia.
- by rewrite <-(Qred_complete _ _ E), inject_Z_Qred.
- rewrite <-E. apply (Qle_lt_trans _ (2 ^ 53)).
  + rewrite <-pow2_inject by lia. rewrite <-Zle_Qle. lia.
  + by apply pow2_lt.
Qed.

(** What is not negative is rounded to what is not negative. *)
Lemma to_binary64_nonneg q :
  (0 <= q)%Q →
  to_binary64 q = Inf false ∨ ∃ v, to_binary64 q = Fin v ∧ (0 <= v)%Q.
Proof.
intros Hq. destruct (Qlt_le_dec 0 q) as [Hpos|Hz].
- rewrite to_binary64_pos by done.
  destruct (Qle_bool (2 ^ 1024) (rounded q)); [by left|right].
  eexists. split; [done|]. rewrite Qred_correct. by apply rounded_nonneg.
- right. exists 0%Q. split; [|done]. apply to_binary64_zero.
  by apply Qle_antisym.
Qed.

Lemma to_binary64_not_NaN q : isNaN (to_binary64 q) = false.
Proof.
unfold to_binary64. destruct (Qzero_bool q); [done|]. cbv zeta.
by destruct (Qle_bool _ _).
Qed.

Lemma inject_Z_pow2 z : (inject_Z z == inject_Z z * 2 ^ 0)%Q.
Proof. change (2 ^ 0)%Q with 1%Q. by rewrite Qmult_1_r. Qed.

Lemma pow2_53_finite z : (z ≤ 2 ^ 53)%Z → (inject_Z z * 2 ^ 0 < 2 ^ 1024)%Q.
Proof.
intros Hz. rewrite <-inject_Z_pow2. apply (Qle_lt_trans _ (2 ^ 53)).
- rewrite <-pow2_inject by lia. by rewrite <-Zle_Qle.
- by apply pow2_lt.
Qed.

(** An integer bound that binary64 holds is kept by the rounding. *)
Lemma to_binary64_le_Z q z :
  (0 <= q)%Q → (q <= inject_Z z)%Q → (z ≤ 2 ^ 53)%Z →
  ∃ v, to_binary64 q = Fin v ∧ (0 <= v)%Q ∧ (v <= inject_Z z)%Q.
Proof.
intros Hq Hle Hz.
destruct (to_binary64_le q z 0 Hq Hz ltac:(lia)) as (v & Hv & H0 & Hb).
- by rewrite <-inject_Z_pow2.
- by apply pow2_53_finite.
- exists v. by rewrite <-inject_Z_pow2 in Hb.
Qed.

End Binary64.

(** * The filter engine *)

Section Filter.
Implicit Types (S : list NormalizedResponse) (d s : string).

Lemma filter_pred_all item : filter_pred "All" "All" item = true.
Proof. reflexivity. Qed.

Lemma filteredData_all S : filteredData S "All" "All" = S.
Proof.
  unfold filteredData.
  induction S as [|item S IH]; [done|].
  rewrite filter_cons_True by (by rewrite filter_pred_all).
  by rewrite IH.
Qed.

Lemma filteredData_elem S d s item :
  item ∈ filteredData S d s → item ∈ S ∧ filter_pred d s item = true.
Proof.
  unfold filteredData. rewrite list_elem_of_filter.
  intros [Hp Hin]. split; [done|]. by apply Is_true_true.
Qed.

(** C3: for every snapshot and every pair of filters the filtered
    collection is a subsequence of the snapshot, in the snapshot's order
    and made of the snapshot's own records, and with both filters at the
    match-all sentinel it is the snapshot itself. *)
Theorem filteredData_subsequence S d s :
  filteredData S d s `sublist_of` S
  ∧ (∀ item, item ∈ filteredData S d s → item ∈ S)
  ∧ filteredData S "All" "All" = S.
Proof.
  split; [apply sublist_filter|].
  split; [|apply filteredData_all].
  intros item Hin. by apply filteredData_elem in Hin as [? _].
Qed.
End Filter.

(** The station filter reads its value with [parseInt] alone; normalization
    falls back to the raw value when [parseInt] gives a falsy number. *)


Lemma filter_numeric_station_matches :
  ∃ r, formattedData (JArr [station_3]) = Ok [r]
       ∧ station r = JNum (Fin 3)
       ∧ filteredData [r] "All" "3" = [r].
Proof. eexists. split; [vm_compute; reflexivity|]. split; vm_compute; reflexivity. Qed.

(** C4, at a label station: the record keeps the label [ER] as its station,
    and the filter holding [ER] selects no record. *)
Lemma filter_label_station_no_match :
  ∃ r, formattedData (JArr [station_ER]) = Ok [r]
       ∧ station r = JStr "ER"
       ∧ filteredData [r] "All" "ER" = [].
Proof. eexists. split; [vm_compute; reflexivity|]. split; vm_compute; reflexivity. Qed.

(** * Station normalization *)

Lemma normalize_station_spec raw parsed :
  parseInt raw = Ok parsed →
  normalize_station raw = Ok (if num_truthy parsed then JNum parsed else raw).
Proof. unfold normalize_station. by intros ->. Qed.

Lemma normalize_inv item r :
  normalize item = Ok r →
  ∃ raw, get item "station" = Ok raw ∧ normalize_station raw = Ok (station r).
Proof.
  unfold normalize, mbind, result_bind. intros H.
  destruct (get item "station") as [raw|]; [|done].
  exists raw. split; [done|].
  destruct (normalize_station raw) as [st|]; [|done].
  repeat match type of H with
  | match ?m with Ok _ => _ | Throw _ => _ end = _ => destruct m; [|done]
  end.
  by inversion H.
Qed.

(** C10: the raw station is kept whenever [parseInt] gives a falsy number,
    which [0] is as much as [NaN]: the text [0] stays the text [0], and the
    text [3A], whose digit prefix is [3], becomes the number [3]. *)
Theorem station_kept_when_parse_falsy item raw parsed r :
  get item "station" = Ok raw →
  parseInt raw = Ok parsed →
  normalize item = Ok r →
  (num_truthy parsed = false → station r = raw)
  ∧ (num_truthy parsed = true → station r = JNum parsed)
  ∧ parseInt (JStr "0") = Ok (Fin 0)
  ∧ normalize_station (JStr "0") = Ok (JStr "0")
  ∧ normalize_station (JStr "3A") = Ok (JNum (Fin 3)).
Proof.
  intros Hget Hparse Hnorm.
  apply normalize_inv in Hnorm as (raw' & Hget' & Hst).
  assert (raw' = raw) as -> by congruence.
  rewrite (normalize_station_spec _ _ Hparse) in Hst.
  inversion Hst as [Heq].
  split; [by intros ->|]. split; [by intros ->|].
  repeat split; vm_compute; reflexivity.
Qed.


Lemma station_kept_when_parse_falsy_witness :
  ∃ r, normalize station_zero = Ok r ∧ station r = JStr "0".
Proof.
  eexists. split; [vm_compute; reflexivity|].
  refine (proj1 (station_kept_when_parse_falsy station_zero (JStr "0") (Fin 0) _
                   _ _ _) _); vm_compute; reflexivity.
Defined.

(** * Ingestion *)

Lemma rawList_examiner fields v :
  fields !! "examiner" = Some v → to_boolean v = true →
  rawList (JObj fields) = Ok v.
Proof. unfold rawList. simpl. intros -> . simpl. by intros ->. Qed.

Lemma rawList_array items : rawList (JArr items) = Ok (JArr items).
Proof. reflexivity. Qed.

Lemma rawList_object_without_examiner fields :
  fields !! "examiner" = None → rawList (JObj fields) = Ok (JArr []).
Proof. unfold rawList. simpl. by intros ->. Qed.

(** C8, at the body [null]: reading [examiner] throws, the [catch] records
    the error, and no dataset, empty or not, replaces the state's. *)
Lemma on_response_null_is_error :
  rawList JNull = Throw TypeError
  ∧ formattedData JNull = Throw TypeError
  ∧ error (on_response JNull initial_state)
    = Some "無法讀取資料，請確認權限設定。".
Proof. repeat split. Qed.

(** An object whose [examiner] is truthy and no array throws as well. *)
Lemma on_response_examiner_not_array :
  formattedData (obj [("examiner", JNum (Fin 5))]) = Throw TypeError.
Proof. vm_compute. reflexivity. Qed.

(** * The feedback channels *)

Section Feedback.
Implicit Types (C : list NormalizedResponse) (d : NormalizedResponse).

Lemma score_with_text k d v : score k (with_text d v) = score k d.
Proof. by destruct k. Qed.

Lemma prop_with_text_ne d v k :
  k ≠ "text" → prop (with_text d v) k = prop d k.
Proof.
  intros Hk. unfold prop.
  destruct (String.eqb k "station"); [done|].
  destruct (List.find _ questions) as [q|]; [by rewrite score_with_text|].
  simpl. by rewrite lookup_insert_ne.
Qed.

Lemma prop_with_text d v : prop (with_text d v) "text" = v.
Proof. unfold prop. simpl. by rewrite lookup_insert_eq. Qed.


End Feedback.

(** * Reading decimal text *)

Section Text.
Implicit Types (c : ascii) (s : string) (d acc : Z).
Local Open Scope Z_scope.

Local Ltac code_absurd H :=
  let H1 := fresh in let H2 := fresh in
  destruct H as [H1 H2]; vm_compute in H1, H2;
  first [by apply H1 | by apply H2].

Lemma digit_of_bounds c d : digit_of c = Some d → 0 ≤ d ≤ 9.
Proof.
unfold digit_of. intros H.
destruct (andb_prop_elim (48 <=? Z.of_N (N_of_ascii c))
            (Z.of_N (N_of_ascii c) <=? 57)) as [H1 H2].
{ destruct (_ && _); [done|discriminate]. }
apply Is_true_true, Z.leb_le in H1. apply Is_true_true, Z.leb_le in H2.
destruct (_ && _); [|discriminate]. inversion H. lia.
Qed.

Lemma digit_of_code c d :
  digit_of c = Some d → (48 ≤ N_of_ascii c ≤ 57)%N.
Proof.
unfold digit_of. intros H.
destruct (andb_prop_elim (48 <=? Z.of_N (N_of_ascii c))
            (Z.of_N (N_of_ascii c) <=? 57)) as [H1 H2].
{ destruct (_ && _); [done|discriminate]. }
apply Is_true_true, Z.leb_le in H1. apply Is_true_true, Z.leb_le in H2. lia.
Qed.

Lemma digit_or_dot_code c :
  digit_or_dot c = true → (46 ≤ N_of_ascii c ≤ 57)%N.
Proof.
unfold digit_or_dot, is_digit. intros H.
destruct (digit_of c) as [d|] eqn:Hd.
- apply digit_of_code in Hd. lia.
- simpl in H. apply Ascii.eqb_eq in H. subst c. vm_compute. split; discriminate.
Qed.

Lemma scan_nonneg s acc len :
  0 ≤ acc → 0 ≤ (scan 10 digit_of acc len s).1.1.
Proof.
revert acc len. induction s as [|c s IH]; intros acc len Hacc; simpl; [done|].
destruct (digit_of c) as [d|] eqn:Hd; [|done].
apply IH. apply digit_of_bounds in Hd. lia.
Qed.

Lemma str_forall_filter p s : str_forall p (filter_str p s) = true.
Proof.
induction s as [|c s IH]; simpl; [done|].
destruct (p c) eqn:Hp; simpl; [by rewrite Hp|done].
Qed.

(** A character of code 33 to 193 starts no white space. *)
Lemma ws_len_visible c s :
  (33 ≤ N_of_ascii c ≤ 193)%N → ws_len (String c s) = O.
Proof.
intros Hc. unfold ws_len.
repeat match goal with
| |- context [(N_of_ascii c =? ?k)%N] =>
    replace (N_of_ascii c =? k)%N with false by (symmetry; apply N.eqb_neq; lia)
end.
simpl. destruct s as [|c2 [|c3 s]]; reflexivity.
Qed.

Lemma trim_start_visible c s :
  (33 ≤ N_of_ascii c ≤ 193)%N → trim_start (String c s) = String c s.
Proof.
intros Hc. unfold trim_start. simpl String.length.
unfold trim_start_fuel. by rewrite ws_len_visible.
Qed.

Lemma trim_start_empty : trim_start "" = "".
Proof. reflexivity. Qed.

Lemma split_sign_unsigned c s :
  c ≠ "-"%char → c ≠ "+"%char → split_sign (String c s) = (false, String c s).
Proof.
intros Hm Hp.
destruct c as [[] [] [] [] [] [] [] []]; try reflexivity; congruence.
Qed.

Lemma starts_with_other p c s t :
  c ≠ p → starts_with (String p t) (String c s) = false.
Proof.
intros Hc. unfold starts_with. simpl.
destruct (ascii_dec p c); [congruence|done].
Qed.

(** Without a sign in front, what is read is [NaN], the positive infinity
    or a non-negative value. *)
Lemma read_decimal_unsigned s :
  read_decimal false s = NaN
  ∨ read_decimal false s = Inf false
  ∨ ∃ q, read_decimal false s = Fin q ∧ (0 <= q)%Q.
Proof.
unfold read_decimal.
destruct (starts_with "Infinity" s); [by right; left|].
unfold scan_dec.
pose proof (scan_nonneg s 0 0 (Z.le_refl 0)) as Hip.
destruct (scan 10 digit_of 0 0 s) as [[ip ilen] s1]. simpl in Hip.
assert (∃ fp flen s2, 0 ≤ fp ∧
  match s1 with
  | String "." s' => scan 10 digit_of 0 0 s'
  | _ => (0, O, s1)
  end = (fp, flen, s2)) as (fp & flen & s2 & Hfp & ->).
{ destruct s1 as [|c s1]; [by exists 0, O, ""|].
  destruct (ascii_dec c ".") as [->|Hne].
  - pose proof (scan_nonneg s1 0 0 (Z.le_refl 0)) as Hf.
    destruct (scan 10 digit_of 0 0 s1) as [[fp flen] s2]. by exists fp, flen, s2.
  - exists 0, O, (String c s1). split; [done|].
    destruct c as [[] [] [] [] [] [] [] []]; try reflexivity; congruence. }
assert (∀ e, 0 <= (inject_Z ip + inject_Z fp / 10 ^ Z.of_nat flen) * 10 ^ e)%Q
  as Hval.
{ intros e. apply Qmult_le_0_compat.
  - apply (Qle_trans _ (0 + 0)); [done|]. apply Qplus_le_compat.
    + change (inject_Z 0 <= inject_Z ip)%Q. by rewrite <-Zle_Qle.
    + apply Qle_shift_div_l; [by apply Qpower_0_lt|].
      rewrite Qmult_0_l. change (inject_Z 0 <= inject_Z fp)%Q.
      by rewrite <-Zle_Qle.
  - by apply Qpower_0_le. }
destruct (scan_exponent s2) as [e rest].
destruct ilen, flen; [by left|..]; right; apply to_binary64_nonneg, Hval.
Qed.

Lemma parseFloat_unsigned s :
  str_forall digit_or_dot s = true →
  parseFloat s = NaN ∨ parseFloat s = Inf false
  ∨ ∃ q, parseFloat s = Fin q ∧ (0 <= q)%Q.
Proof.
destruct s as [|c s]; [by left|]. simpl. intros Hs.
apply andb_prop in Hs as [Hc _].
pose proof (digit_or_dot_code c Hc) as Hcode.
unfold parseFloat.
rewrite trim_start_visible by lia.
rewrite split_sign_unsigned by (intros ->; code_absurd Hcode).
apply read_decimal_unsigned.
Qed.

End Text.

(** * Decimal digits: what is printed is what is read *)

Section Digits.
Implicit Types (c : ascii) (s a b rest : string) (acc : Z) (len : nat).
Local Open Scope Z_scope.

Lemma append_nil s : "" +:+ s = s.
Proof. reflexivity. Qed.

Lemma append_cons c a b : String c a +:+ b = String c (a +:+ b).
Proof. reflexivity. Qed.

Lemma append_empty_r s : s +:+ "" = s.
Proof. induction s as [|c s IH]; [done|]. by rewrite append_cons, IH. Qed.

Lemma append_assoc a b s : (a +:+ b) +:+ s = a +:+ b +:+ s.
Proof. induction a as [|c a IH]; [done|]. by rewrite !append_cons, IH. Qed.

Lemma length_append a b :
  String.length (a +:+ b) = (String.length a + String.length b)%nat.
Proof.
induction a as [|c a IH]; [done|]. rewrite append_cons. simpl. by rewrite IH.
Qed.

Lemma take_drop_str n s : take_str n s +:+ drop_str n s = s.
Proof.
revert s. induction n as [|n IH]; intros [|c s]; simpl; try done.
by rewrite append_cons, IH.
Qed.

Lemma length_take_str n s :
  (n ≤ String.length s)%nat → String.length (take_str n s) = n.
Proof.
revert s. induction n as [|n IH]; intros [|c s]; simpl; try done; try lia.
intros H. rewrite IH; lia.
Qed.

Lemma length_drop_str n s :
  String.length (drop_str n s) = (String.length s - n)%nat.
Proof.
revert s. induction n as [|n IH]; intros [|c s]; simpl; try done.
Qed.

Lemma length_zeros n : String.length (zeros n) = n.
Proof. induction n as [|n IH]; simpl; [done|by rewrite IH]. Qed.

Lemma str_forall_append p a b :
  str_forall p (a +:+ b) = str_forall p a && str_forall p b.
Proof.
induction a as [|c a IH]; [done|]. rewrite append_cons. simpl.
rewrite IH. by rewrite andb_assoc.
Qed.

Lemma str_forall_take p n s :
  str_forall p s = true → str_forall p (take_str n s) = true.
Proof.
intros H. rewrite <-(take_drop_str n s), str_forall_append in H.
by apply andb_prop in H as [? _].
Qed.

Lemma str_forall_drop p n s :
  str_forall p s = true → str_forall p (drop_str n s) = true.
Proof.
intros H. rewrite <-(take_drop_str n s), str_forall_append in H.
by apply andb_prop in H as [_ ?].
Qed.

Lemma str_forall_zeros n : str_forall is_digit (zeros n) = true.
Proof. induction n as [|n IH]; simpl; [done|by rewrite IH]. Qed.

Lemma is_digit_Some c : is_digit c = true → ∃ d, digit_of c = Some d.
Proof. unfold is_digit. destruct (digit_of c) as [d|]; [by exists d|done]. Qed.

Lemma scan_stop acc len rest :
  match rest with
  | EmptyString => True
  | String c _ => digit_of c = None
  end →
  scan 10 digit_of acc len rest = (acc, len, rest).
Proof. destruct rest as [|c rest]; simpl; [done|]. by intros ->. Qed.

(** Reading a text of digits, whatever follows it. *)
Lemma scan_digits a : str_forall is_digit a = true →
  ∀ acc len rest,
    scan 10 digit_of acc len (a +:+ rest)
    = scan 10 digit_of (acc * 10 ^ Z.of_nat (String.length a) + digits_val a)
        (len + String.length a) rest.
Proof.
induction a as [|c a IH]; intros Ha acc len rest.
{ rewrite append_nil.
  replace (acc * 10 ^ Z.of_nat (String.length "") + digits_val "") with acc
    by (change (digits_val "") with 0; simpl; lia).
  simpl String.length. by rewrite Nat.add_0_r. }
simpl in Ha. apply andb_prop in Ha as [Hc Ha].
destruct (is_digit_Some c Hc) as [d Hd].
specialize (IH Ha).
assert (digits_val (String c a) = d * 10 ^ Z.of_nat (String.length a) + digits_val a)
  as ->.
{ unfold digits_val at 1, scan_dec. simpl scan. rewrite Hd.
  rewrite <-(append_empty_r a) at 1. rewrite IH, scan_stop by done.
  simpl fst. lia. }
rewrite append_cons. simpl scan. rewrite Hd, IH. simpl String.length.
replace (len + S (String.length a))%nat with (S len + String.length a)%nat by lia.
f_equal. rewrite Nat2Z.inj_succ, Z.pow_succ_r by lia. lia.
Qed.

Lemma scan_dec_digits a rest :
  str_forall is_digit a = true →
  match rest with
  | EmptyString => True
  | String c _ => digit_of c = None
  end →
  scan_dec (a +:+ rest) = (digits_val a, String.length a, rest).
Proof.
intros Ha Hrest. unfold scan_dec. rewrite (scan_digits a Ha).
by rewrite scan_stop.
Qed.

Lemma digits_val_append a b :
  str_forall is_digit a = true → str_forall is_digit b = true →
  digits_val (a +:+ b)
  = digits_val a * 10 ^ Z.of_nat (String.length b) + digits_val b.
Proof.
intros Ha Hb. unfold digits_val at 1, scan_dec.
rewrite (scan_digits a Ha). rewrite <-(append_empty_r b) at 1.
rewrite (scan_digits b Hb). simpl. lia.
Qed.

Lemma digits_val_cons c d s :
  digit_of c = Some d → str_forall is_digit s = true →
  digits_val (String c s) = d * 10 ^ Z.of_nat (String.length s) + digits_val s.
Proof.
intros Hd Hs.
change (String c s) with (String c "" +:+ s).
rewrite digits_val_append; [|by simpl; unfold is_digit; rewrite Hd|done].
f_equal. unfold digits_val, scan_dec. simpl. rewrite Hd. simpl. lia.
Qed.

Lemma digits_val_zeros n : digits_val (zeros n) = 0.
Proof.
induction n as [|n IH]; [done|]. simpl zeros.
rewrite (digits_val_cons _ 0); [lia|done|apply str_forall_zeros].
Qed.

Lemma pretty_N_char_digit x :
  (x < 10)%N → digit_of (pretty_N_char x) = Some (Z.of_N x).
Proof.
intros Hx.
assert (x = 0 ∨ x = 1 ∨ x = 2 ∨ x = 3 ∨ x = 4 ∨ x = 5 ∨ x = 6 ∨ x = 7
        ∨ x = 8 ∨ x = 9)%N as H by lia.
repeat (destruct H as [->|H]; [reflexivity|]). by subst.
Qed.

Lemma pretty_N_go_digits x : ∀ s,
  str_forall is_digit s = true →
  str_forall is_digit (pretty_N_go x s) = true
  ∧ digits_val (pretty_N_go x s)
    = Z.of_N x * 10 ^ Z.of_nat (String.length s) + digits_val s
  ∧ (String.length s ≤ String.length (pretty_N_go x s))%nat.
Proof.
induction (N.lt_wf_0 x) as [x _ IH]; intros s Hs.
assert (x = 0 ∨ 0 < x)%N as [->|Hx] by lia.
{ rewrite pretty_N_go_0. split; [done|]. split; [lia|done]. }
rewrite pretty_N_go_step by done.
pose proof (pretty_N_char_digit (x `mod` 10)%N) as Hd.
specialize (Hd ltac:(by apply N.mod_lt)).
destruct (IH (x `div` 10)%N) with (s := String (pretty_N_char (x `mod` 10)) s)
  as (H1 & H2 & H3).
{ by apply N.div_lt. }
{ simpl. unfold is_digit. by rewrite Hd. }
split; [done|]. split.
- rewrite H2, (digits_val_cons _ _ _ Hd Hs). simpl String.length.
  rewrite Nat2Z.inj_succ, Z.pow_succ_r by lia.
  pose proof (N.div_mod x 10 ltac:(done)) as Hdm.
  rewrite N2Z.inj_div, N2Z.inj_mod. rewrite N2Z.inj_div, N2Z.inj_mod in *.
  assert (Z.of_N x = 10 * (Z.of_N x / 10) + Z.of_N x mod 10) as Hz.
  { apply Z.div_mod. lia. }
  change (Z.of_N 10) with 10. nia.
- simpl in H3. lia.
Qed.

(** The printed form of a natural number: digits only, at least one, and
    read back as the number. *)
Lemma pretty_N_digits (x : N) :
  str_forall is_digit (pretty x) = true
  ∧ digits_val (pretty x) = Z.of_N x
  ∧ (1 ≤ String.length (pretty x))%nat.
Proof.
unfold pretty, pretty_N. case_decide as Hx; [by subst|].
destruct (pretty_N_go_digits x "" eq_refl) as (H1 & H2 & _).
split; [done|]. split.
- rewrite H2. change (digits_val "") with 0. simpl. lia.
- assert (0 < x)%N as Hpos by lia.
  rewrite pretty_N_go_step by done.
  destruct (pretty_N_go_digits (x `div` 10)%N
              (String (pretty_N_char (x `mod` 10)) "")) as (_ & _ & H3).
  { simpl. unfold is_digit.
    by rewrite pretty_N_char_digit by (by apply N.mod_lt). }
  simpl in H3. lia.
Qed.

Lemma pretty_abs_digits z :
  0 ≤ z →
  str_forall is_digit (pretty_abs z) = true
  ∧ digits_val (pretty_abs z) = z
  ∧ (1 ≤ String.length (pretty_abs z))%nat.
Proof.
intros Hz. unfold pretty_abs.
destruct (pretty_N_digits (Z.to_N (Z.abs z))) as (H1 & H2 & H3).
split; [done|]. split; [|done]. rewrite H2. lia.
Qed.

Lemma digit_first s :
  str_forall is_digit s = true → (1 ≤ String.length s)%nat →
  ∃ c d s', s = String c s' ∧ digit_of c = Some d.
Proof.
destruct s as [|c s']; simpl; [lia|]. intros H _.
apply andb_prop in H as [Hc _]. destruct (is_digit_Some c Hc) as [d Hd].
by exists c, d, s'.
Qed.

End Digits.

(** * The score normalizer *)

Section ParseScore.
Implicit Types (v : JsVal) (x : number) (s : string).

(** Induction on a value, the elements of an array being covered. *)
Lemma JsVal_array_ind (P : JsVal → Prop) :
  P JUndefined → P JNull → (∀ b, P (JBool b)) → (∀ x, P (JNum x)) →
  (∀ s, P (JStr s)) → (∀ items, Forall P items → P (JArr items)) →
  (∀ fields, P (JObj fields)) → ∀ v, P v.
Proof.
intros Hu Hn Hb Hx Hs Ha Ho. fix IH 1.
intros [| |b|x|s|items|fields];
  [exact Hu|exact Hn|apply Hb|apply Hx|apply Hs| |apply Ho].
apply Ha. induction items as [|y items IHitems]; constructor;
  [apply IH|exact IHitems].
Qed.

Lemma bind_Ok {A B} (a : A) (f : A → result B) : Ok a ≫= f = f a.
Proof. reflexivity. Qed.

Lemma bind_Throw {A B} (e : exn) (f : A → result B) : Throw e ≫= f = Throw e.
Proof. reflexivity. Qed.

Lemma to_string_array_cons v items :
  to_string (JArr (v :: items))
  = a ← match v with
        | JUndefined | JNull => Ok ""
        | _ => to_string v
        end;
    match items with
    | [] => Ok a
    | _ => b ← to_string (JArr items); Ok (a +:+ "," +:+ b)
    end.
Proof. reflexivity. Qed.

Lemma to_string_has_text v : has_text v = true → ∃ s, to_string v = Ok s.
Proof.
induction v as [| |b|x|s|items IH|fields] using JsVal_array_ind;
  try (by eexists).
- destruct b; by eexists.
- intros Ht. simpl in Ht. induction IH as [|y items Hy _ IHitems].
  + by eexists.
  + apply andb_prop in Ht as [Hty Htl].
    destruct (Hy Hty) as [a Ha]. destruct (IHitems Htl) as [b Hb].
    rewrite to_string_array_cons.
    assert (∃ a', match y with
                  | JUndefined | JNull => Ok ""
                  | _ => to_string y
                  end = Ok a') as [a' ->] by (destruct y; by eexists).
    rewrite bind_Ok. destruct items; [by eexists|]. rewrite Hb. by eexists.
- simpl. destruct (fields !! "toString"); [discriminate|by eexists].
Qed.

Lemma to_string_no_text v : has_text v = false → to_string v = Throw TypeError.
Proof.
induction v as [| |b|x|s|items IH|fields] using JsVal_array_ind;
  try discriminate.
- intros Ht. simpl in Ht. induction IH as [|y items Hy _ IHitems]; [discriminate|].
  rewrite to_string_array_cons.
  apply andb_false_iff in Ht as [Hty|Htl].
  + assert (match y with
            | JUndefined | JNull => Ok ""
            | _ => to_string y
            end = Throw TypeError) as ->; [|done].
    destruct y; try discriminate; by apply Hy.
  + destruct (match y with
              | JUndefined | JNull => Ok ""
              | _ => to_string y
              end) as [a|[]]; [|done].
    rewrite bind_Ok. destruct items; [discriminate|]. by rewrite (IHitems Htl).
- simpl. by destruct (fields !! "toString").
Qed.

Lemma primitive_has_text v :
  is_array v = false → (∀ fields, v ≠ JObj fields) → has_text v = true.
Proof. destruct v; try done. intros _ H. by destruct (H fields). Qed.

Lemma parseScore_number x : parseScore (JNum x) = Ok x.
Proof. reflexivity. Qed.

Lemma parseScore_falsy v :
  is_number v = false → to_boolean v = false → parseScore v = Ok (Fin 0).
Proof.
destruct v; try discriminate; intros _ Hb; unfold parseScore; by rewrite Hb.
Qed.

Lemma parseScore_text v s :
  is_number v = false → to_boolean v = true → to_string v = Ok s →
  parseScore v
  = Ok (let parsed := parseFloat (filter_str digit_or_dot s) in
        if isNaN parsed then Fin 0 else parsed).
Proof.
destruct v; try discriminate; intros _ Hb Hs; unfold parseScore;
  by rewrite Hb, Hs.
Qed.

Lemma parseScore_raises v :
  has_text v = false → parseScore v = Throw TypeError.
Proof.
intros Ht. pose proof (to_string_no_text v Ht) as Hs.
destruct v; try discriminate; unfold parseScore; simpl to_boolean; simpl negb;
  by rewrite Hs.
Qed.

(** What is read from the stripped text is never negative and never
    [NaN]. *)
Lemma stripped_score s (parsed := parseFloat (filter_str digit_or_dot s)) :
  num_nonneg (if isNaN parsed then Fin 0 else parsed) = true.
Proof.
destruct (parseFloat_unsigned (filter_str digit_or_dot s))
  as [H|[H|(q & H & Hq)]].
{ apply str_forall_filter. }
- subst parsed. by rewrite H.
- subst parsed. by rewrite H.
- subst parsed. rewrite H. simpl. by apply Qle_bool_iff.
Qed.

(** C2, as the code has it: on every value whose conversion to text does
    not throw, which leaves out only an object with an own [toString] and an
    array holding one, [parseScore] returns; a number comes back unchanged,
    a falsy value gives [0], and any other value gives what [parseFloat]
    reads in its text once every character other than a digit or a dot is
    removed, [0] when that is [NaN]. *)
Theorem parseScore_total_on_text v :
  has_text v = true →
  ∃ x, parseScore v = Ok x
    ∧ (∀ n, v = JNum n → x = n)
    ∧ (is_number v = false → to_boolean v = false → x = Fin 0)
    ∧ (is_number v = false → to_boolean v = true →
       ∃ s, to_string v = Ok s
         ∧ str_forall digit_or_dot (filter_str digit_or_dot s) = true
         ∧ x = (if isNaN (parseFloat (filter_str digit_or_dot s)) then Fin 0
                else parseFloat (filter_str digit_or_dot s))).
Proof.
intros Ht. destruct (to_string_has_text v Ht) as [s Hs].
destruct (is_number v) eqn:Hn.
{ destruct v; try discriminate. exists x. repeat split; try done. congruence. }
destruct (to_boolean v) eqn:Hb.
- eexists. split; [by apply parseScore_text|].
  split; [intros n ->; discriminate|]. split; [done|].
  intros _ _. exists s. split; [done|]. split; [apply str_forall_filter|done].
- exists (Fin 0). split; [by apply parseScore_falsy|].
  split; [intros n ->; discriminate|]. by split.
Qed.

Lemma parseScore_total_on_text_witness :
  has_text (JStr "4分") = true ∧ ∃ x, parseScore (JStr "4分") = Ok x.
Proof.
split; [reflexivity|].
destruct (parseScore_total_on_text (JStr "4分") eq_refl) as (x & Hx & _).
by exists x.
Defined.

(** C2, as stated, fails: the JSON value [{"toString": null}] is truthy and
    no number, its conversion to text throws, and so does [parseScore]. *)
Lemma parseScore_raises_on_own_toString :
  json own_toString = true ∧ parseScore own_toString = Throw TypeError.
Proof. split; vm_compute; reflexivity. Qed.

Lemma parseScore_nonneg_result v x :
  parseScore v = Ok x → (∀ n, v = JNum n → num_nonneg n = true) →
  num_nonneg x = true.
Proof.
intros Hp Hnum.
destruct (is_number v) eqn:Hn.
{ destruct v; try discriminate. simpl in Hp. inversion Hp; subst. by apply Hnum. }
destruct (to_boolean v) eqn:Hb.
- destruct (to_string v) as [s|e] eqn:Hs.
  + rewrite (parseScore_text v s Hn Hb Hs) in Hp. inversion Hp as [Hx].
    apply stripped_score.
  + destruct (has_text v) eqn:Ht.
    * destruct (to_string_has_text v Ht) as [s' Hs']. congruence.
    * rewrite (parseScore_raises v Ht) in Hp. discriminate.
- rewrite (parseScore_falsy v Hn Hb) in Hp. by inversion Hp.
Qed.

(** C9, as the code has it: a value that is not itself a negative number is
    normalized, when [parseScore] returns, to a non-negative number (a
    number comes back unchanged, whatever its sign); [null] gives [0], the
    text [4分] gives [4], the number [3.7] (the binary64 value nearest to
    it) gives [3.7] and the text [abc] gives [0]. *)
Theorem parseScore_nonneg v x :
  parseScore v = Ok x →
  (∀ n, v = JNum n → num_nonneg n = true) →
  num_nonneg x = true
  ∧ parseScore JNull = Ok (Fin 0)
  ∧ parseScore (JStr "4分") = Ok (Fin 4)
  ∧ parseScore (JNum (to_binary64 (37 # 10))) = Ok (to_binary64 (37 # 10))
  ∧ parseScore (JStr "abc") = Ok (Fin 0).
Proof.
intros Hp Hnum. split; [by eapply parseScore_nonneg_result|].
repeat split; vm_compute; reflexivity.
Qed.

Lemma parseScore_nonneg_witness :
  parseScore (JStr "-3") = Ok (Fin 3) ∧ num_nonneg (Fin 3) = true.
Proof.
split; [vm_compute; reflexivity|].
refine (proj1 (parseScore_nonneg (JStr "-3") (Fin 3) _ _)).
- vm_compute; reflexivity.
- intros n Hn. discriminate Hn.
Defined.

(** C9, as stated, fails: the number [-3] is returned as it is. *)
Lemma parseScore_negative_number :
  parseScore (JNum (Fin (-3))) = Ok (Fin (-3))
  ∧ num_nonneg (Fin (-3)) = false.
Proof. split; reflexivity. Qed.

End ParseScore.

(** * Normalizing a JSON body leaves no score that is [NaN] *)

Section Json.
Implicit Types (v item body : JsVal) (x : number) (r : NormalizedResponse).

Lemma bind_Ok_inv {T U} (m : result T) (f : T → result U) (u : U) :
  m ≫= f = Ok u → ∃ t, m = Ok t ∧ f t = Ok u.
Proof. destruct m as [t|e]; [by exists t|done]. Qed.

Lemma json_lookup (fields : gmap string JsVal) k v :
  json (JObj fields) = true → fields !! k = Some v → json v = true.
Proof.
change (json (JObj fields))
  with (map_fold (fun (_ : string) w acc => json w && acc) true fields).
revert k v.
apply (map_fold_weak_ind
  (fun (ok : bool) (m : gmap string JsVal) =>
     ∀ k v, ok = true → m !! k = Some v → json v = true)).
- intros k v _. by rewrite lookup_empty.
- intros i y m ok Hi IH k v Hr Hk.
  apply andb_prop in Hr as [Hy Hr]. rewrite lookup_insert in Hk.
  case_decide; [congruence|]. by eapply IH.
Qed.

Lemma get_json item k v :
  json item = true → get item k = Ok v → json v = true ∨ v = JUndefined.
Proof.
destruct item; simpl; try discriminate; intros Hj [= <-]; try by right.
destruct (fields !! k) as [w|] eqn:E; [left|by right].
by eapply json_lookup.
Qed.

Lemma parseScore_not_NaN v x :
  json v = true ∨ v = JUndefined → parseScore v = Ok x → isNaN x = false.
Proof.
intros Hv Hp. destruct (is_number v) eqn:Hn.
{ destruct v as [| | |[| |q]| | |]; try discriminate;
    destruct Hv as [Hv|Hv]; try discriminate; by inversion Hp. }
destruct (to_boolean v) eqn:Hb.
- destruct (has_text v) eqn:Ht.
  + destruct (to_string_has_text v Ht) as [s Hs].
    rewrite (parseScore_text v s Hn Hb Hs) in Hp. inversion Hp as [Hx].
    pose proof (stripped_score s) as Hs'. cbv zeta in Hs'.
    by destruct (if isNaN (parseFloat (filter_str digit_or_dot s))
                 then Fin 0 else parseFloat (filter_str digit_or_dot s)).
  + by rewrite (parseScore_raises v Ht) in Hp.
- rewrite (parseScore_falsy v Hn Hb) in Hp. by inversion Hp.
Qed.

Lemma normalize_not_NaN item r :
  json item = true → normalize item = Ok r → scores_not_NaN r = true.
Proof.
intros Hj Hn. unfold normalize in Hn.
apply bind_Ok_inv in Hn as (raw & _ & Hn).
apply bind_Ok_inv in Hn as (st & _ & Hn).
repeat match type of Hn with
| _ ≫= _ = Ok _ =>
    let v := fresh "v" in let Hv := fresh "Hv" in
    apply bind_Ok_inv in Hn as (v & Hv & Hn);
    apply bind_Ok_inv in Hv as (? & ?%(get_json _ _ _ Hj) & ?%parseScore_not_NaN);
    [|done]
end.
inversion Hn. unfold scores_not_NaN. simpl.
repeat (apply andb_true_intro; split); try done; by apply negb_true_iff.
Qed.

Lemma mapM_Ok {T U} (f : T → result U) (l : list T) (l' : list U) :
  mapM f l = Ok l' → Forall2 (fun t u => f t = Ok u) l l'.
Proof.
revert l'. induction l as [|t l IH]; intros l' H; simpl in H.
- inversion H. constructor.
- apply bind_Ok_inv in H as (u & Hu & H).
  apply bind_Ok_inv in H as (us & Hus & H). inversion H.
  constructor; [done|]. by apply IH.
Qed.

Lemma rawList_json body raw :
  json body = true → rawList body = Ok raw → json raw = true.
Proof.
intros Hj. unfold rawList. intros H.
apply bind_Ok_inv in H as (examiner & Hget & H).
destruct (to_boolean examiner) eqn:Hb.
- inversion H; subst. destruct (get_json _ _ _ Hj Hget) as [?| ->]; done.
- inversion H. by destruct (is_array body).
Qed.

(** No score of a record of a JSON body is [NaN], in any filtered
    collection of them. *)
Lemma formattedData_not_NaN body formatted :
  json body = true → formattedData body = Ok formatted →
  forallb scores_not_NaN formatted = true.
Proof.
intros Hj H. unfold formattedData in H.
apply bind_Ok_inv in H as (raw & Hraw & H).
pose proof (rawList_json body raw Hj Hraw) as Hjr.
destruct raw as [| | | | |items|]; try discriminate.
apply mapM_Ok in H. simpl in Hjr. clear Hraw.
induction H as [|item r items formatted Hn _ IH]; [done|].
simpl in *. apply andb_prop in Hjr as [Hitem Hitems].
apply andb_true_intro. split; [by eapply normalize_not_NaN|by apply IH].
Qed.

Lemma filteredData_not_NaN (S : list NormalizedResponse) d s :
  forallb scores_not_NaN S = true →
  forallb scores_not_NaN (filteredData S d s) = true.
Proof.
intros H. apply forallb_forall. intros item Hin.
apply list_elem_of_In, filteredData_elem in Hin as [Hin _].
eapply forallb_forall in H; [done|]. by apply list_elem_of_In.
Qed.

End Json.

(** * [toFixed] prints what [parseFloat] reads back *)

Section ToFixed.
Implicit Types (c : ascii) (s a b : string) (q : Q) (f : nat).

Lemma pow10_pos (z : Z) : (0 < 10 ^ z)%Q.
Proof. by apply Qpower_0_lt. Qed.

Lemma pow10_inject f : (10 ^ Z.of_nat f)%Q == inject_Z (10 ^ Z.of_nat f).
Proof. rewrite Zpower_Qpower by lia. reflexivity. Qed.

Lemma digit_not_sign c d :
  digit_of c = Some d → c ≠ "-"%char ∧ c ≠ "+"%char ∧ c ≠ "I"%char.
Proof. intros H. repeat split; intros ->; discriminate H. Qed.

(** An integer literal. *)
Lemma read_decimal_integer neg a :
  str_forall is_digit a = true → (1 ≤ String.length a)%nat →
  read_decimal neg a
  = to_binary64 (if neg then - inject_Z (digits_val a)
                 else inject_Z (digits_val a)).
Proof.
intros Ha Hlen.
destruct (digit_first a Ha Hlen) as (c & d & a' & -> & Hd).
destruct (digit_not_sign c d Hd) as (_ & _ & HI).
unfold read_decimal. rewrite starts_with_other by done.
rewrite <-(append_empty_r (String c a')).
rewrite scan_dec_digits by done.
simpl String.length. unfold scan_exponent. apply to_binary64_proper.
rewrite append_empty_r.
destruct neg; change (Z.of_nat 0) with 0%Z; change (10 ^ 0)%Q with 1%Q;
  change (inject_Z 0) with 0%Q; field.
Qed.

(** A literal with a fraction. *)
Lemma read_decimal_fraction neg a b :
  str_forall is_digit a = true → (1 ≤ String.length a)%nat →
  str_forall is_digit b = true →
  read_decimal neg (a +:+ "." +:+ b)
  = to_binary64 (if neg then - (inject_Z (digits_val (a +:+ b))
                                 / 10 ^ Z.of_nat (String.length b))
                 else inject_Z (digits_val (a +:+ b))
                      / 10 ^ Z.of_nat (String.length b)).
Proof.
intros Ha Hlen Hb.
destruct (digit_first a Ha Hlen) as (c & d & a' & -> & Hd).
destruct (digit_not_sign c d Hd) as (_ & _ & HI).
unfold read_decimal. rewrite append_cons, starts_with_other by done.
rewrite <-append_cons. rewrite scan_dec_digits by done.
change ("." +:+ b) with (String "." b).
rewrite <-(append_empty_r b) at 1. rewrite scan_dec_digits by done.
simpl String.length at 1. unfold scan_exponent. apply to_binary64_proper.
rewrite digits_val_append by done.
rewrite inject_Z_plus, inject_Z_mult.
pose proof (pow10_pos (Z.of_nat (String.length b))) as Hpos.
destruct neg; rewrite <-pow10_inject; change (10 ^ 0)%Q with 1%Q; field;
  intros E; rewrite E in Hpos; by apply Qlt_irrefl in Hpos.
Qed.

Lemma read_fixed_digits neg n f :
  (0 ≤ n)%Z →
  read_decimal neg (fixed_digits n f)
  = to_binary64 (if neg then - (inject_Z n / 10 ^ Z.of_nat f)
                 else inject_Z n / 10 ^ Z.of_nat f)
  ∧ ∃ c d s, fixed_digits n f = String c s ∧ digit_of c = Some d.
Proof.
intros Hn. destruct (pretty_abs_digits n Hn) as (Hd & Hv & Hl).
unfold fixed_digits. destruct f as [|f].
{ split.
  - rewrite read_decimal_integer by done. rewrite Hv.
    apply to_binary64_proper.
    destruct neg; change (Z.of_nat 0) with 0%Z; change (10 ^ 0)%Q with 1%Q;
      field.
  - destruct (digit_first _ Hd Hl) as (c & d & s & E & Hc). by exists c, d, s. }
set (k := String.length (pretty_abs n)).
set (m := if (k <=? S f)%nat then zeros (S f + 1 - k) +:+ pretty_abs n
          else pretty_abs n).
assert (str_forall is_digit m = true ∧ digits_val m = n
        ∧ (S f + 1 ≤ String.length m)%nat) as (Hmd & Hmv & Hml).
{ subst m. destruct (k <=? S f)%nat eqn:Hk.
  - apply Nat.leb_le in Hk. split; [|split].
    + by rewrite str_forall_append, str_forall_zeros, Hd.
    + rewrite digits_val_append by (done || apply str_forall_zeros).
      rewrite digits_val_zeros, Hv. lia.
    + rewrite length_append, length_zeros. fold k. lia.
  - apply Nat.leb_gt in Hk. fold k. split; [done|]. split; [done|lia]. }
set (j := (String.length m - S f)%nat).
assert (String.length (drop_str j m) = S f) as Hlb.
{ rewrite length_drop_str. subst j. lia. }
assert (String.length (take_str j m) = j) as Hla.
{ apply length_take_str. subst j. lia. }
split.
- rewrite read_decimal_fraction.
  + by rewrite take_drop_str, Hmv, Hlb.
  + by apply str_forall_take.
  + rewrite Hla. subst j. lia.
  + by apply str_forall_drop.
- destruct (digit_first (take_str j m)) as (c & d & s & E & Hc).
  + by apply str_forall_take.
  + rewrite Hla. subst j. lia.
  + exists c, d, (s +:+ "." +:+ drop_str j m). split; [|done].
    by rewrite E, append_cons.
Qed.

Lemma toFixed_finite q f :
  (Qabs q < 10 ^ 21)%Q →
  toFixed (Fin q) f
  = (if Qneg_bool q then "-" else "")
    +:+ fixed_digits (Qfloor (Qabs q * 10 ^ Z.of_nat f + (1 # 2))) f.
Proof.
intros Hq. unfold toFixed, fixed_digits.
replace (Qle_bool (10 ^ 21) (Qabs q)) with false; [done|].
symmetry. by apply Qle_bool_false.
Qed.

Lemma scaled_nonneg q f :
  (0 ≤ Qfloor (Qabs q * 10 ^ Z.of_nat f + (1 # 2)))%Z.
Proof.
change 0%Z with (Qfloor 0). apply Qfloor_resp_le.
pose proof (Qabs_nonneg q). pose proof (pow10_pos (Z.of_nat f)).
apply (Qle_trans _ (0 * 0 + 0)); [done|].
apply Qplus_le_compat; [|done].
apply Qmult_le_compat_nonneg; split; try done. by apply Qlt_le_weak.
Qed.

(** Below [10^21], the text [x.toFixed(f)] is read back by [parseFloat] as
    the binary64 value nearest to [x] rounded to [f] decimal places. *)
Lemma parseFloat_toFixed q f :
  (Qabs q < 10 ^ 21)%Q →
  parseFloat (toFixed (Fin q) f) = to_binary64 (round_decimals f q).
Proof.
intros Hq. rewrite toFixed_finite by done.
set (n := Qfloor (Qabs q * 10 ^ Z.of_nat f + (1 # 2))).
pose proof (scaled_nonneg q f) as Hn. fold n in Hn.
unfold round_decimals. fold n.
pose proof (pow10_pos (Z.of_nat f)) as Hpos.
assert (¬ (10 ^ Z.of_nat f == 0)%Q) as Hne.
{ intros E. rewrite E in Hpos. by apply Qlt_irrefl in Hpos. }
unfold parseFloat. destruct (Qneg_bool q).
- change ("-" +:+ fixed_digits n f) with (String "-" (fixed_digits n f)).
  rewrite trim_start_visible by (vm_compute; split; discriminate).
  simpl split_sign.
  destruct (read_fixed_digits true n f Hn) as [-> _].
  apply to_binary64_proper. rewrite inject_Z_opp. by field.
- rewrite append_nil.
  destruct (read_fixed_digits false n f Hn) as [Hr (c & d & s & E & Hc)].
  rewrite E in *.
  destruct (digit_not_sign c d Hc) as (Hm & Hp & _).
  pose proof (digit_of_code c d Hc).
  rewrite trim_start_visible by lia.
  rewrite split_sign_unsigned by done. by rewrite Hr.
Qed.

End ToFixed.
(** * Sums and means *)

Section Sums.
Implicit Types (C : list NormalizedResponse) (item : NormalizedResponse)
  (k : question) (x acc : number) (l : list number).

Lemma scores_not_NaN_score item k :
  scores_not_NaN item = true → isNaN (score k item) = false.
Proof.
unfold scores_not_NaN, questions. simpl. intros H.
repeat (apply andb_prop in H as [? H]). destruct k; by apply negb_true_iff.
Qed.

(** [acc + (x || 0)] is [acc + x] unless [x] is [NaN]. *)
Lemma num_add_or_zero acc x :
  isNaN x = false → num_add acc (or_zero x) = num_add acc x.
Proof.
destruct x as [|neg|q]; [discriminate|done|]. intros _.
unfold or_zero. simpl. destruct (Qzero_bool q) eqn:Hq; simpl; [|done].
apply Qeq_bool_iff in Hq. destruct acc as [| |a]; simpl; try done.
apply to_binary64_proper. by rewrite Hq.
Qed.

Lemma fold_question_scores item (ks : list question) acc n :
  scores_not_NaN item = true →
  fold_left
    (fun '(totalScoreSum, totalItems) i =>
       (num_add totalScoreSum (or_zero (score i item)), S totalItems))
    ks (acc, n)
  = (fold_left num_add (map (fun k => score k item) ks) acc, (n + length ks)%nat).
Proof.
intros Hf. revert acc n. induction ks as [|k ks IH]; intros acc n; simpl.
{ by rewrite Nat.add_0_r. }
rewrite IH, num_add_or_zero.
- f_equal. lia.
- by apply scores_not_NaN_score.
Qed.

Lemma fold_all_scores C acc n :
  Forall (fun item => scores_not_NaN item = true) C →
  fold_left
    (fun st item =>
       fold_left
         (fun '(totalScoreSum, totalItems) i =>
            (num_add totalScoreSum (or_zero (score i item)), S totalItems))
         questions st)
    C (acc, n)
  = (fold_left num_add (flat_map scores C) acc, (n + length C * 8)%nat).
Proof.
intros HC. revert acc n. induction HC as [|item C Hitem _ IH]; intros acc n.
{ simpl. by rewrite Nat.add_0_r. }
cbn [fold_left flat_map]. rewrite fold_question_scores by done.
rewrite IH, fold_left_app. f_equal. simpl. lia.
Qed.

Lemma fold_one_question k C acc :
  Forall (fun item => scores_not_NaN item = true) C →
  fold_left (fun sum cur => num_add sum (or_zero (score k cur))) C acc
  = fold_left num_add (map (score k) C) acc.
Proof.
intros HC. revert acc. induction HC as [|item C Hitem _ IH]; intros acc; [done|].
simpl. rewrite IH, num_add_or_zero; [done|].
by apply scores_not_NaN_score.
Qed.

Lemma fold_count {A} (p : A → bool) (l : list A) (n : nat) :
  fold_left (fun n i => if p i then S n else n) l n
  = (n + length (filter (fun i => p i) l))%nat.
Proof.
revert n. induction l as [|i l IH]; intros n; simpl; [lia|].
rewrite IH, filter_cons. destruct (p i); simpl; lia.
Qed.

Lemma Qzero_bool_of_nat n : Qzero_bool (inject_Z (Z.of_nat (S n))) = false.
Proof.
unfold Qzero_bool. destruct (Qeq_bool _ _) eqn:E; [|done].
apply Qeq_bool_iff in E. unfold Qeq in E. simpl in E. lia.
Qed.

Lemma num_div_of_nat q n :
  num_div (Fin q) (num_of_nat (S n))
  = to_binary64 (q / inject_Z (Z.of_nat (S n))).
Proof.
unfold num_div, num_of_nat, num_of_Z. by rewrite Qzero_bool_of_nat.
Qed.

Lemma in_range_Fin x :
  in_range x = true → ∃ q, x = Fin q ∧ (0 <= q)%Q ∧ (q <= 5)%Q.
Proof.
destruct x as [|[]|q]; try discriminate.
unfold in_range. simpl. intros H. apply andb_prop in H as [H0 H5].
apply Qle_bool_iff in H0, H5. by exists q.
Qed.

Lemma whole_in_scale_Fin x :
  whole_in_scale x = true →
  ∃ q z, x = Fin q ∧ (q == inject_Z z)%Q ∧ (0 ≤ z ≤ 5)%Z.
Proof.
destruct x as [| |q]; try discriminate. simpl. intros H.
apply andb_prop in H as [H H5]. apply andb_prop in H as [Hz H0].
apply Qeq_bool_iff in Hz. apply Qle_bool_iff in H0, H5.
exists q, (Qfloor q). split; [done|]. split; [done|].
rewrite Hz in H0, H5. change 0%Q with (inject_Z 0) in H0.
change 5%Q with (inject_Z 5) in H5. rewrite <-Zle_Qle in H0, H5. lia.
Qed.

Lemma whole_in_range x : whole_in_scale x = true → in_range x = true.
Proof.
destruct x as [| |q]; try discriminate. simpl. intros H.
apply andb_prop in H as [H H5]. apply andb_prop in H as [_ H0].
unfold in_range. simpl. by rewrite H0, H5.
Qed.

(** The binary64 sum of numbers of [[0, 5]], as long as binary64 holds
    five times their count: it stays between [0] and that bound. *)
Lemma sum_in_range l a (A : Z) :
  Forall (fun x => in_range x = true) l →
  (0 <= a)%Q → (a <= inject_Z A)%Q →
  (A + 5 * Z.of_nat (length l) ≤ 2 ^ 53)%Z →
  ∃ s, fold_left num_add l (Fin a) = Fin s
    ∧ (0 <= s)%Q ∧ (s <= inject_Z (A + 5 * Z.of_nat (length l)))%Q.
Proof.
intros Hl. revert a A. induction Hl as [|x l Hx _ IH]; intros a A Ha0 HaA Hlen.
{ exists a. split; [done|]. split; [done|]. simpl length.
  by replace (A + 5 * Z.of_nat 0)%Z with A by lia. }
destruct (in_range_Fin x Hx) as (q & -> & H0 & H5).
simpl length in Hlen. simpl fold_left. cbn [num_add].
destruct (to_binary64_le_Z (a + q) (A + 5)) as (v & -> & Hv0 & Hv5).
{ lra. }
{ rewrite inject_Z_plus. change (inject_Z 5) with 5%Q. lra. }
{ lia. }
destruct (IH v (A + 5)%Z Hv0 Hv5) as (s & -> & Hs0 & Hs); [lia|].
exists s. split; [done|]. split; [done|]. simpl length.
by replace (A + 5 * Z.of_nat (S (length l)))%Z
  with (A + 5 + 5 * Z.of_nat (length l))%Z by lia.
Qed.

(** The binary64 sum of whole scores is their exact sum, as long as
    binary64 holds five times their count. *)
Lemma sum_whole l (A : Z) :
  Forall (fun x => whole_in_scale x = true) l →
  (0 ≤ A)%Z → (A + 5 * Z.of_nat (length l) ≤ 2 ^ 53)%Z →
  ∃ S : Z, fold_left num_add l (Fin (inject_Z A)) = Fin (inject_Z (A + S))
    ∧ (inject_Z S == exact_sum l)%Q ∧ (0 ≤ S ≤ 5 * Z.of_nat (length l))%Z.
Proof.
intros Hl. revert A. induction Hl as [|x l Hx _ IH]; intros A HA Hlen.
{ exists 0%Z. split; [by rewrite Z.add_0_r|]. split; [done|]. simpl. lia. }
destruct (whole_in_scale_Fin x Hx) as (q & z & -> & Hq & Hz).
simpl length in Hlen. simpl fold_left. cbn [num_add].
assert (inject_Z A + q == inject_Z (A + z))%Q as E.
{ by rewrite inject_Z_plus, Hq. }
rewrite (to_binary64_proper _ _ E), to_binary64_Z by lia.
destruct (IH (A + z)%Z) as (S' & -> & HS' & Hb); [lia|lia|].
exists (z + S')%Z. split; [by rewrite Z.add_assoc|]. split.
- cbn [exact_sum fold_right Qof]. fold (exact_sum l).
  by rewrite inject_Z_plus, HS', Hq.
- simpl length. lia.
Qed.

Lemma length_flat_map_scores C : length (flat_map scores C) = (length C * 8)%nat.
Proof. induction C as [|item C IH]; [done|]. simpl. by rewrite IH. Qed.

Lemma Forall_flat_map_scores (P : number → Prop) C :
  Forall (fun item => Forall P (scores item)) C → Forall P (flat_map scores C).
Proof.
induction 1 as [|item C Hitem _ IH]; [constructor|].
cbn [flat_map]. apply Forall_app. by split.
Qed.

Lemma inject_Z_nat_pos (n : nat) : (0 < inject_Z (Z.of_nat (S n)))%Q.
Proof. change 0%Q with (inject_Z 0). rewrite <-Zlt_Qlt. lia. Qed.

(** The binary64 mean of [n] numbers of [[0, 5]] is in [[0, 5]]. *)
Lemma mean_in_range l (n : nat) :
  Forall (fun x => in_range x = true) l → length l = S n →
  (5 * Z.of_nat (S n) ≤ 2 ^ 53)%Z →
  ∀ d, (0 < d)%nat → (Z.of_nat (length l) ≤ Z.of_nat d)%Z →
  ∃ mean, num_div (fold_left num_add l (Fin 0)) (num_of_nat d) = Fin mean
    ∧ (0 <= mean)%Q ∧ (mean <= 5)%Q.
Proof.
intros Hl Hlen Hn d Hd Hld.
destruct (sum_in_range l 0 0 Hl) as (s & -> & Hs0 & Hs); [done|done|lia|].
destruct d as [|d]; [lia|]. rewrite num_div_of_nat.
pose proof (inject_Z_nat_pos d) as Hpos.
rewrite Z.add_0_l, inject_Z_mult in Hs. change (inject_Z 5) with 5%Q in Hs.
assert (inject_Z (Z.of_nat (length l)) <= inject_Z (Z.of_nat (S d)))%Q as Hq
  by (by rewrite <-Zle_Qle).
destruct (to_binary64_le_Z (s / inject_Z (Z.of_nat (S d))) 5) as (v & -> & H0 & H5).
- apply Qle_shift_div_l; [done|]. lra.
- apply Qle_shift_div_r; [done|]. change (inject_Z 5) with 5%Q. lra.
- lia.
- exists v. split; [done|]. by split.
Qed.

(** Rounding to [f] places keeps a value of [[0, 5]] in [[0, 5]]. *)
Lemma round_decimals_in_range f q :
  (0 <= q)%Q → (q <= 5)%Q →
  (0 <= round_decimals f q)%Q ∧ (round_decimals f q <= 5)%Q.
Proof.
intros H0 H5. unfold round_decimals.
replace (Qneg_bool q) with false by (symmetry; by apply Qneg_bool_false).
set (P := (10 ^ Z.of_nat f)%Q).
assert (0 < P)%Q as HP by apply pow10_pos.
assert (P == inject_Z (10 ^ Z.of_nat f))%Q as HPz by apply pow10_inject.
set (n := Qfloor (Qabs q * P + (1 # 2))).
assert (0 ≤ n)%Z as Hn by apply scaled_nonneg.
assert (n ≤ 5 * 10 ^ Z.of_nat f)%Z as Hn5.
{ assert (Qabs q * P + (1 # 2) < inject_Z (5 * 10 ^ Z.of_nat f + 1))%Q as Hlt.
  { rewrite inject_Z_plus, inject_Z_mult, <-HPz.
    rewrite (Qabs_pos q H0). change (inject_Z 5) with 5%Q.
    change (inject_Z 1) with 1%Q.
    assert (q * P <= 5 * P)%Q by (apply Qmult_le_compat_r; [done|lra]). lra. }
  pose proof (Qfloor_le (Qabs q * P + (1 # 2))) as Hfl. fold n in Hfl.
  assert (inject_Z n < inject_Z (5 * 10 ^ Z.of_nat f + 1))%Q as Hz by lra.
  rewrite <-Zlt_Qlt in Hz. lia. }
split.
- apply Qle_shift_div_l; [done|]. rewrite Qmult_0_l.
  change 0%Q with (inject_Z 0). by rewrite <-Zle_Qle.
- apply Qle_shift_div_r; [done|]. rewrite HPz.
  change 5%Q with (inject_Z 5). rewrite <-inject_Z_mult. by rewrite <-Zle_Qle.
Qed.

(** The text [toFixed] prints for a value of [[0, 5]] reads back as a value
    of [[0, 5]]. *)
Lemma text_in_range (mean : Q) f :
  (0 <= mean)%Q → (mean <= 5)%Q →
  ∃ a, parseFloat (toFixed (Fin mean) f) = Fin a ∧ (0 <= a)%Q ∧ (a <= 5)%Q.
Proof.
intros H0 H5.
assert (Qabs mean < 10 ^ 21)%Q as Hfin.
{ rewrite (Qabs_pos mean H0). apply (Qle_lt_trans _ 5); [done|reflexivity]. }
rewrite parseFloat_toFixed by done.
destruct (round_decimals_in_range f mean H0 H5) as [Hr0 Hr5].
destruct (to_binary64_le_Z (round_decimals f mean) 5 Hr0 Hr5 ltac:(lia))
  as (a & -> & Ha0 & Ha5).
by exists a.
Qed.

End Sums.
Section Means.
Implicit Types (S N P m z : Z) (v q : Q).

Lemma pow2_m51 : (2 ^ (-51) == 1 # 2251799813685248)%Q.
Proof. reflexivity. Qed.

(** A rational of [[0, 5]] is rounded within [2^-51], inside [[0, 5]]. *)
Lemma to_binary64_scale q :
  (0 <= q)%Q → (q <= 5)%Q →
  ∃ v, to_binary64 q = Fin v ∧ (0 <= v)%Q ∧ (v <= 5)%Q
    ∧ (q - 2 ^ (-51) <= v)%Q ∧ (v <= q + 2 ^ (-51))%Q.
Proof.
intros H0 H5.
destruct (to_binary64_le_Z q 5 H0 H5 ltac:(lia)) as (v & Hv & Hv0 & Hv5).
destruct (to_binary64_near q (-50) H0) as (v' & Hv' & Hlo & Hhi).
{ apply (Qle_lt_trans _ 5); [done|]. reflexivity. }
{ lia. }
assert (v' = v) as -> by congruence.
exists v. repeat split; done.
Qed.

Lemma Qlt_bool_true a b : Qlt_bool a b = true ↔ (a < b)%Q.
Proof.
unfold Qlt_bool. destruct (Qcompare_spec a b) as [E|E|E].
- split; [done|]. intros H. rewrite E in H. by apply Qlt_irrefl in H.
- done.
- split; [done|]. intros H. exfalso. apply (Qlt_irrefl a). by eapply Qlt_trans.
Qed.

Lemma Qlt_bool_false a b : Qlt_bool a b = false ↔ (b <= a)%Q.
Proof.
split.
- intros H. apply Qnot_lt_le. intros Hlt. apply Qlt_bool_true in Hlt. congruence.
- intros H. destruct (Qlt_bool a b) eqn:E; [|done].
  apply Qlt_bool_true in E. by apply Qlt_not_le in E.
Qed.

Lemma Qlt_bool_proper a a' b : (a == a')%Q → Qlt_bool a b = Qlt_bool a' b.
Proof. intros E. unfold Qlt_bool. by rewrite E. Qed.

Lemma num_ltb_below x q : num_ltb x (Fin q) = num_below q x.
Proof.
destruct x as [|[]|a]; try done. simpl.
destruct (Qlt_bool a q) eqn:E.
- apply Qlt_bool_true in E. apply negb_true_iff, Qle_bool_false. done.
- apply Qlt_bool_false in E. apply negb_false_iff, Qle_bool_iff. done.
Qed.

(** The quotient of two integers, rounded, is below [3.5] exactly when the
    quotient is: a quotient below [3.5] is below it by [1 / (2 N)] at
    least. *)
Lemma below_threshold S N v :
  (0 < N)%Z → (N < 2 ^ 32)%Z → (0 ≤ S ≤ 5 * N)%Z →
  to_binary64 (inject_Z S / inject_Z N) = Fin v →
  Qlt_bool v (7 # 2) = Qlt_bool (inject_Z S / inject_Z N) (7 # 2).
Proof.
intros HN HN32 HS Hv.
assert (0 < inject_Z N)%Q as HNq by (change 0%Q with (inject_Z 0); by rewrite <-Zlt_Qlt).
set (x := (inject_Z S / inject_Z N)%Q) in *.
assert (0 <= x)%Q as Hx0.
{ apply Qle_shift_div_l; [done|]. rewrite Qmult_0_l.
  change 0%Q with (inject_Z 0). rewrite <-Zle_Qle. lia. }
assert (x <= 5)%Q as Hx5.
{ apply Qle_shift_div_r; [done|]. change 5%Q with (inject_Z 5).
  rewrite <-inject_Z_mult, <-Zle_Qle. lia. }
destruct (to_binary64_scale x Hx0 Hx5) as (v' & Hv' & Hv0 & Hv5 & Hlo & Hhi).
assert (v' = v) as -> by congruence.
destruct (Qlt_bool x (7 # 2)) eqn:E.
- apply Qlt_bool_true in E. apply Qlt_bool_true.
  assert (2 * S < 7 * N)%Z as HZ.
  { apply (Qmult_lt_r _ _ (inject_Z N)) in E; [|done].
    unfold x in E. rewrite Qmult_comm, Qmult_div_r in E
      by (intros E0; rewrite E0 in HNq; by apply Qlt_irrefl in HNq).
    assert (inject_Z (2 * S) < inject_Z (7 * N))%Q as H.
    { rewrite !inject_Z_mult. change (inject_Z 2) with 2%Q.
      change (inject_Z 7) with 7%Q. lra. }
    by rewrite <-Zlt_Qlt in H. }
  assert (x + (1 # 2) / inject_Z N <= 7 # 2)%Q as Hgap.
  { apply (Qmult_le_r _ _ (inject_Z N)); [done|].
    assert ((x + (1 # 2) / inject_Z N) * inject_Z N == inject_Z S + (1 # 2))%Q as ->.
    { unfold x. field. intros E0. rewrite E0 in HNq. by apply Qlt_irrefl in HNq. }
    assert (inject_Z (2 * S + 1) <= inject_Z (7 * N))%Q as H
      by (rewrite <-Zle_Qle; lia).
    rewrite inject_Z_plus, !inject_Z_mult in H. change (inject_Z 2) with 2%Q in H.
    change (inject_Z 7) with 7%Q in H. change (inject_Z 1) with 1%Q in H. lra. }
  assert (2 ^ (-51) < (1 # 2) / inject_Z N)%Q as Hsmall.
  { apply Qlt_shift_div_l; [done|]. rewrite pow2_m51.
    assert (inject_Z N < inject_Z (2 ^ 32))%Q as H by (by rewrite <-Zlt_Qlt).
    change (inject_Z (2 ^ 32)) with (4294967296 # 1)%Q in H. lra. }
  lra.
- apply Qlt_bool_false in E. apply Qlt_bool_false.
  destruct (to_binary64_ge x 7 (-1)) as [H|(v' & Hv'' & Hge)]; try lia.
  + change (inject_Z 7 * 2 ^ (-1))%Q with ((7 # 1) * (1 # 2))%Q. lra.
  + congruence.
  + assert (v' = v) as -> by congruence.
    change (inject_Z 7 * 2 ^ (-1))%Q with ((7 # 1) * (1 # 2))%Q in Hge. lra.
Qed.

(** The decimal [toFixed] prints for the rounded quotient of two integers is
    a nearest decimal of the quotient itself: the rounding of the quotient
    is too small to move it past another decimal. *)
Lemma nearest_decimal S N P v :
  (0 < N)%Z → (0 < P)%Z → (2 * N * P < 2 ^ 51)%Z →
  (inject_Z S / inject_Z N - 2 ^ (-51) <= v)%Q →
  (v <= inject_Z S / inject_Z N + 2 ^ (-51))%Q →
  (Qabs (inject_Z (Qfloor (v * inject_Z P + (1 # 2))) / inject_Z P
         - inject_Z S / inject_Z N) <= (1 # 2) / inject_Z P)%Q.
Proof.
intros HN HP Hsmall Hlo Hhi.
set (m := Qfloor (v * inject_Z P + (1 # 2))).
pose proof (Qfloor_le (v * inject_Z P + (1 # 2))) as Hm1.
pose proof (Qlt_floor (v * inject_Z P + (1 # 2))) as Hm2.
fold m in Hm1, Hm2. rewrite inject_Z_plus in Hm2.
change (inject_Z 1) with 1%Q in Hm2.
assert (0 < inject_Z N)%Q as HNq by (change 0%Q with (inject_Z 0); by rewrite <-Zlt_Qlt).
assert (0 < inject_Z P)%Q as HPq by (change 0%Q with (inject_Z 0); by rewrite <-Zlt_Qlt).
assert (¬ inject_Z N == 0)%Q as HNne
  by (intros E0; rewrite E0 in HNq; by apply Qlt_irrefl in HNq).
assert (¬ inject_Z P == 0)%Q as HPne
  by (intros E0; rewrite E0 in HPq; by apply Qlt_irrefl in HPq).
rewrite pow2_m51 in Hlo, Hhi.
assert (inject_Z (2 * (N * P)) < inject_Z (2 ^ 51))%Q as Hs
  by (rewrite <-Zlt_Qlt; lia).
rewrite !inject_Z_mult in Hs. change (inject_Z 2) with 2%Q in Hs.
change (inject_Z (2 ^ 51)) with (2251799813685248 # 1)%Q in Hs.
set (Nq := inject_Z N) in *. set (Pq := inject_Z P) in *.
set (Sq := inject_Z S) in *. set (mq := inject_Z m) in *.
(* scaled by N P *)
assert (v * Pq * Nq <= Sq * Pq + (1 # 2251799813685248) * (Nq * Pq))%Q as Hup.
{ assert (v * Pq * Nq == v * (Nq * Pq))%Q as -> by ring.
  assert (Sq * Pq + (1 # 2251799813685248) * (Nq * Pq)
          == (Sq / Nq + (1 # 2251799813685248)) * (Nq * Pq))%Q as -> by (by field).
  apply Qmult_le_compat_r; [done|]. apply Qlt_le_weak. by apply Qmult_lt_0_compat. }
assert (Sq * Pq - (1 # 2251799813685248) * (Nq * Pq) <= v * Pq * Nq)%Q as Hdn.
{ assert (v * Pq * Nq == v * (Nq * Pq))%Q as -> by ring.
  assert (Sq * Pq - (1 # 2251799813685248) * (Nq * Pq)
          == (Sq / Nq - (1 # 2251799813685248)) * (Nq * Pq))%Q as -> by (by field).
  apply Qmult_le_compat_r; [done|]. apply Qlt_le_weak. by apply Qmult_lt_0_compat. }
assert (mq * Nq <= (v * Pq + (1 # 2)) * Nq)%Q as Hm1'
  by (apply Qmult_le_compat_r; [done|by apply Qlt_le_weak]).
assert ((v * Pq + (1 # 2)) * Nq < (mq + 1) * Nq)%Q as Hm2'
  by (by apply Qmult_lt_compat_r).
assert (inject_Z (2 * (m * N) - 2 * (S * P) - N) < 1)%Q as HZ1.
{ unfold Z.sub. rewrite !inject_Z_plus, !inject_Z_opp, !inject_Z_mult.
  change (inject_Z 2) with 2%Q. fold Nq Pq Sq mq.
  set (a := (mq * Nq)%Q) in *. set (b := (Sq * Pq)%Q) in *.
  set (c := (Nq * Pq)%Q) in *. set (w := (v * Pq * Nq)%Q) in *.
  assert ((v * Pq + (1 # 2)) * Nq == w + (1 # 2) * Nq)%Q as E by (unfold w; ring).
  rewrite E in Hm1'. lra. }
assert (-1 < inject_Z (2 * (m * N) - 2 * (S * P) + N))%Q as HZ2.
{ unfold Z.sub. rewrite !inject_Z_plus, !inject_Z_opp, !inject_Z_mult.
  change (inject_Z 2) with 2%Q. fold Nq Pq Sq mq.
  set (a := (mq * Nq)%Q) in *. set (b := (Sq * Pq)%Q) in *.
  set (c := (Nq * Pq)%Q) in *. set (w := (v * Pq * Nq)%Q) in *.
  assert ((v * Pq + (1 # 2)) * Nq == w + (1 # 2) * Nq)%Q as E by (unfold w; ring).
  assert ((mq + 1) * Nq == a + Nq)%Q as E' by (unfold a; ring).
  rewrite E, E' in Hm2'. lra. }
change 1%Q with (inject_Z 1) in HZ1. rewrite <-Zlt_Qlt in HZ1.
change (-1)%Q with (inject_Z (-1)) in HZ2. rewrite <-Zlt_Qlt in HZ2.
assert (inject_Z (2 * (m * N) - 2 * (S * P)) <= inject_Z N)%Q as G1
  by (rewrite <-Zle_Qle; lia).
assert (- inject_Z N <= inject_Z (2 * (m * N) - 2 * (S * P)))%Q as G2
  by (rewrite <-inject_Z_opp, <-Zle_Qle; lia).
unfold Z.sub in G1, G2.
rewrite !inject_Z_plus, !inject_Z_opp, !inject_Z_mult in G1, G2.
change (inject_Z 2) with 2%Q in G1, G2. fold Nq Pq Sq mq in G1, G2.
apply Qabs_Qle_condition.
assert (0 < 2 * Nq * Pq)%Q as Hc.
{ apply Qmult_lt_0_compat; [|done]. apply Qmult_lt_0_compat; [done|done]. }
split.
- apply (Qmult_le_r _ _ (2 * Nq * Pq)); [done|].
  assert (- ((1 # 2) / Pq) * (2 * Nq * Pq) == - Nq)%Q as -> by (by field).
  assert ((mq / Pq - Sq / Nq) * (2 * Nq * Pq) == 2 * (mq * Nq) + - (2 * (Sq * Pq)))%Q
    as -> by (by field).
  done.
- apply (Qmult_le_r _ _ (2 * Nq * Pq)); [done|].
  assert ((1 # 2) / Pq * (2 * Nq * Pq) == Nq)%Q as -> by (by field).
  assert ((mq / Pq - Sq / Nq) * (2 * Nq * Pq) == 2 * (mq * Nq) + - (2 * (Sq * Pq)))%Q
    as -> by (by field).
  done.
Qed.

End Means.
(** * The metrics aggregator and the profile builder *)

Section Aggregator.
Implicit Types (C : list NormalizedResponse) (item : NormalizedResponse)
  (k : question).

Lemma forallb_Forall {T} (p : T → bool) (l : list T) :
  forallb p l = true → Forall (fun x => p x = true) l.
Proof.
induction l as [|x l IH]; simpl; [by constructor|].
intros H. apply andb_prop in H as [Hx Hl]. constructor; auto.
Qed.

Lemma length_eqb_cons item C : (length (item :: C) =? 0)%nat = false.
Proof. reflexivity. Qed.

Lemma stats_empty : stats [] =
  {| totalCount := 0; avgSatisfaction := JNum (Fin 0); itemsToImprove := 0 |}.
Proof. reflexivity. Qed.

Lemma stats_nonempty C :
  C ≠ [] → Forall (fun item => scores_not_NaN item = true) C →
  stats C =
  {| totalCount := length C;
     avgSatisfaction :=
       JStr (toFixed (num_div (total_score C) (num_of_nat (length C * 8))) 1);
     itemsToImprove :=
       length (filter (fun k => num_below (7 # 2) (question_mean k C))
                      questions) |}.
Proof.
intros Hne HC. destruct C as [|item C]; [done|].
unfold stats. rewrite length_eqb_cons.
rewrite (fold_all_scores (item :: C) (Fin 0) 0 HC).
cbv zeta. cbv beta iota.
change (0 + length (item :: C) * 8 =? 0)%nat with false.
change (0 + length (item :: C) * 8)%nat with (length (item :: C) * 8)%nat.
cbv iota. f_equal.
etrans; [apply (fold_count
  (fun i => num_ltb
     (num_div
        (fold_left (fun acc cur => num_add acc (or_zero (score i cur)))
                   (item :: C) (Fin 0))
        (num_of_nat (length (item :: C)))) (Fin (7 # 2))))|].
rewrite Nat.add_0_l. f_equal. apply list_filter_iff. intros k.
unfold question_mean, sum_numbers.
by rewrite (fold_one_question k (item :: C) (Fin 0) HC), num_ltb_below.
Qed.

Lemma Z_of_nat_mul8 (n : nat) : Z.of_nat (n * 8) = (Z.of_nat n * 8)%Z.
Proof. lia. Qed.

(** The sums of whole scores are exact. *)
Lemma whole_total C :
  forallb (fun item => forallb whole_in_scale (scores item)) C = true →
  (Z.of_nat (length C) < 2 ^ 32)%Z →
  ∃ S : Z, total_score C = Fin (inject_Z S)
    ∧ (inject_Z S == exact_sum (flat_map scores C))%Q
    ∧ (0 ≤ S ≤ 5 * Z.of_nat (length C * 8))%Z.
Proof.
intros HC Hlen. unfold total_score, sum_numbers.
destruct (sum_whole (flat_map scores C) 0) as (S & HS & HE & Hb).
- apply Forall_flat_map_scores. apply forallb_Forall in HC.
  eapply Forall_impl; [exact HC|]. intros item Hitem. cbv beta in Hitem.
  by apply forallb_Forall.
- done.
- rewrite length_flat_map_scores. lia.
- exists S. rewrite Z.add_0_l in HS. rewrite length_flat_map_scores in Hb.
  by split.
Qed.

Lemma whole_question k C :
  forallb (fun item => whole_in_scale (score k item)) C = true →
  (Z.of_nat (length C) < 2 ^ 32)%Z →
  ∃ S : Z, sum_numbers (map (score k) C) = Fin (inject_Z S)
    ∧ (inject_Z S == exact_sum (map (score k) C))%Q
    ∧ (0 ≤ S ≤ 5 * Z.of_nat (length C))%Z.
Proof.
intros HC Hlen. unfold sum_numbers.
destruct (sum_whole (map (score k) C) 0) as (S & HS & HE & Hb).
- apply Forall_map. by apply forallb_Forall in HC.
- done.
- rewrite length_map. lia.
- exists S. rewrite Z.add_0_l in HS. rewrite length_map in Hb. by split.
Qed.

Lemma whole_scores_score k item :
  forallb whole_in_scale (scores item) = true →
  whole_in_scale (score k item) = true.
Proof.
unfold scores, questions. simpl. intros H.
repeat (apply andb_prop in H as [? H]). by destruct k.
Qed.

Lemma Qfloor_proper (a b : Q) : (a == b)%Q → Qfloor a = Qfloor b.
Proof. intros E. by rewrite E. Qed.

(** The text [toFixed] prints for the binary64 quotient [S / N] of a sum of
    whole scores by a count: a decimal nearest to the exact quotient. *)
Lemma whole_mean_text (S : Z) (n f : nat) :
  (0 ≤ S ≤ 5 * Z.of_nat (Datatypes.S n))%Z →
  (2 * (Z.of_nat (Datatypes.S n) * 10 ^ Z.of_nat f) < 2 ^ 51)%Z →
  ∃ m : Z,
    (0 ≤ m)%Z
    ∧ toFixed (num_div (Fin (inject_Z S)) (num_of_nat (Datatypes.S n))) f
      = fixed_digits m f
    ∧ parseFloat (toFixed (num_div (Fin (inject_Z S))
                             (num_of_nat (Datatypes.S n))) f)
      = to_binary64 (inject_Z m / 10 ^ Z.of_nat f)
    ∧ (Qabs (inject_Z m / 10 ^ Z.of_nat f
             - inject_Z S / inject_Z (Z.of_nat (Datatypes.S n)))
       <= (1 # 2) / 10 ^ Z.of_nat f)%Q.
Proof.
intros HS Hsmall. rewrite num_div_of_nat.
set (N := Z.of_nat (Datatypes.S n)) in *.
assert (0 < N)%Z as HN by (subst N; lia).
assert (0 < inject_Z N)%Q as HNq
  by (change 0%Q with (inject_Z 0); by rewrite <-Zlt_Qlt).
set (x := (inject_Z S / inject_Z N)%Q).
assert (0 <= x)%Q as Hx0.
{ apply Qle_shift_div_l; [done|]. rewrite Qmult_0_l.
  change 0%Q with (inject_Z 0). rewrite <-Zle_Qle. lia. }
assert (x <= 5)%Q as Hx5.
{ apply Qle_shift_div_r; [done|]. change 5%Q with (inject_Z 5).
  rewrite <-inject_Z_mult, <-Zle_Qle. lia. }
destruct (to_binary64_scale x Hx0 Hx5) as (v & -> & Hv0 & Hv5 & Hlo & Hhi).
assert (Qabs v == v)%Q as Habs by (by apply Qabs_pos).
assert (Qabs v < 10 ^ 21)%Q as Hfin.
{ rewrite Habs. apply (Qle_lt_trans _ 5); [done|reflexivity]. }
assert (Qneg_bool v = false) as Hneg by (by apply Qneg_bool_false).
set (m := Qfloor (v * inject_Z (10 ^ Z.of_nat f) + (1 # 2))).
assert (Qfloor (Qabs v * 10 ^ Z.of_nat f + (1 # 2)) = m) as Hm.
{ apply Qfloor_proper. by rewrite Habs, pow10_inject. }
exists m. split; [|split; [|split]].
- rewrite <-Hm. apply scaled_nonneg.
- rewrite toFixed_finite by done. by rewrite Hneg, Hm.
- rewrite parseFloat_toFixed by done. apply to_binary64_proper.
  unfold round_decimals. by rewrite Hneg, Hm.
- rewrite pow10_inject. apply nearest_decimal; [done| |lia|done|done].
  apply Z.pow_pos_nonneg; lia.
Qed.

(** C1, as the code has it.  For every filtered collection [C] of the
    records of a JSON body, [totalCount] is the size of [C]; when [C] is
    empty, [avgSatisfaction] and [itemsToImprove] are the constant [0], with
    no division.  Otherwise [avgSatisfaction] is the text [toFixed(1)]
    prints for the binary64 quotient of the binary64 sum of all scores by
    eight times the size, and [itemsToImprove] is the number of questions
    whose binary64 mean is strictly below [3.5].  When every score is a
    whole number from [0] to [5], the sums are exact: the text is a decimal
    with one place nearest to the exact mean, either of the two on a tie,
    and [itemsToImprove] is the number of questions whose exact mean is
    strictly below [3.5]. *)
Theorem stats_spec body formatted d s (C := filteredData formatted d s) :
  json body = true →
  formattedData body = Ok formatted →
  totalCount (stats C) = length C
  ∧ (C = [] →
     avgSatisfaction (stats C) = JNum (Fin 0) ∧ itemsToImprove (stats C) = O)
  ∧ (C ≠ [] →
     avgSatisfaction (stats C)
     = JStr (toFixed (num_div (total_score C) (num_of_nat (length C * 8))) 1)
     ∧ itemsToImprove (stats C)
       = length (filter (fun k => num_below (7 # 2) (question_mean k C))
                        questions))
  ∧ (C ≠ [] → (Z.of_nat (length C) < 2 ^ 32)%Z →
     forallb (fun item => forallb whole_in_scale (scores item)) C = true →
     (∃ m : Z,
        (0 ≤ m)%Z
        ∧ avgSatisfaction (stats C) = JStr (fixed_digits m 1)
        ∧ (Qabs (inject_Z m / 10 - exact_total_mean C) <= 1 # 20)%Q)
     ∧ itemsToImprove (stats C)
       = length (filter (fun k => Qlt_bool (exact_mean k C) (7 # 2))
                        questions)).
Proof.
intros Hj Hf.
pose proof (filteredData_not_NaN formatted d s
              (formattedData_not_NaN body formatted Hj Hf)) as HC.
fold C in HC. apply forallb_Forall in HC.
split; [|split; [|split]].
- destruct C as [|item C']; [done|]. by rewrite stats_nonempty.
- by intros ->.
- intros Hne. by rewrite stats_nonempty.
- intros Hne Hlen Hwhole. rewrite stats_nonempty by done.
  cbn [avgSatisfaction itemsToImprove].
  destruct C as [|item C'] eqn:EC; [done|]. rewrite <-EC in *.
  assert (length C = Datatypes.S (length C')) as Hl by (by rewrite EC).
  split.
  + destruct (whole_total C Hwhole Hlen) as (S & -> & HE & Hb).
    assert (length C * 8 = Datatypes.S (length C' * 8 + 7))%nat as Hl8 by lia.
    rewrite Hl8 in *.
    destruct (whole_mean_text S (length C' * 8 + 7) 1 Hb)
      as (m & Hm0 & Hm & _ & Hnear).
    { change (10 ^ Z.of_nat 1)%Z with 10%Z. lia. }
    exists m. split; [done|]. split; [by rewrite Hm|].
    unfold exact_total_mean. rewrite Hl8, <-HE.
    change (10 ^ Z.of_nat 1)%Q with 10%Q in Hnear. exact Hnear.
  + f_equal. apply list_filter_iff. intros k.
    assert (forallb (fun item => whole_in_scale (score k item)) C = true) as Hk.
    { apply forallb_forall. intros it Hin.
      eapply forallb_forall in Hwhole; [|exact Hin].
      by apply whole_scores_score. }
    destruct (whole_question k C Hk Hlen) as (S & HS & HE & Hb).
    unfold question_mean, exact_mean. rewrite HS, Hl, num_div_of_nat.
    rewrite Hl in Hb, Hlen.
    destruct (to_binary64_scale
                (inject_Z S / inject_Z (Z.of_nat (Datatypes.S (length C')))))
      as (v & Ev & _).
    { apply Qle_shift_div_l; [apply inject_Z_nat_pos|]. rewrite Qmult_0_l.
      change 0%Q with (inject_Z 0). rewrite <-Zle_Qle. lia. }
    { apply Qle_shift_div_r; [apply inject_Z_nat_pos|].
      change 5%Q with (inject_Z 5). rewrite <-inject_Z_mult, <-Zle_Qle. lia. }
    rewrite Ev. cbn [num_below].
    rewrite (below_threshold S (Z.of_nat (Datatypes.S (length C'))) v)
      by (done || lia).
    rewrite (Qlt_bool_proper
               (inject_Z S / inject_Z (Z.of_nat (Datatypes.S (length C'))))
               (exact_sum (map (score k) C)
                / inject_Z (Z.of_nat (Datatypes.S (length C')))))
      by (by rewrite HE).
    reflexivity.
Qed.

Lemma stats_spec_witness :
  json tie_body = true
  ∧ formattedData tie_body = Ok tie_data
  ∧ (∃ m : Z,
       (0 ≤ m)%Z
       ∧ avgSatisfaction (stats (filteredData tie_data "All" "All"))
         = JStr (fixed_digits m 1)
       ∧ (Qabs (inject_Z m / 10
                - exact_total_mean (filteredData tie_data "All" "All"))
          <= 1 # 20)%Q)
  ∧ itemsToImprove (stats (filteredData tie_data "All" "All"))
    = length (filter (fun k =>
                        Qlt_bool (exact_mean k (filteredData tie_data "All" "All"))
                                 (7 # 2))
                     questions).
Proof.
assert (json tie_body = true) as Hj by (vm_compute; reflexivity).
assert (formattedData tie_body = Ok tie_data) as Hf by (vm_compute; reflexivity).
split; [exact Hj|]. split; [exact Hf|].
apply (proj2 (proj2 (proj2 (stats_spec tie_body tie_data "All" "All" Hj Hf)))).
- vm_compute. discriminate.
- vm_compute. reflexivity.
- vm_compute. reflexivity.
Defined.

(** C1, as stated, fails: the forty whole scores of five responses add up to
    [174]; their mean is [4.35], which rounded to one decimal place is
    [4.4], and [avgSatisfaction] is [4.3]: the binary64 quotient is just
    below [4.35]. *)
Lemma stats_tie_rounds_down :
  json tie_body = true
  ∧ formattedData tie_body = Ok tie_data
  ∧ filteredData tie_data "All" "All" = tie_data
  ∧ forallb (fun item => forallb whole_in_scale (scores item)) tie_data = true
  ∧ (exact_total_mean tie_data == 435 # 100)%Q
  ∧ (round_decimals 1 (exact_total_mean tie_data) == 44 # 10)%Q
  ∧ avgSatisfaction (stats tie_data) = JStr "4.3"
  ∧ num_div (total_score tie_data) (num_of_nat (length tie_data * 8))
    = Fin (2448832297382707 # 2 ^ 49).
Proof. repeat split; vm_compute; reflexivity. Qed.

Lemma fold_snoc {T U} (g : T → U) (l : list T) (init : list U) :
  fold_left (fun data i => data ++ [g i]) l init = init ++ map g l.
Proof.
revert init. induction l as [|i l IH]; intros init; simpl.
- by rewrite app_nil_r.
- by rewrite IH, <-app_assoc.
Qed.

Lemma radarData_nonempty C :
  C ≠ [] → Forall (fun item => scores_not_NaN item = true) C →
  radarData C
  = map (fun k => {| subject := question_key k;
                     A := parseFloat (toFixed (question_mean k C) 2);
                     fullMark := Fin 5 |}) questions.
Proof.
intros Hne HC. destruct C as [|item C]; [done|].
unfold radarData. rewrite length_eqb_cons.
etrans; [apply (fold_snoc
  (fun i => {| subject := question_key i;
               A := parseFloat
                      (toFixed
                         (num_div
                            (fold_left
                               (fun acc curr =>
                                  num_add acc (or_zero (score i curr)))
                               (item :: C) (Fin 0))
                            (num_of_nat (length (item :: C)))) 2);
               fullMark := Fin 5 |}))|].
rewrite app_nil_l. apply map_ext. intros k.
unfold question_mean, sum_numbers.
by rewrite (fold_one_question k (item :: C) (Fin 0) HC).
Qed.

(** The profile value of a question whose scores are in [[0, 5]]. *)
Lemma profile_in_range k C :
  C ≠ [] → (Z.of_nat (length C) < 2 ^ 32)%Z →
  forallb (fun item => in_range (score k item)) C = true →
  ∃ a, parseFloat (toFixed (question_mean k C) 2) = Fin a
    ∧ (0 <= a)%Q ∧ (a <= 5)%Q.
Proof.
intros Hne Hlen Hrange. apply forallb_Forall in Hrange.
destruct C as [|item C'] eqn:EC; [done|]. rewrite <-EC in *.
assert (length C = Datatypes.S (length C')) as Hl by (by rewrite EC).
unfold question_mean, sum_numbers.
destruct (mean_in_range (map (score k) C) (length C')) with (d := length C)
  as (mean & -> & H0 & H5).
- by apply Forall_map.
- by rewrite length_map.
- lia.
- lia.
- rewrite length_map. lia.
- by apply text_in_range.
Qed.

(** The profile value of a question whose scores are whole. *)
Lemma profile_whole k C :
  C ≠ [] → (Z.of_nat (length C) < 2 ^ 32)%Z →
  forallb (fun item => whole_in_scale (score k item)) C = true →
  ∃ m : Z,
    parseFloat (toFixed (question_mean k C) 2) = to_binary64 (inject_Z m / 100)
    ∧ (Qabs (inject_Z m / 100 - exact_mean k C) <= 1 # 200)%Q.
Proof.
intros Hne Hlen Hwhole.
destruct C as [|item C'] eqn:EC; [done|]. rewrite <-EC in *.
assert (length C = Datatypes.S (length C')) as Hl by (by rewrite EC).
destruct (whole_question k C Hwhole Hlen) as (S & HS & HE & Hb).
unfold question_mean, exact_mean. rewrite HS, Hl. rewrite Hl in Hb, Hlen.
destruct (whole_mean_text S (length C') 2 Hb) as (m & _ & _ & Hm & Hnear).
{ change (10 ^ Z.of_nat 2)%Z with 100%Z. lia. }
exists m. change (10 ^ Z.of_nat 2)%Q with 100%Q in Hm, Hnear.
split; [exact Hm|]. by rewrite <-HE.
Qed.

(** C6, as the code has it.  For every non-empty filtered collection [C]
    of the records of a JSON body the profile has one entry per question,
    in order, each with the upper bound [5] and with the value [parseFloat]
    reads in the text [toFixed(2)] prints for the question's binary64 mean
    over [C].  The value lies in [[0, 5]] when every score of that question
    in [C] does.  When those scores are whole numbers from [0] to [5], the
    value is the binary64 value of a decimal with two places nearest to the
    exact mean, either of the two on a tie.  For an empty [C] the profile is
    empty. *)
Theorem radarData_spec body formatted d s (C := filteredData formatted d s) :
  json body = true →
  formattedData body = Ok formatted →
  (C = [] → radarData C = [])
  ∧ (C ≠ [] →
     radarData C
     = map (fun k => {| subject := question_key k;
                        A := parseFloat (toFixed (question_mean k C) 2);
                        fullMark := Fin 5 |}) questions
     ∧ ∀ k, (Z.of_nat (length C) < 2 ^ 32)%Z →
         (forallb (fun item => in_range (score k item)) C = true →
          ∃ a, parseFloat (toFixed (question_mean k C) 2) = Fin a
            ∧ (0 <= a)%Q ∧ (a <= 5)%Q)
         ∧ (forallb (fun item => whole_in_scale (score k item)) C = true →
            ∃ m : Z,
              parseFloat (toFixed (question_mean k C) 2)
              = to_binary64 (inject_Z m / 100)
              ∧ (Qabs (inject_Z m / 100 - exact_mean k C) <= 1 # 200)%Q)).
Proof.
intros Hj Hf.
pose proof (filteredData_not_NaN formatted d s
              (formattedData_not_NaN body formatted Hj Hf)) as HC.
fold C in HC. apply forallb_Forall in HC.
split; [by intros ->|]. intros Hne.
split; [by apply radarData_nonempty|]. intros k Hlen.
split; [by apply profile_in_range|by apply profile_whole].
Qed.

Lemma radarData_spec_witness :
  json tie_body = true
  ∧ formattedData tie_body = Ok tie_data
  ∧ map A (radarData (filteredData tie_data "All" "All"))
    = map (fun k => parseFloat
                      (toFixed (question_mean k (filteredData tie_data "All" "All")) 2))
          questions
  ∧ ∃ a, parseFloat
           (toFixed (question_mean Q8 (filteredData tie_data "All" "All")) 2)
         = Fin a ∧ (0 <= a)%Q ∧ (a <= 5)%Q.
Proof.
assert (json tie_body = true) as Hj by (vm_compute; reflexivity).
assert (formattedData tie_body = Ok tie_data) as Hf by (vm_compute; reflexivity).
split; [exact Hj|]. split; [exact Hf|].
destruct (proj2 (radarData_spec tie_body tie_data "All" "All" Hj Hf))
  as [Hmap Hk].
{ vm_compute. discriminate. }
split.
- rewrite Hmap. by rewrite map_map.
- apply (Hk Q8); vm_compute; reflexivity.
Defined.

(** C6, as stated, fails: a score of [7] passes normalization unchanged, and
    the profile of that one response has the value [7] for its question. *)
Lemma radarData_above_scale :
  json above_scale_body = true
  ∧ formattedData above_scale_body = Ok above_scale_data
  ∧ filteredData above_scale_data "All" "All" = above_scale_data
  ∧ map A (radarData above_scale_data)
    = [Fin 7; Fin 0; Fin 0; Fin 0; Fin 0; Fin 0; Fin 0; Fin 0]
  ∧ num_leb (Fin 7) (Fin 5) = false.
Proof. repeat split; vm_compute; reflexivity. Qed.

(** The value is not always the mean rounded to two places either: the
    first scores of forty responses add up to [179]; their mean is [4.475],
    which rounded to two decimal places is [4.48], and the profile value is
    [4.47]. *)
Lemma radarData_tie_rounds_down :
  json tie40_body = true
  ∧ formattedData tie40_body = Ok tie40_data
  ∧ (exact_mean Q1 tie40_data == 4475 # 1000)%Q
  ∧ (round_decimals 2 (exact_mean Q1 tie40_data) == 448 # 100)%Q
  ∧ toFixed (question_mean Q1 tie40_data) 2 = "4.47"
  ∧ head (map A (radarData tie40_data)) = Some (to_binary64 (447 # 100)).
Proof. repeat split; vm_compute; reflexivity. Qed.

End Aggregator.

(** * The distribution builder *)

Section BucketKeys.
Implicit Types (z b n : Z) (q : Q) (ds s : string).
Local Open Scope Z_scope.

Lemma exp10_up_ge fuel q n : n ≤ exp10_up fuel q n.
Proof.
revert n. induction fuel as [|fuel IH]; intros n; simpl; [lia|].
destruct (Qle_bool _ _); [|lia]. specialize (IH (n + 1)). lia.
Qed.

Lemma exp10_two_digits q : (10 <= q)%Q → 2 ≤ exp10 q.
Proof.
intros Hq. unfold exp10.
assert (Qle_bool 1 q = true) as ->.
{ apply Qle_bool_iff. by apply (Qle_trans _ 10). }
assert (Qle_bool (10 ^ 1) q = true) as H10 by (by apply Qle_bool_iff).
cbn [exp10_up]. rewrite H10.
pose proof (exp10_up_ge (Z.to_nat (Z.log2 (Qfloor q))) q (1 + 1)). lia.
Qed.

Lemma sig_digits_two_digits q :
  (10 <= q)%Q →
  (1 ≤ String.length (sig_digits q).1)%nat ∧ 2 ≤ (sig_digits q).2.
Proof.
intros Hq. unfold sig_digits. pose proof (exp10_two_digits q Hq) as He.
destruct (shortest_digits 16 q (exp10 q) 1) as [s k]. cbn [fst snd].
split; [apply pretty_N_digits|]. destruct (10 ^ k <=? s); lia.
Qed.

(** A value with two digits or more before the point is printed on two
    characters or more. *)
Lemma format_digits_long ds n :
  (1 ≤ String.length ds)%nat → 2 ≤ n →
  (2 ≤ String.length (format_digits ds n))%nat.
Proof.
intros Hk Hn. unfold format_digits.
set (k := Z.of_nat (String.length ds)).
assert (1 ≤ k) as Hk1 by (subst k; lia).
destruct ((k <=? n) && (n <=? 21)) eqn:E1.
{ apply andb_prop in E1 as [Hkn _]. apply Z.leb_le in Hkn.
  rewrite length_append, length_zeros. subst k. lia. }
destruct ((0 <? n) && (n <=? 21)) eqn:E2.
{ apply andb_prop in E2 as [_ H21]. rewrite H21, andb_true_r in E1.
  apply Z.leb_gt in E1.
  rewrite length_append, length_take_str by (subst k; lia).
  rewrite append_cons. simpl String.length. lia. }
destruct ((-6 <? n) && (n <=? 0)) eqn:E3.
{ apply andb_prop in E3 as [_ H0]. apply Z.leb_le in H0. lia. }
destruct (k =? 1).
- rewrite length_append, append_cons. simpl String.length. lia.
- rewrite length_append, length_take_str by lia.
  rewrite append_cons. simpl String.length. lia.
Qed.

Lemma Qabs_inject_pos z : 0 ≤ z → Qabs (inject_Z z) = inject_Z z.
Proof. intros Hz. destruct z; first [done|lia]. Qed.

Lemma number_to_string_long z :
  10 ≤ z → (2 ≤ String.length (number_to_string (num_of_Z z)))%nat.
Proof.
intros Hz. unfold number_to_string, num_of_Z.
assert (Qzero_bool (inject_Z z) = false) as ->.
{ unfold Qzero_bool. destruct (Qeq_bool _ _) eqn:E; [|done].
  apply Qeq_bool_iff in E. unfold Qeq in E. simpl in E. lia. }
rewrite Qabs_inject_pos by lia.
assert (10 <= inject_Z z)%Q as Hq.
{ change 10%Q with (inject_Z 10). rewrite <-Zle_Qle. lia. }
destruct (sig_digits_two_digits _ Hq) as [Hk Hn].
destruct (sig_digits (inject_Z z)) as [ds n]. cbn [fst snd] in Hk, Hn.
replace (Qneg_bool (inject_Z z)) with false.
- rewrite append_nil. by apply format_digits_long.
- symmetry. apply Qneg_bool_false.
  change 0%Q with (inject_Z 0). rewrite <-Zle_Qle. lia.
Qed.

Lemma number_to_string_negative z :
  z < 0 → ∃ s, number_to_string (num_of_Z z) = String "-" s.
Proof.
intros Hz. unfold number_to_string, num_of_Z.
assert (Qzero_bool (inject_Z z) = false) as ->.
{ unfold Qzero_bool. destruct (Qeq_bool _ _) eqn:E; [|done].
  apply Qeq_bool_iff in E. unfold Qeq in E. simpl in E. lia. }
destruct (sig_digits _) as [ds n].
replace (Qneg_bool (inject_Z z)) with true; [by eexists|].
symmetry. apply Qneg_bool_true.
change 0%Q with (inject_Z 0). rewrite <-Zlt_Qlt. lia.
Qed.

Lemma pretty_bucket b :
  1 ≤ b ≤ 5 →
  pretty b = number_to_string (num_of_Z b)
  ∧ String.length (pretty b) = 1%nat
  ∧ ∃ c, pretty b = String c "" ∧ c ≠ "-"%char ∧ c ≠ "0"%char.
Proof.
intros Hb.
assert (b = 1 ∨ b = 2 ∨ b = 3 ∨ b = 4 ∨ b = 5) as H by lia.
repeat (destruct H as [->|H];
  [repeat split; try (vm_compute; reflexivity);
   eexists; (split; [vm_compute; reflexivity|split; discriminate])|]).
subst. repeat split; try (vm_compute; reflexivity).
eexists; (split; [vm_compute; reflexivity|split; discriminate]).
Qed.

(** The key of an integer is the key of a bucket only for that bucket's
    own integer. *)
Lemma bucket_key_inj z b :
  1 ≤ b ≤ 5 → number_to_string (num_of_Z z) = pretty b → z = b.
Proof.
intros Hb Hkey. destruct (pretty_bucket b Hb) as (Hpb & Hlen & c & Hc & Hm & H0).
assert (z < 0 ∨ z = 0 ∨ 1 ≤ z ≤ 9 ∨ 10 ≤ z) as [Hz|[->|[Hz|Hz]]] by lia.
- destruct (number_to_string_negative z Hz) as [s Hs]. congruence.
- change (number_to_string (num_of_Z 0)) with "0" in Hkey. congruence.
- assert (b = 1 ∨ b = 2 ∨ b = 3 ∨ b = 4 ∨ b = 5) as Hbs by lia.
  assert (z = 1 ∨ z = 2 ∨ z = 3 ∨ z = 4 ∨ z = 5 ∨ z = 6 ∨ z = 7 ∨ z = 8
          ∨ z = 9) as Hzs by lia.
  clear -Hkey Hbs Hzs.
  repeat (destruct Hzs as [->|Hzs]); try subst z;
    repeat (destruct Hbs as [->|Hbs]); try subst b;
    try reflexivity; vm_compute in Hkey; discriminate Hkey.
- pose proof (number_to_string_long z Hz) as Hlong.
  rewrite Hkey, Hlen in Hlong. lia.
Qed.

End BucketKeys.

Section Histogram.
Implicit Types (C : list NormalizedResponse) (item : NormalizedResponse)
  (k : question) (x : number) (counts : gmap string nat) (f g : Z → nat)
  (z b : Z).

Lemma num_eqb_of_Z z b : num_eqb (num_of_Z z) (num_of_Z b) = (z =? b)%Z.
Proof.
unfold num_eqb, num_of_Z. destruct (Z.eqb_spec z b) as [->|Hne].
- by apply Qeq_bool_iff.
- destruct (Qeq_bool (inject_Z z) (inject_Z b)) eqn:E; [|done].
  apply Qeq_bool_iff in E. unfold Qeq in E. simpl in E. lia.
Qed.

Lemma Math_round_cases x :
  Math_round x = NaN ∨ (∃ neg, Math_round x = Inf neg)
  ∨ ∃ z, Math_round x = num_of_Z z.
Proof.
destruct x as [|neg|q]; [by left|right; left; by eexists|].
right; right. by eexists.
Qed.

(** [Math.round] gives the nearest integer, the upper one at a tie. *)
Lemma Math_round_nearest (q : Q) :
  ∃ z, Math_round (Fin q) = num_of_Z z
    ∧ (inject_Z z - (1 # 2) <= q)%Q ∧ (q < inject_Z z + (1 # 2))%Q.
Proof.
exists (Qfloor (q + (1 # 2))). split; [done|].
pose proof (Qfloor_le (q + (1 # 2))) as Hlo.
pose proof (Qlt_floor (q + (1 # 2))) as Hhi.
rewrite inject_Z_plus in Hhi. change (inject_Z 1) with 1%Q in Hhi.
split; lra.
Qed.

Lemma is_hist_ext counts f g :
  (∀ b, (1 ≤ b ≤ 5)%Z → f b = g b) → is_hist counts f → is_hist counts g.
Proof.
intros Hfg [H1 H2]. split; [|done]. intros b Hb. rewrite <-Hfg by done. auto.
Qed.

Lemma empty_counts_hist : is_hist empty_counts (fun _ => O).
Proof.
split.
- intros b Hb.
  assert (b = 1 ∨ b = 2 ∨ b = 3 ∨ b = 4 ∨ b = 5)%Z as H by lia.
  repeat (destruct H as [->|H]; [vm_compute; reflexivity|]).
  subst. vm_compute; reflexivity.
- intros key [c Hc]. unfold empty_counts in Hc.
  repeat (rewrite lookup_insert in Hc; case_decide;
          [subst key;
           first [exists 1%Z; split; [lia|vm_compute; reflexivity]
                 |exists 2%Z; split; [lia|vm_compute; reflexivity]
                 |exists 3%Z; split; [lia|vm_compute; reflexivity]
                 |exists 4%Z; split; [lia|vm_compute; reflexivity]
                 |exists 5%Z; split; [lia|vm_compute; reflexivity]]|]).
  by rewrite lookup_empty in Hc.
Qed.

Lemma special_key_no_bucket s b :
  (1 ≤ b ≤ 5)%Z → (3 ≤ String.length s)%nat → s ≠ pretty b.
Proof.
intros Hb Hs ->. destruct (pretty_bucket b Hb) as (_ & Hlen & _). lia.
Qed.

(** The key of a rounded score is the key of bucket [b] exactly when the
    rounded score is [b]. *)
Lemma rounded_key x b :
  (1 ≤ b ≤ 5)%Z →
  number_to_string (Math_round x) = pretty b ↔ Math_round x = num_of_Z b.
Proof.
intros Hb. split.
- destruct (Math_round_cases x) as [E|[[neg E]|[z E]]]; rewrite E.
  + intros H. by destruct (special_key_no_bucket "NaN" b Hb ltac:(simpl; lia)).
  + intros H. destruct neg.
    * by destruct (special_key_no_bucket "-Infinity" b Hb ltac:(simpl; lia)).
    * by destruct (special_key_no_bucket "Infinity" b Hb ltac:(simpl; lia)).
  + intros H. by rewrite (bucket_key_inj z b Hb H).
- intros ->. symmetry. by apply pretty_bucket.
Qed.

Lemma rounded_eqb x b :
  num_eqb (Math_round x) (num_of_Z b) = true ↔ Math_round x = num_of_Z b.
Proof.
split.
- destruct (Math_round_cases x) as [E|[[neg E]|[z E]]]; rewrite E; try done.
  rewrite num_eqb_of_Z. intros H. apply Z.eqb_eq in H. by subst.
- intros ->. rewrite num_eqb_of_Z. apply Z.eqb_refl.
Qed.

Lemma count_score_hist counts f x :
  is_hist counts f →
  is_hist (count_score counts x)
    (fun b => (f b + if num_eqb (Math_round x) (num_of_Z b) then 1 else 0)%nat).
Proof.
intros [H1 H2]. unfold count_score.
destruct (counts !! number_to_string (Math_round x)) as [c|] eqn:E.
- destruct (H2 _ (mk_is_Some _ _ E)) as (b0 & Hb0 & Hkey).
  pose proof (proj1 (rounded_key x b0 Hb0) Hkey) as Hround.
  rewrite Hkey in *. rewrite H1 in E by done. inversion E; subst c.
  split.
  + intros b Hb. rewrite Hround, num_eqb_of_Z.
    destruct (Z.eqb_spec b0 b) as [->|Hne].
    * rewrite lookup_insert_eq. f_equal. lia.
    * rewrite lookup_insert_ne by (intros Hp; by apply (inj pretty) in Hp).
      rewrite H1 by done. f_equal. lia.
  + intros key [c' Hc']. rewrite lookup_insert in Hc'.
    case_decide as Hk; [by exists b0|]. apply H2. by exists c'.
- split; [|done]. intros b Hb.
  destruct (num_eqb (Math_round x) (num_of_Z b)) eqn:Heq.
  + apply rounded_eqb in Heq. apply (rounded_key x b Hb) in Heq.
    rewrite Heq, H1 in E by done. discriminate.
  + rewrite H1 by done. f_equal. lia.
Qed.

Lemma bucket_cons k item C b :
  bucket k (item :: C) b
  = ((if num_eqb (Math_round (score k item)) (num_of_Z b) then 1 else 0)
     + bucket k C b)%nat.
Proof.
unfold bucket. rewrite filter_cons.
by destruct (num_eqb (Math_round (score k item)) (num_of_Z b)).
Qed.

Lemma fold_hist k C : ∀ counts f,
  is_hist counts f →
  is_hist
    (fold_left (fun counts item => count_score counts (score k item)) C counts)
    (fun b => (f b + bucket k C b)%nat).
Proof.
induction C as [|item C IH]; intros counts f Hh.
- simpl. eapply is_hist_ext; [|exact Hh]. intros b _. unfold bucket. simpl. lia.
- simpl fold_left.
  eapply is_hist_ext; [|apply IH, count_score_hist, Hh].
  intros b _. simpl. rewrite bucket_cons. lia.
Qed.

Lemma bucket_sum_le k C :
  (bucket k C 1 + bucket k C 2 + bucket k C 3 + bucket k C 4 + bucket k C 5
   ≤ length C)%nat.
Proof.
induction C as [|item C IH]; [done|].
rewrite !bucket_cons. simpl length.
destruct (Math_round_cases (score k item)) as [E|[[neg E]|[z E]]]; rewrite E.
- simpl. lia.
- simpl. lia.
- rewrite !num_eqb_of_Z.
  destruct (Z.eqb_spec z 1), (Z.eqb_spec z 2), (Z.eqb_spec z 3),
    (Z.eqb_spec z 4), (Z.eqb_spec z 5); lia.
Qed.

(** C5: for the empty collection there is no row; otherwise there is one
    row per question, in order, whose [total] is the collection's size and
    whose bucket [b], for [b] from 1 to 5, counts the records whose score,
    rounded by [Math.round] (the nearest integer, the upper one at a tie),
    is [b]; a record whose rounded score is no integer from 1 to 5 is in no
    bucket, and there is no other bucket, so the five counts add up to
    [total] at most. *)
Theorem distributionData_spec C :
  (C = [] → distributionData C = [])
  ∧ (C ≠ [] →
     ∃ row : question → Distribution,
       distributionData C = map row questions
       ∧ ∀ k,
           name (row k) = QUESTION_MAPPING k
           ∧ shortName (row k) = question_key k
           ∧ total (row k) = length C
           ∧ (∀ b, (1 ≤ b ≤ 5)%Z →
                counts (row k) !! pretty b = Some (bucket k C b))
           ∧ (∀ key, is_Some (counts (row k) !! key) →
                ∃ b, (1 ≤ b ≤ 5)%Z ∧ key = pretty b)
           ∧ (bucket_count (row k) 1 + bucket_count (row k) 2
              + bucket_count (row k) 3 + bucket_count (row k) 4
              + bucket_count (row k) 5 ≤ total (row k))%nat)
  ∧ (∀ q : Q, ∃ z,
       Math_round (Fin q) = num_of_Z z
       ∧ (inject_Z z - (1 # 2) <= q)%Q ∧ (q < inject_Z z + (1 # 2))%Q).
Proof.
split; [by intros ->|]. split; [|apply Math_round_nearest].
intros Hne. destruct C as [|item C]; [done|].
  eexists. split; [unfold distributionData; rewrite length_eqb_cons; reflexivity|].
  intros k. cbv beta. simpl name. simpl shortName. simpl total. simpl counts.
  pose proof (fold_hist k (item :: C) empty_counts (fun _ => O)
                empty_counts_hist) as [H1 H2].
  split; [done|]. split; [done|]. split; [done|].
  split; [intros b Hb; by rewrite H1|]. split; [done|].
  unfold bucket_count. simpl counts. rewrite !H1 by lia. simpl.
  apply (bucket_sum_le k (item :: C)).
Qed.

End Histogram.

(** * Further properties: ingestion *)

Section IngestionMore.
Implicit Types (body item v : JsVal) (items : list JsVal)
  (fields : gmap string JsVal) (r : NormalizedResponse)
  (formatted : list NormalizedResponse).

Lemma exn_unique (e : exn) : e = TypeError.
Proof. by destruct e. Qed.

Lemma not_Ok_Throw {T} (m : result T) :
  (∀ t, m ≠ Ok t) → m = Throw TypeError.
Proof. destruct m as [t|[]]; [intros H; by destruct (H t)|done]. Qed.

Lemma formattedData_array items :
  formattedData (JArr items) = mapM normalize items.
Proof. reflexivity. Qed.

Lemma formattedData_examiner_array fields items :
  fields !! "examiner" = Some (JArr items) →
  formattedData (JObj fields) = mapM normalize items.
Proof.
intros H. unfold formattedData.
by rewrite (rawList_examiner fields (JArr items) H eq_refl).
Qed.

Lemma normalize_spread item r :
  normalize item = Ok r → spread r = own_props item.
Proof.
unfold normalize. intros Hn.
apply bind_Ok_inv in Hn as (raw & _ & Hn).
apply bind_Ok_inv in Hn as (st & _ & Hn).
repeat match type of Hn with
| _ ≫= _ = Ok _ => apply bind_Ok_inv in Hn as (? & _ & Hn)
end.
by inversion Hn.
Qed.

Lemma Forall2_length_eq {T U} (R : T → U → Prop) (l : list T) (l' : list U) :
  Forall2 R l l' → length l' = length l.
Proof. induction 1; simpl; [done|by f_equal]. Qed.

(** X1: in both accepted shapes, a load that succeeds yields one record per
    raw item, in the items' order: the i-th record is the normalization of
    the i-th item and carries its own properties. *)
Theorem formattedData_one_record_per_item body items formatted :
  body = JArr items
  ∨ (∃ fields, body = JObj fields ∧ fields !! "examiner" = Some (JArr items)) →
  formattedData body = Ok formatted →
  Forall2 (fun item r => normalize item = Ok r ∧ spread r = own_props item)
          items formatted
  ∧ length formatted = length items.
Proof.
intros Hshape Hf.
assert (mapM normalize items = Ok formatted) as Hm.
{ destruct Hshape as [->|(fields & -> & Hex)].
  - by rewrite <-formattedData_array.
  - by rewrite <-(formattedData_examiner_array fields items Hex). }
apply mapM_Ok in Hm.
assert (Forall2 (fun item r => normalize item = Ok r ∧ spread r = own_props item)
                items formatted) as H2.
{ eapply Forall2_impl; [exact Hm|]. intros item r Hn. split; [done|].
  by apply normalize_spread. }
split; [done|]. by eapply Forall2_length_eq.
Qed.

Lemma formattedData_one_record_per_item_witness :
  formattedData sample_body = Ok sample_data
  ∧ length sample_data = 2%nat.
Proof.
assert (formattedData sample_body = Ok sample_data) as Hf
  by (vm_compute; reflexivity).
split; [exact Hf|].
exact (proj2 (formattedData_one_record_per_item sample_body _ sample_data
                (or_introl eq_refl) Hf)).
Defined.

Lemma mapM_throw {T U} (f : T → result U) (l1 l2 : list T) (x : T) :
  f x = Throw TypeError → mapM f (l1 ++ x :: l2) = Throw TypeError.
Proof.
intros Hx. induction l1 as [|y l1 IH]; simpl.
- by rewrite Hx.
- destruct (f y) as [u|e]; simpl; [|by rewrite (exn_unique e)].
  by rewrite IH.
Qed.

(** X2: one [null] among the raw items, wherever it stands and whatever the
    other items are, makes the whole load throw, in both accepted shapes;
    the state then keeps the data it had and holds the error message. *)
Theorem null_item_aborts_load (before after : list JsVal) fields (st : State) :
  let items := before ++ JNull :: after in
  formattedData (JArr items) = Throw TypeError
  ∧ formattedData (JObj (<["examiner" := JArr items]> fields)) = Throw TypeError
  ∧ data (on_response (JArr items) st) = data st
  ∧ error (on_response (JArr items) st)
    = Some "無法讀取資料，請確認權限設定。".
Proof.
intros items.
assert (formattedData (JArr items) = Throw TypeError) as H1.
{ rewrite formattedData_array. by apply mapM_throw. }
split; [exact H1|]. split.
- rewrite (formattedData_examiner_array _ items) by apply lookup_insert_eq.
  by apply mapM_throw.
- unfold on_response. by rewrite H1.
Qed.

Lemma parseScore_Ok_has_text v x : parseScore v = Ok x → has_text v = true.
Proof.
intros H. destruct (has_text v) eqn:E; [done|].
by rewrite (parseScore_raises v E) in H.
Qed.

Lemma parseScore_has_text_Ok v : has_text v = true → ∃ x, parseScore v = Ok x.
Proof.
intros Ht. destruct (to_string_has_text v Ht) as [s Hs].
destruct (is_number v) eqn:Hn.
{ destruct v; try discriminate. by eexists. }
destruct (to_boolean v) eqn:Hb.
- eexists. by apply parseScore_text.
- eexists. by apply parseScore_falsy.
Qed.

Lemma normalize_station_has_text v :
  (∃ st, normalize_station v = Ok st) ↔ has_text v = true.
Proof.
unfold normalize_station, parseInt. split.
- intros [st H]. destruct (has_text v) eqn:E; [done|].
  by rewrite (to_string_no_text v E) in H.
- intros Ht. destruct (to_string_has_text v Ht) as [s ->]. by eexists.
Qed.

Lemma get_object fields k :
  get (JObj fields) k = Ok (default JUndefined (fields !! k)).
Proof. reflexivity. Qed.

Lemma normalize_object_Ok fields :
  Forall (fun k => has_text (default JUndefined (fields !! k)) = true)
         normalized_fields →
  ∃ r, normalize (JObj fields) = Ok r.
Proof.
intros H. unfold normalized_fields, questions in H. simpl in H.
apply Forall_cons in H as [Hst H].
apply normalize_station_has_text in Hst as [st Hst].
repeat match type of H with
| Forall _ (_ :: _) =>
    let Hk := fresh "Hk" in
    apply Forall_cons in H as [Hk H];
    apply parseScore_has_text_Ok in Hk as [? Hk]
end.
repeat match goal with
| Hk : context [qId ?q] |- _ =>
    let s := eval vm_compute in (qId q) in change (qId q) with s in Hk
end.
unfold normalize. rewrite !get_object, !bind_Ok.
repeat match goal with
| Hk : ?m = Ok _ |- context [?m] => rewrite Hk, ?bind_Ok; clear Hk
end.
by eexists.
Qed.

Lemma normalize_object_inv fields r :
  normalize (JObj fields) = Ok r →
  Forall (fun k => has_text (default JUndefined (fields !! k)) = true)
         normalized_fields.
Proof.
unfold normalize. rewrite !get_object, !bind_Ok. intros Hn.
apply bind_Ok_inv in Hn as (st & Hst & Hn).
assert (has_text (default JUndefined (fields !! "station")) = true) as H0.
{ apply normalize_station_has_text. by exists st. }
unfold normalized_fields, questions. simpl.
repeat match type of Hn with
| _ ≫= _ = Ok _ =>
    let x := fresh "x" in let Hx := fresh "Hx" in
    apply bind_Ok_inv in Hn as (x & Hx%parseScore_Ok_has_text & Hn)
end.
repeat (constructor; [assumption|]). constructor.
Qed.

(** X3: the normalization of an object fails exactly when the value of its
    [station] or of one of [q1] .. [q8] cannot be converted to text (it is,
    or holds, an object with an own [toString]); in particular it succeeds
    whenever those nine values are missing or primitive. *)
Theorem normalize_object_fails_iff fields :
  normalize (JObj fields) = Throw TypeError
  ↔ Exists (fun k => has_text (default JUndefined (fields !! k)) = false)
           normalized_fields.
Proof.
split.
- intros Hn.
  destruct (Forall_Exists_dec
              (fun k => has_text (default JUndefined (fields !! k)) = true)
              (fun k => has_text (default JUndefined (fields !! k)) = false)
              (fun k => Sumbool.sumbool_of_bool _) normalized_fields)
    as [Hall|Hex]; [|done].
  destruct (normalize_object_Ok fields Hall) as [r Hr]. congruence.
- intros Hex. apply not_Ok_Throw. intros r Hr.
  apply normalize_object_inv in Hr.
  apply Exists_exists in Hex as (k & Hk & Hfalse).
  rewrite Forall_forall in Hr. specialize (Hr k Hk). congruence.
Qed.

End IngestionMore.

(** * Further properties: the filters, the date list and the feedback *)

Section FilterMore.
Implicit Types (S C : list NormalizedResponse) (item : NormalizedResponse)
  (d s t : string) (v : JsVal).

Lemma strict_equals_string v s : strict_equals v (JStr s) = true ↔ v = JStr s.
Proof.
split.
- destruct v; simpl; try discriminate. intros H. by apply String.eqb_eq in H as ->.
- intros ->. simpl. apply String.eqb_refl.
Qed.

Lemma strict_equals_number v n :
  strict_equals v (JNum n) = true ↔ ∃ x, v = JNum x ∧ num_eqb x n = true.
Proof.
split.
- destruct v; simpl; try discriminate. intros H. by eexists.
- by intros (x & -> & H).
Qed.

Lemma eqb_All_false s : s ≠ "All" → String.eqb s "All" = false.
Proof. intros H. by apply String.eqb_neq. Qed.

Lemma prop_station item : prop item "station" = station item.
Proof. reflexivity. Qed.

Lemma filter_pred_date d item :
  d ≠ "All" →
  filter_pred d "All" item = true ↔ prop item "date" = JStr d.
Proof.
intros Hd. unfold filter_pred. rewrite (eqb_All_false d Hd). simpl.
rewrite andb_true_r. apply strict_equals_string.
Qed.

Lemma filter_pred_station d s item :
  s ≠ "All" → filter_pred d s item = true →
  ∃ x, station item = JNum x ∧ num_eqb x (parseInt_string s) = true.
Proof.
intros Hs. unfold filter_pred. rewrite (eqb_All_false s Hs). simpl.
intros H. apply andb_prop in H as [_ H]. rewrite prop_station in H.
by apply strict_equals_number.
Qed.

Lemma filter_pred_split d s item :
  filter_pred d s item = filter_pred d "All" item && filter_pred "All" s item.
Proof. unfold filter_pred. simpl. rewrite andb_true_r. reflexivity. Qed.

Lemma elem_of_filteredData S d s item :
  item ∈ filteredData S d s ↔ item ∈ S ∧ filter_pred d s item = true.
Proof.
unfold filteredData. rewrite list_elem_of_filter. split.
- intros [Hp Hin]. split; [done|]. by apply Is_true_true.
- intros [Hin Hp]. split; [|done]. by apply Is_true_true.
Qed.

(** X4: with a date filter other than the sentinel, the filtered
    collection holds exactly the records of the snapshot whose date is that
    very text. *)
Theorem filter_by_date_exact S d item :
  d ≠ "All" →
  item ∈ filteredData S d "All" ↔ item ∈ S ∧ prop item "date" = JStr d.
Proof.
intros Hd. rewrite elem_of_filteredData. by rewrite (filter_pred_date d item Hd).
Qed.

Lemma filter_by_date_exact_witness :
  Forall (fun item => prop item "date" = JStr "D1")
         (filteredData sample_data "D1" "All").
Proof.
apply Forall_forall. intros item Hin.
apply (proj1 (filter_by_date_exact sample_data "D1" item ltac:(discriminate))).
exact Hin.
Defined.

(** X5: with a station filter other than the sentinel only a
    record whose station is a number can be selected, the number [parseInt]
    reads in the filter text: a record whose station stayed a text is never
    selected, and a filter text without a leading integer selects
    nothing. *)
Theorem station_filter_selects_numbers S d s :
  s ≠ "All" →
  (∀ item, item ∈ filteredData S d s →
     ∃ x, station item = JNum x ∧ num_eqb x (parseInt_string s) = true)
  ∧ (∀ item t, station item = JStr t → item ∉ filteredData S d s)
  ∧ (parseInt_string s = NaN → filteredData S d s = []).
Proof.
intros Hs.
assert (∀ item, item ∈ filteredData S d s →
          ∃ x, station item = JNum x ∧ num_eqb x (parseInt_string s) = true)
  as Hsel.
{ intros item Hin. apply elem_of_filteredData in Hin as [_ Hp].
  by apply (filter_pred_station d s item Hs). }
split; [exact Hsel|]. split.
- intros item t Ht Hin. destruct (Hsel item Hin) as (x & Hx & _). congruence.
- intros Hnan. destruct (filteredData S d s) as [|item l] eqn:E; [done|].
  destruct (Hsel item) as (x & _ & Hx); [by left|].
  rewrite Hnan in Hx. by destruct x.
Qed.

Lemma station_filter_selects_numbers_witness :
  filteredData sample_data "All" "ER" = [].
Proof.
apply (station_filter_selects_numbers sample_data "All" "ER");
  [discriminate|vm_compute; reflexivity].
Defined.

(** X6: the two filters compose: filtering by date and then by station, or
    by station and then by date, is filtering by both, and filtering again
    with the same pair changes nothing. *)
Theorem filteredData_compose S d s :
  filteredData (filteredData S d "All") "All" s = filteredData S d s
  ∧ filteredData (filteredData S "All" s) d "All" = filteredData S d s
  ∧ filteredData (filteredData S d s) d s = filteredData S d s.
Proof.
unfold filteredData. rewrite !list_filter_filter.
repeat split; apply list_filter_iff; intros item;
  rewrite (filter_pred_split d s item);
  destruct (filter_pred d "All" item), (filter_pred "All" s item); cbn;
  tauto.
Qed.

Lemma starts_with_cons p t s :
  starts_with (String p t) (String p s) = starts_with t s.
Proof.
unfold starts_with. cbn [String.prefix]. by destruct (ascii_dec p p).
Qed.

Lemma starts_with_empty p t : starts_with (String p t) "" = false.
Proof. reflexivity. Qed.

Lemma starts_with_digits_0 a (x : ascii) :
  is_digit x = false → str_forall is_digit a = true →
  starts_with (String "0" (String x "")) a = false.
Proof.
intros Hx Ha. destruct a as [|c a]; [done|].
destruct (ascii_dec c "0") as [->|Hc]; [|by apply starts_with_other].
rewrite starts_with_cons. destruct a as [|c2 a]; [done|].
apply starts_with_other. intros ->.
cbn [str_forall] in Ha. apply andb_prop in Ha as [_ Ha].
apply andb_prop in Ha as [H2 _]. congruence.
Qed.

Lemma starts_with_digits_0x a :
  str_forall is_digit a = true →
  starts_with "0x" a = false ∧ starts_with "0X" a = false.
Proof. intros Ha. split; by apply starts_with_digits_0. Qed.

Lemma pretty_pos_digits (n : Z) :
  (0 < n)%Z →
  str_forall is_digit (pretty n) = true ∧ digits_val (pretty n) = n
  ∧ (1 ≤ String.length (pretty n))%nat.
Proof.
intros Hn. destruct n as [|p|p]; try lia.
change (pretty (Z.pos p)) with (pretty_abs (Z.pos p)).
apply pretty_abs_digits. lia.
Qed.

(** [parseInt] reads the decimal text of a positive integer as the binary64
    value nearest to it. *)
Lemma parseInt_pretty (n : Z) :
  (0 < n)%Z → parseInt_string (pretty n) = to_binary64 (inject_Z n).
Proof.
intros Hn. destruct (pretty_pos_digits n Hn) as (Hd & Hv & Hl).
destruct (digit_first _ Hd Hl) as (c & x & a & E & Hc).
destruct (digit_not_sign c x Hc) as (Hm & Hp & _).
pose proof (digit_of_code c x Hc).
destruct (starts_with_digits_0x _ Hd) as [H0x H0X].
unfold parseInt_string. rewrite E in *.
rewrite trim_start_visible by lia. rewrite split_sign_unsigned by done.
rewrite H0x, H0X. simpl orb. cbv iota.
rewrite <-(append_empty_r (String c a)). rewrite scan_dec_digits by done.
simpl String.length. by rewrite Hv.
Qed.

(** A positive integer is rounded to a positive number, equal to itself. *)
Lemma to_binary64_pos_Z (n : Z) :
  (0 < n)%Z →
  num_truthy (to_binary64 (inject_Z n)) = true
  ∧ num_eqb (to_binary64 (inject_Z n)) (to_binary64 (inject_Z n)) = true.
Proof.
intros Hn.
destruct (to_binary64_ge (inject_Z n) 1 0) as [->|(v & -> & Hv)]; try lia.
- change (inject_Z 1 * 2 ^ 0)%Q with (inject_Z 1). rewrite <-Zle_Qle. lia.
- done.
- change (inject_Z 1 * 2 ^ 0)%Q with 1%Q in Hv. split.
  + simpl. apply negb_true_iff, Qzero_bool_false. intros E. rewrite E in Hv.
    by apply Qle_not_lt in Hv.
  + simpl. by apply Qeq_bool_iff.
Qed.

Lemma pretty_pos_not_All (n : Z) : (0 < n)%Z → pretty n ≠ "All".
Proof.
intros Hn E. destruct (pretty_pos_digits n Hn) as (Hd & _ & _).
rewrite E in Hd. discriminate.
Qed.

(** X7: a raw station written as the decimal text of a positive integer is
    normalized to the binary64 value nearest to that integer, the integer
    itself up to [2^53], and the record is then selected by the station
    filter holding the same text (with a matching date filter). *)
Theorem integer_station_text_round_trip (n : Z) fields r d :
  (0 < n)%Z →
  fields !! "station" = Some (JStr (pretty n)) →
  normalize (JObj fields) = Ok r →
  station r = JNum (to_binary64 (inject_Z n))
  ∧ ((n ≤ 2 ^ 53)%Z → station r = JNum (num_of_Z n))
  ∧ filter_pred "All" (pretty n) r = true
  ∧ (prop r "date" = JStr d → filter_pred d (pretty n) r = true).
Proof.
intros Hn Hst Hr. destruct (to_binary64_pos_Z n Hn) as [Htruthy Heq].
assert (station r = JNum (to_binary64 (inject_Z n))) as Hs.
{ apply normalize_inv in Hr as (raw & Hget & Hns).
  rewrite get_object, Hst in Hget. inversion Hget; subst raw.
  unfold normalize_station, parseInt in Hns. simpl in Hns.
  rewrite (parseInt_pretty n Hn), Htruthy in Hns.
  by inversion Hns. }
assert (filter_pred "All" (pretty n) r = true) as Hf.
{ unfold filter_pred. rewrite (eqb_All_false _ (pretty_pos_not_All n Hn)).
  rewrite prop_station, Hs, (parseInt_pretty n Hn).
  cbn [orb andb strict_equals]. by rewrite Heq. }
split; [done|]. split; [|split; [done|]].
- intros Hle. rewrite Hs. f_equal. apply to_binary64_Z. lia.
- intros Hd.
  rewrite filter_pred_split, Hf, andb_true_r.
  unfold filter_pred. simpl. rewrite andb_true_r.
  apply orb_true_iff. right. by apply strict_equals_string.
Qed.

Lemma integer_station_text_round_trip_witness :
  ∃ r, normalize station_3 = Ok r ∧ station r = JNum (Fin 3).
Proof.
eexists. split; [vm_compute; reflexivity|].
refine (proj1 (proj2 (integer_station_text_round_trip 3
                        (list_to_map [("station", JStr "3"); ("date", JStr "D1")])
                        _ "D1" _ _ _)) _);
  [lia|vm_compute; reflexivity|vm_compute; reflexivity|lia].
Defined.

End FilterMore.

Section DatesMore.
Implicit Types (data C : list NormalizedResponse) (item : NormalizedResponse)
  (s field : string) (v w : JsVal) (values seen : list JsVal).

Lemma same_value_zero_string v s :
  same_value_zero v (JStr s) = true ↔ v = JStr s.
Proof.
split.
- destruct v as [| | |[]| | |]; simpl; try discriminate.
  intros H. by apply String.eqb_eq in H as ->.
- intros ->. simpl. apply String.eqb_refl.
Qed.

Lemma same_value_zero_string_l v s :
  same_value_zero (JStr s) v = true ↔ v = JStr s.
Proof.
split.
- destruct v; simpl; try discriminate.
  intros H. by apply String.eqb_eq in H as ->.
- intros ->. simpl. apply String.eqb_refl.
Qed.

Lemma existsb_string s seen :
  existsb (same_value_zero (JStr s)) seen = true ↔ JStr s ∈ seen.
Proof.
rewrite existsb_exists. split.
- intros (w & Hin & Hw). apply same_value_zero_string_l in Hw as ->.
  by apply list_elem_of_In.
- intros Hin. exists (JStr s). split; [by apply list_elem_of_In|].
  by apply same_value_zero_string_l.
Qed.

Lemma filter_string_absent seen s :
  JStr s ∉ seen → filter (fun w => same_value_zero w (JStr s)) seen = [].
Proof.
induction seen as [|w seen IH]; [done|]. intros Hn.
rewrite filter_cons. destruct (same_value_zero w (JStr s)) eqn:E; simpl.
- apply same_value_zero_string in E as ->. destruct Hn. by left.
- apply IH. intros Hin. destruct Hn. by right.
Qed.

(** The strings among the values seen so far stay, new ones come from the
    values, and none is listed twice. *)
Lemma Set_spread_strings values : ∀ seen,
  (∀ s, length (filter (fun w => same_value_zero w (JStr s)) seen) ≤ 1) →
  let out := fold_left
    (fun seen v => if existsb (same_value_zero v) seen then seen else seen ++ [v])
    values seen in
  (∀ s, JStr s ∈ out ↔ JStr s ∈ seen ∨ JStr s ∈ values)
  ∧ (∀ s, length (filter (fun w => same_value_zero w (JStr s)) out) ≤ 1).
Proof.
induction values as [|v values IH]; intros seen Hseen; simpl.
{ split; [|done]. intros s. rewrite elem_of_nil. tauto. }
destruct (existsb (same_value_zero v) seen) eqn:E.
- destruct (IH seen Hseen) as [H1 H2]. split; [|done].
  intros s. rewrite H1, elem_of_cons.
  split; [tauto|]. intros [?|[Hv|?]]; try tauto.
  left. apply existsb_string. by rewrite Hv.
- destruct (IH (seen ++ [v])) as [H1 H2].
  { intros s. rewrite filter_app, length_app.
    destruct (same_value_zero v (JStr s)) eqn:Ev.
    - apply same_value_zero_string in Ev as ->.
      rewrite filter_string_absent.
      2:{ intros Hin. apply existsb_string in Hin. congruence. }
      rewrite filter_cons. simpl. rewrite String.eqb_refl. simpl. lia.
    - rewrite filter_cons, filter_nil. rewrite Ev. simpl.
      specialize (Hseen s). lia. }
  split; [|done]. intros s.
  rewrite H1, elem_of_app, !elem_of_cons, elem_of_nil. tauto.
Qed.

Lemma dates_strings data s :
  JStr s ∈ Set_spread (map (fun d => prop d "date") data)
  ↔ ∃ item, item ∈ data ∧ prop item "date" = JStr s.
Proof.
unfold Set_spread.
destruct (Set_spread_strings (map (fun d => prop d "date") data) [])
  as [H1 _]; [intros ?; simpl; lia|].
rewrite H1, elem_of_nil, list_elem_of_fmap. split.
- intros [[]|(item & Hd & Hin)]. by exists item.
- intros (item & Hin & Hd). right. by exists item.
Qed.

(** X8: the date list starts with the sentinel; the options under it hold
    each text date of the data once, and nothing that is no date of the
    data; choosing an option that is a text selects a non-empty collection,
    made of the records of that date only. *)
Theorem date_options_select data s :
  head (dates data) = Some (JStr "All")
  ∧ (JStr s ∈ date_options data
     ↔ s ≠ "All" ∧ ∃ item, item ∈ data ∧ prop item "date" = JStr s)
  ∧ length (filter (fun w => same_value_zero w (JStr s)) (date_options data)) ≤ 1
  ∧ (JStr s ∈ date_options data →
     filteredData data s "All" ≠ []
     ∧ ∀ item, item ∈ filteredData data s "All" → prop item "date" = JStr s).
Proof.
assert (JStr s ∈ date_options data
        ↔ s ≠ "All" ∧ ∃ item, item ∈ data ∧ prop item "date" = JStr s) as Hopt.
{ unfold date_options, dates. rewrite list_elem_of_filter, elem_of_cons.
  rewrite dates_strings. simpl strict_equals.
  destruct (String.eqb_spec s "All") as [->|Hne]; simpl.
  - split; [tauto|]. intros [H _]. by destruct H.
  - split; [intros [_ [H|H]]; [congruence|done]|]. intros [_ H].
    split; [done|]. by right. }
split; [done|]. split; [exact Hopt|]. split.
- unfold date_options, dates. rewrite list_filter_filter.
  rewrite filter_cons.
  destruct (Set_spread_strings (map (fun d => prop d "date") data) [])
    as [_ H2]; [intros ?; simpl; lia|]. specialize (H2 s). fold (Set_spread (map (fun d => prop d "date") data)) in H2.
  assert (∀ l : list JsVal,
            length (filter (fun w => same_value_zero w (JStr s)
                                     ∧ negb (strict_equals w (JStr "All"))) l)
            ≤ length (filter (fun w => same_value_zero w (JStr s)) l)) as Hle.
  { intros l. induction l as [|w l IHl]; [done|].
    rewrite !filter_cons.
    destruct (same_value_zero w (JStr s)),
      (negb (strict_equals w (JStr "All"))); simpl;
      repeat case_decide; simpl; try lia; tauto. }
  case_decide as Hc.
  + destruct Hc as [Hc1 Hc2]. simpl in Hc1, Hc2.
    destruct (String.eqb_spec "All" s) as [<-|]; [done|done].
  + etrans; [apply Hle|done].
- intros Hin. apply Hopt in Hin as (Hne & item & Hin & Hd). split.
  + intros Hnil.
    assert (item ∈ filteredData data s "All") as Hmem.
    { apply filter_by_date_exact; done. }
    rewrite Hnil in Hmem. by apply elem_of_nil in Hmem.
  + intros item' Hmem. by apply filter_by_date_exact in Hmem as [_ ?].
Qed.

Lemma prop_with_text_filter (d s : string) item v :
  filter_pred d s (with_text item v) = filter_pred d s item.
Proof.
unfold filter_pred.
by rewrite !(prop_with_text_ne item v) by discriminate.
Qed.

(** X9: a feedback channel never holds an entry without text: the text of
    every entry is truthy and is the record's own field; there are at most
    as many entries as records; and extracting the feedback of a filtered
    collection is filtering the feedback of the whole. *)
Theorem feedback_entries field C (d s : string) :
  (∀ e, e ∈ feedback field C →
     to_boolean (prop e "text") = true
     ∧ ∃ item, item ∈ C ∧ e = with_text item (prop item field))
  ∧ length (feedback field C) ≤ length C
  ∧ feedback field (filteredData C d s) = filteredData (feedback field C) d s.
Proof.
split; [|split].
- intros e He. unfold feedback in He.
  apply list_elem_of_fmap in He as (item & -> & Hin).
  apply list_elem_of_filter in Hin as [Ht Hin].
  rewrite prop_with_text. split; [by apply Is_true_true|]. by exists item.
- unfold feedback. rewrite length_map. apply length_filter.
- unfold feedback, filteredData.
  induction C as [|item C IH]; [done|].
  rewrite !filter_cons.
  destruct (filter_pred d s item) eqn:Hp, (to_boolean (prop item field)) eqn:Ht;
    simpl; rewrite ?filter_cons, ?Ht, ?prop_with_text_filter, ?Hp; simpl;
    by rewrite IH.
Qed.

End DatesMore.

Section ScreenMore.
Implicit Types (body : JsVal) (st : State).

(** X10: what is drawn once a response body has been handled, starting from
    the initial state.  The spinner is gone; the "no data" placeholder is
    drawn exactly when the load succeeded with no record; the error banner
    is drawn exactly when the load threw, and then the dashboard is drawn
    under it on the empty data, with the zero metrics and no row and no
    profile entry. *)
Theorem screen_after_response body (st := on_response body initial_state)
    (C := filteredData (data st) (filterDate st) (filterStation st)) :
  screen st ≠ LoadingScreen
  ∧ (screen st = NoDataScreen ↔ formattedData body = Ok [])
  ∧ (error_banner st ≠ None ↔ formattedData body = Throw TypeError)
  ∧ (formattedData body = Throw TypeError →
     screen st = DashboardScreen
     ∧ C = []
     ∧ stats C = {| totalCount := 0; avgSatisfaction := JNum (Fin 0);
                    itemsToImprove := 0 |}
     ∧ distributionData C = [] ∧ radarData C = []).
Proof.
subst C st. unfold on_response.
destruct (formattedData body) as [[|r formatted]|[]] eqn:E.
- repeat split; try done; intros H; done.
- repeat split; try done; intros H; done.
- repeat split; try done; intros H; done.
Qed.

End ScreenMore.

Section ScoreTextMore.
Implicit Types (a b pre sep suf s : string) (n m : Z).

Lemma filter_str_append p a b :
  filter_str p (a +:+ b) = filter_str p a +:+ filter_str p b.
Proof.
induction a as [|c a IH]; [done|]. rewrite append_cons. simpl.
destruct (p c); [rewrite append_cons|]; by rewrite IH.
Qed.

Lemma filter_str_none s :
  no_digit_or_dot s = true → filter_str digit_or_dot s = "".
Proof.
induction s as [|c s IH]; [done|]. unfold no_digit_or_dot. simpl.
intros H. apply andb_prop in H as [Hc Hs]. apply negb_true_iff in Hc.
rewrite Hc. by apply IH.
Qed.

Lemma filter_str_digits a :
  str_forall is_digit a = true → filter_str digit_or_dot a = a.
Proof.
induction a as [|c a IH]; [done|]. simpl. intros H.
apply andb_prop in H as [Hc Ha]. unfold digit_or_dot at 1. rewrite Hc. simpl.
by rewrite IH.
Qed.

Lemma parseFloat_digits a :
  str_forall is_digit a = true → (1 ≤ String.length a)%nat →
  parseFloat a = to_binary64 (inject_Z (digits_val a)).
Proof.
intros Ha Hl. destruct (digit_first a Ha Hl) as (c & x & a' & E & Hc).
destruct (digit_not_sign c x Hc) as (Hm & Hp & _).
pose proof (digit_of_code c x Hc).
unfold parseFloat. rewrite E. rewrite trim_start_visible by lia.
rewrite split_sign_unsigned by done. rewrite <-E.
by rewrite read_decimal_integer by done.
Qed.

Lemma pretty_nonneg_digits n :
  (0 ≤ n)%Z →
  str_forall is_digit (pretty n) = true ∧ digits_val (pretty n) = n
  ∧ (1 ≤ String.length (pretty n))%nat.
Proof.
intros Hn. destruct (Z.eq_dec n 0) as [->|Hne]; [done|].
apply pretty_pos_digits. lia.
Qed.

Lemma parseScore_digit_text s a :
  filter_str digit_or_dot s = a →
  str_forall is_digit a = true → (1 ≤ String.length a)%nat →
  parseScore (JStr s) = Ok (to_binary64 (inject_Z (digits_val a))).
Proof.
intros Hs Ha Hl.
assert (to_boolean (JStr s) = true) as Hb.
{ simpl. destruct s; [|done]. subst a. simpl in Hl. lia. }
rewrite (parseScore_text (JStr s) s eq_refl Hb eq_refl). cbv zeta.
rewrite Hs, (parseFloat_digits a Ha Hl).
by rewrite to_binary64_not_NaN.
Qed.

(** X11: a score written as the decimal digits of a natural number, with
    any text free of digits and dots before and after it (a unit, a sign,
    blanks), is normalized to the binary64 value nearest to that number,
    the number itself up to [2^53]; in particular a leading minus sign is
    lost. *)
Theorem parseScore_digits_with_text n pre suf :
  (0 ≤ n)%Z →
  no_digit_or_dot pre = true → no_digit_or_dot suf = true →
  parseScore (JStr (pre +:+ pretty n +:+ suf)) = Ok (to_binary64 (inject_Z n))
  ∧ ((n ≤ 2 ^ 53)%Z →
     parseScore (JStr (pre +:+ pretty n +:+ suf)) = Ok (num_of_Z n)).
Proof.
intros Hn Hpre Hsuf. destruct (pretty_nonneg_digits n Hn) as (Hd & Hv & Hl).
assert (parseScore (JStr (pre +:+ pretty n +:+ suf))
        = Ok (to_binary64 (inject_Z n))) as H.
{ rewrite <-Hv at 2. apply parseScore_digit_text; [|done|done].
  rewrite !filter_str_append, (filter_str_none pre Hpre),
    (filter_str_none suf Hsuf), (filter_str_digits _ Hd).
  by rewrite append_nil, append_empty_r. }
split; [exact H|]. intros Hle. rewrite H. f_equal. apply to_binary64_Z. lia.
Qed.

Lemma parseScore_digits_with_text_witness :
  parseScore (JStr ("-" +:+ pretty 3%Z +:+ " 分")) = Ok (Fin 3).
Proof.
apply (parseScore_digits_with_text 3 "-" " 分"); [lia|reflexivity|reflexivity|].
vm_compute. discriminate.
Defined.

(** X12: two groups of digits separated by text free of digits and dots are
    read as one number, the digits of the first group followed by those of
    the second, rounded to binary64 (exact up to [2^53]): a range such as
    [4-5] is normalized to [45]. *)
Theorem parseScore_merges_digit_groups n m sep
    (joined := (n * 10 ^ Z.of_nat (String.length (pretty m)) + m)%Z) :
  (0 ≤ n)%Z → (0 ≤ m)%Z → no_digit_or_dot sep = true →
  parseScore (JStr (pretty n +:+ sep +:+ pretty m))
  = Ok (to_binary64 (inject_Z joined))
  ∧ ((joined ≤ 2 ^ 53)%Z →
     parseScore (JStr (pretty n +:+ sep +:+ pretty m)) = Ok (num_of_Z joined)).
Proof.
intros Hn Hm Hsep.
destruct (pretty_nonneg_digits n Hn) as (Hdn & Hvn & Hln).
destruct (pretty_nonneg_digits m Hm) as (Hdm & Hvm & Hlm).
assert (parseScore (JStr (pretty n +:+ sep +:+ pretty m))
        = Ok (to_binary64 (inject_Z joined))) as H.
{ subst joined. rewrite <-Hvn at 2. rewrite <-Hvm at 3.
  rewrite <-digits_val_append by done.
  apply parseScore_digit_text.
  - rewrite !filter_str_append, (filter_str_none sep Hsep),
      (filter_str_digits _ Hdn), (filter_str_digits _ Hdm).
    by rewrite append_nil.
  - by rewrite str_forall_append, Hdn, Hdm.
  - rewrite length_append. lia. }
split; [exact H|]. intros Hle. rewrite H. f_equal. apply to_binary64_Z.
split; [|done]. subst joined.
assert (0 ≤ 10 ^ Z.of_nat (String.length (pretty m)))%Z by (apply Z.pow_nonneg; lia).
nia.
Qed.

Lemma parseScore_merges_digit_groups_witness :
  parseScore (JStr (pretty 4%Z +:+ "-" +:+ pretty 5%Z)) = Ok (Fin 45).
Proof.
apply (parseScore_merges_digit_groups 4 5 "-"); [lia|lia|reflexivity|].
vm_compute. discriminate.
Defined.

End ScoreTextMore.

Section BarsMore.
Implicit Types (C : list NormalizedResponse) (item : NormalizedResponse)
  (k : question) (b : Z) (c n : nat).

Lemma flat_map_scores_in_range C :
  forallb (fun item => forallb in_range (scores item)) C = true →
  Forall (fun x => in_range x = true) (flat_map scores C).
Proof.
induction C as [|item C IH]; [by constructor|]. cbn [forallb flat_map].
intros H. apply andb_prop in H as [Hitem HC].
apply Forall_app. split; [by apply forallb_Forall|by apply IH].
Qed.

(** X13: for every filtered collection of a JSON body, [itemsToImprove] is
    at most 8, and when no score of the collection is outside [[0, 5]] the
    text [avgSatisfaction] of a non-empty collection reads as a value of
    [[0, 5]]: no rounding of the sum, of the quotient or of the text read
    takes it past [0] or [5], which binary64 holds exactly.  An array holds
    fewer than [2^32] elements. *)
Theorem stats_within_scale body formatted (d s : string)
    (C := filteredData formatted d s) :
  json body = true →
  formattedData body = Ok formatted →
  itemsToImprove (stats C) ≤ 8
  ∧ (C ≠ [] → (Z.of_nat (length C) < 2 ^ 32)%Z →
     forallb (fun item => forallb in_range (scores item)) C = true →
     ∃ t a, avgSatisfaction (stats C) = JStr t
       ∧ parseFloat t = Fin a ∧ (0 <= a)%Q ∧ (a <= 5)%Q).
Proof.
intros Hj Hf.
pose proof (filteredData_not_NaN formatted d s
              (formattedData_not_NaN body formatted Hj Hf)) as HC.
fold C in HC. clearbody C. apply forallb_Forall in HC. split.
- destruct C as [|item C]; [simpl; lia|].
  rewrite stats_nonempty by done. cbn [itemsToImprove].
  match goal with
  | |- length (filter ?P ?l) ≤ _ => pose proof (length_filter P l) as Hle
  end.
  exact Hle.
- intros Hnil Hlen Hrange. rewrite stats_nonempty by done.
  cbn [avgSatisfaction]. unfold total_score, sum_numbers.
  destruct C as [|item C]; [done|]. simpl length in Hlen.
  destruct (mean_in_range (flat_map scores (item :: C)) (7 + length C * 8))
    with (d := (length (item :: C) * 8)%nat) as (mean & -> & H0 & H5).
  + by apply flat_map_scores_in_range.
  + rewrite length_flat_map_scores. simpl. lia.
  + lia.
  + simpl. lia.
  + rewrite length_flat_map_scores. lia.
  + destruct (text_in_range mean 1 H0 H5) as (a & Ha & Ha0 & Ha5).
    eexists. exists a. split; [reflexivity|]. by repeat split.
Qed.

Lemma stats_within_scale_witness :
  json sample_body = true
  ∧ formattedData sample_body = Ok sample_data
  ∧ itemsToImprove (stats (filteredData sample_data "D1" "All")) ≤ 8
  ∧ ∃ t a, avgSatisfaction (stats (filteredData sample_data "D1" "All")) = JStr t
      ∧ parseFloat t = Fin a ∧ (0 <= a)%Q ∧ (a <= 5)%Q.
Proof.
assert (json sample_body = true) as Hj by (vm_compute; reflexivity).
assert (formattedData sample_body = Ok sample_data) as Hf
  by (vm_compute; reflexivity).
split; [exact Hj|]. split; [exact Hf|].
destruct (stats_within_scale sample_body sample_data "D1" "All" Hj Hf)
  as [H8 Hscale].
split; [exact H8|]. apply Hscale.
- vm_compute. discriminate.
- vm_compute. reflexivity.
- vm_compute. reflexivity.
Defined.

Lemma distributionData_rows C :
  C ≠ [] → distributionData C = map (distribution_row C) questions.
Proof.
intros Hne. destruct C as [|item C]; [done|].
unfold distributionData. by rewrite length_eqb_cons.
Qed.

Lemma distribution_row_hist C k :
  is_hist (counts (distribution_row C k)) (bucket k C).
Proof.
eapply is_hist_ext;
  [|exact (fold_hist k C empty_counts (fun _ => O) empty_counts_hist)].
intros b _. simpl. lia.
Qed.

Lemma bucket_count_row C k b :
  (1 ≤ b ≤ 5)%Z → bucket_count (distribution_row C k) b = bucket k C b.
Proof.
intros Hb. unfold bucket_count.
destruct (distribution_row_hist C k) as [H1 _]. by rewrite H1.
Qed.

Lemma bucket_indicators k item :
  ((if num_eqb (Math_round (score k item)) (num_of_Z 1) then 1 else 0)
   + (if num_eqb (Math_round (score k item)) (num_of_Z 2) then 1 else 0)
   + (if num_eqb (Math_round (score k item)) (num_of_Z 3) then 1 else 0)
   + (if num_eqb (Math_round (score k item)) (num_of_Z 4) then 1 else 0)
   + (if num_eqb (Math_round (score k item)) (num_of_Z 5) then 1 else 0)
   = if in_buckets k item then 1 else 0)%nat.
Proof.
unfold in_buckets. cbn [existsb].
destruct (Math_round_cases (score k item)) as [E|[[neg E]|[z E]]]; rewrite E.
- reflexivity.
- reflexivity.
- rewrite !num_eqb_of_Z.
  destruct (Z.eqb_spec z 1), (Z.eqb_spec z 2), (Z.eqb_spec z 3),
    (Z.eqb_spec z 4), (Z.eqb_spec z 5); simpl; lia.
Qed.

Lemma bucket_sum_exact k C :
  (bucket k C 1 + bucket k C 2 + bucket k C 3 + bucket k C 4 + bucket k C 5
   = length (filter (fun item => in_buckets k item) C))%nat.
Proof.
induction C as [|item C IH]; [done|].
rewrite !bucket_cons, filter_cons.
pose proof (bucket_indicators k item) as Hi.
destruct (in_buckets k item); simpl length; lia.
Qed.

Lemma length_filter_all {T} (p : T → bool) (l : list T) :
  length (filter (fun x => p x) l) = length l ↔ forallb p l = true.
Proof.
induction l as [|x l IH]; [done|]. rewrite filter_cons. simpl.
pose proof (length_filter (fun x => p x) l) as Hle.
destruct (p x); simpl.
- rewrite <-IH. lia.
- split; [lia|discriminate].
Qed.

(** X14: for a non-empty collection, the five counts of a question's row
    add up to the number of records whose rounded score is one of 1 to 5;
    they add up to [total] exactly when that holds for every record. *)
Theorem distribution_counts_exact C k (row := distribution_row C k) :
  C ≠ [] →
  distributionData C = map (distribution_row C) questions
  ∧ (bucket_count row 1 + bucket_count row 2 + bucket_count row 3
     + bucket_count row 4 + bucket_count row 5
     = length (filter (fun item => in_buckets k item) C))%nat
  ∧ ((bucket_count row 1 + bucket_count row 2 + bucket_count row 3
      + bucket_count row 4 + bucket_count row 5 = total row)%nat
     ↔ forallb (in_buckets k) C = true).
Proof.
intros Hne. split; [by apply distributionData_rows|].
subst row. rewrite !bucket_count_row by lia. rewrite bucket_sum_exact.
split; [done|]. apply length_filter_all.
Qed.

Lemma distribution_counts_exact_witness :
  (bucket_count (distribution_row sample_data Q7) 1
   + bucket_count (distribution_row sample_data Q7) 2
   + bucket_count (distribution_row sample_data Q7) 3
   + bucket_count (distribution_row sample_data Q7) 4
   + bucket_count (distribution_row sample_data Q7) 5
   = length (filter (fun item => in_buckets Q7 item) sample_data))%nat.
Proof.
apply (distribution_counts_exact sample_data Q7). discriminate.
Defined.

End BarsMore.

Section StackedMore.
Implicit Types (C : list NormalizedResponse) (k : question) (b : Z) (c n : nat).

Lemma row_count_row C k b :
  (1 ≤ b ≤ 5)%Z → row_count (distribution_row C k) b = bucket k C b.
Proof.
intros Hb. unfold row_count.
rewrite <-(proj1 (pretty_bucket b Hb)). by apply bucket_count_row.
Qed.

Lemma pow2_m53 : (2 ^ (-53) == 1 # 9007199254740992)%Q.
Proof. reflexivity. Qed.

Lemma pow2_m47 : (2 ^ (-47) == 1 # 140737488355328)%Q.
Proof. reflexivity. Qed.

Lemma pow2_m45 : (2 ^ (-45) == 1 # 35184372088832)%Q.
Proof. reflexivity. Qed.

Lemma pow2_m32 : (inject_Z 1 * 2 ^ (-32) == 1 # 4294967296)%Q.
Proof. reflexivity. Qed.

(** The percentage of a count within its total: a value of [[0, 100]]
    within [2^-45] of the exact percentage, [0] for an empty count only. *)
Lemma percentage_value c n :
  (c ≤ S n)%nat → (Z.of_nat (S n) < 2 ^ 32)%Z →
  ∃ v, percentage c (S n) = Fin v
    ∧ (0 <= v)%Q ∧ (v <= 100)%Q
    ∧ (Qabs (v - 100 * inject_Z (Z.of_nat c) / inject_Z (Z.of_nat (S n)))
       <= 2 ^ (-45))%Q
    ∧ ((0 < c)%nat → (0 < v)%Q).
Proof.
intros Hc Hn. unfold percentage. cbn [Nat.ltb Nat.leb].
unfold num_of_nat at 1, num_of_Z. rewrite num_div_of_nat.
pose proof (inject_Z_nat_pos n) as HN.
set (N := inject_Z (Z.of_nat (S n))) in *.
set (x := (inject_Z (Z.of_nat c) / N)%Q).
assert (0 <= inject_Z (Z.of_nat c))%Q as Hc0
  by (change 0%Q with (inject_Z 0); rewrite <-Zle_Qle; lia).
assert (inject_Z (Z.of_nat c) <= N)%Q as HcN
  by (subst N; rewrite <-Zle_Qle; lia).
assert (0 <= x)%Q as Hx0.
{ apply Qle_shift_div_l; [done|]. by rewrite Qmult_0_l. }
assert (x <= 1)%Q as Hx1.
{ apply Qle_shift_div_r; [done|]. by rewrite Qmult_1_l. }
destruct (to_binary64_le_Z x 1 Hx0 Hx1 ltac:(lia)) as (u & Hu & Hu0 & Hu1).
destruct (to_binary64_near x (-52) Hx0) as (u' & Hu' & Hulo & Huhi).
{ apply (Qle_lt_trans _ 1); [done|reflexivity]. }
{ lia. }
assert (u' = u) as -> by congruence.
rewrite Hu. cbn [num_mul]. change (inject_Z 1) with 1%Q in Hu1.
assert (0 <= u * 100)%Q as Hy0 by lra.
assert (u * 100 <= inject_Z 100)%Q as Hy1
  by (change (inject_Z 100) with 100%Q; lra).
destruct (to_binary64_le_Z (u * 100) 100 Hy0 Hy1 ltac:(lia))
  as (v & Hv & Hv0 & Hv1).
destruct (to_binary64_near (u * 100) (-46) Hy0) as (v' & Hv' & Hvlo & Hvhi).
{ apply (Qle_lt_trans _ 100); [done|reflexivity]. }
{ lia. }
assert (v' = v) as -> by congruence.
exists v. split; [done|]. split; [done|]. split; [done|].
change (-52 - 1)%Z with (-53)%Z in Hulo, Huhi.
change (-46 - 1)%Z with (-47)%Z in Hvlo, Hvhi.
rewrite pow2_m53 in Hulo, Huhi. rewrite pow2_m47 in Hvlo, Hvhi.
split.
- apply Qabs_Qle_condition. rewrite pow2_m45.
  assert (100 * inject_Z (Z.of_nat c) / N == 100 * x)%Q as ->
    by (unfold x; field; intros E; rewrite E in HN; by apply Qlt_irrefl in HN).
  split; lra.
- intros Hpos.
  assert (inject_Z 1 * 2 ^ (-32) <= x)%Q as Hx32.
  { rewrite pow2_m32. apply Qle_shift_div_l; [done|].
    assert (N < inject_Z (2 ^ 32))%Q as HN32 by (subst N; by rewrite <-Zlt_Qlt).
    change (inject_Z (2 ^ 32)) with (4294967296 # 1)%Q in HN32.
    assert (1 <= inject_Z (Z.of_nat c))%Q as Hc1
      by (change 1%Q with (inject_Z 1); rewrite <-Zle_Qle; lia).
    lra. }
  destruct (to_binary64_ge x 1 (-32)) as [H|(u' & Hu'' & Hge)]; try lia.
  + done.
  + congruence.
  + assert (u' = u) as -> by congruence. rewrite pow2_m32 in Hge.
    destruct (to_binary64_ge (u * 100) 1 (-32)) as [H|(v' & Hv'' & Hge')];
      try lia.
    * rewrite pow2_m32. lra.
    * congruence.
    * assert (v' = v) as -> by congruence. rewrite pow2_m32 in Hge'. lra.
Qed.

Lemma percentage_zero c n :
  (c ≤ S n)%nat → (Z.of_nat (S n) < 2 ^ 32)%Z →
  num_eqb (percentage c (S n)) (Fin 0) = (c =? 0)%nat.
Proof.
intros Hc Hn. destruct c as [|c]; [by vm_compute|].
destruct (percentage_value (S c) n Hc Hn) as (v & -> & _ & _ & _ & Hpos).
specialize (Hpos ltac:(lia)). simpl.
destruct (Qeq_bool v 0) eqn:E; [|done]. apply Qeq_bool_iff in E.
rewrite E in Hpos. by apply Qlt_irrefl in Hpos.
Qed.

Lemma bucket_le k C b : (bucket k C b ≤ length C)%nat.
Proof. unfold bucket. apply length_filter. Qed.

Lemma segment_of_bucket C k b (row := distribution_row C k) :
  C ≠ [] → (Z.of_nat (length C) < 2 ^ 32)%Z → (1 ≤ b ≤ 5)%Z →
  let p := percentage (bucket k C b) (length C) in
  (if num_eqb (percentage (row_count row b) (total row)) (Fin 0)
   then None
   else Some {| key := b;
                width := number_to_string
                           (percentage (row_count row b) (total row)) +:+ "%";
                backgroundColor := SCORE_COLOR_MAP b;
                title := number_to_string (num_of_Z b) +:+ "分: "
                         +:+ number_to_string (num_of_nat (row_count row b))
                         +:+ "人 ("
                         +:+ toFixed (percentage (row_count row b) (total row)) 1
                         +:+ "%)" |})
  = (if (bucket k C b =? 0)%nat then None
     else Some {| key := b;
                  width := number_to_string p +:+ "%";
                  backgroundColor := SCORE_COLOR_MAP b;
                  title := number_to_string (num_of_Z b) +:+ "分: "
                           +:+ number_to_string (num_of_nat (bucket k C b))
                           +:+ "人 (" +:+ toFixed p 1 +:+ "%)" |}).
Proof.
intros Hne Hlen Hb p. subst row p. rewrite (row_count_row C k b Hb).
change (total (distribution_row C k)) with (length C).
pose proof (bucket_le k C b) as Hle.
destruct C as [|item C]; [done|]. simpl length in *.
by rewrite percentage_zero.
Qed.

(** X15: the bar drawn for a question of a non-empty collection has, from
    score 5 down to 1, a segment for exactly the buckets that are not
    empty; the segment's width is the text of the binary64 percentage
    [(count / total) * 100] of its bucket, a value of [[0, 100]] within
    [2^-45] of the exact percentage.  With a [total] of [0] no segment is
    drawn and nothing is divided.  An array holds fewer than [2^32]
    elements. *)
Theorem stacked_bar_within C k (row := distribution_row C k)
    (p := fun b => percentage (bucket k C b) (length C)) :
  C ≠ [] → (Z.of_nat (length C) < 2 ^ 32)%Z →
  StackedBarRow (name row) row (total row)
  = map (fun b =>
           if (bucket k C b =? 0)%nat then None
           else Some {| key := b;
                        width := number_to_string (p b) +:+ "%";
                        backgroundColor := SCORE_COLOR_MAP b;
                        title := number_to_string (num_of_Z b) +:+ "分: "
                                 +:+ number_to_string (num_of_nat (bucket k C b))
                                 +:+ "人 (" +:+ toFixed (p b) 1 +:+ "%)" |})
        [5; 4; 3; 2; 1]%Z
  ∧ (∀ b, ∃ v, p b = Fin v ∧ (0 <= v)%Q ∧ (v <= 100)%Q
       ∧ (Qabs (v - 100 * inject_Z (Z.of_nat (bucket k C b))
                    / inject_Z (Z.of_nat (length C))) <= 2 ^ (-45))%Q)
  ∧ (∀ label data, StackedBarRow label data 0 = [None; None; None; None; None]).
Proof.
intros Hne Hlen. split; [|split].
- unfold StackedBarRow. cbn [map]. cbv zeta.
  rewrite !(segment_of_bucket C k _ Hne Hlen) by lia. reflexivity.
- intros b. subst p. cbv beta. pose proof (bucket_le k C b) as Hle.
  destruct C as [|item C]; [done|]. simpl length in *.
  destruct (percentage_value (bucket k (item :: C) b) (length C) Hle Hlen)
    as (v & Hv & H0 & H100 & Hnear & _).
  by exists v.
- reflexivity.
Qed.

Lemma stacked_bar_within_witness :
  ∃ v, percentage (bucket Q1 sample_data 5) (length sample_data) = Fin v
    ∧ (0 <= v)%Q ∧ (v <= 100)%Q
    ∧ (Qabs (v - 100 * inject_Z (Z.of_nat (bucket Q1 sample_data 5))
                 / inject_Z (Z.of_nat (length sample_data))) <= 2 ^ (-45))%Q.
Proof.
apply (proj1 (proj2 (stacked_bar_within sample_data Q1
                       ltac:(discriminate) ltac:(vm_compute; reflexivity))) 5%Z).
Defined.

End StackedMore.
